(** * hexrd.rotations: quaternion algebra, symmetry reduction, angle utilities

    A shallow embedding of [src/hexrd/rotations.py].  Floating-point numbers
    are idealised as real numbers ([R]), except where the code branches on
    what a float is: numpy's [pi] is the binary64 number it is where the
    sign of a cosine at a half turn depends on it, and the cast of a float
    to a 64-bit integer is defined only where the number fits.  numpy arrays
    of quaternions (shape (4, n), one quaternion per column) are lists of
    columns; Python exceptions are an explicit result type. *)

From Stdlib Require Import Reals Lra Lia String Ascii Bool Arith List.
Import ListNotations.
Open Scope R_scope.

(** ** Python exceptions as results *)

Inductive exn : Type :=
| RuntimeError
| ValueError
| NotImplementedError
| IndexError
| KeyError
| UnboundLocalError
| ZeroDivisionError.

Inductive result (A : Type) : Type :=
| Ok (a : A)
| Raise (e : exn).

Arguments Ok {A} a.
Arguments Raise {A} e.

Definition bind {A B : Type} (r : result A) (k : A -> result B) : result B :=
  match r with
  | Ok a => k a
  | Raise e => Raise e
  end.

Notation "x <- r ;; k" := (bind r (fun x => k))
  (at level 61, r at next level, right associativity).

(** Runs [f] over a list, stopping at the first exception (a [for] loop that
    appends to a list). *)
Fixpoint mapM {A B : Type} (f : A -> result B) (l : list A) : result (list B) :=
  match l with
  | [] => Ok []
  | a :: l' => b <- f a ;; bs <- mapM f l' ;; Ok (b :: bs)
  end.

(** ** Comparisons on reals as booleans (numpy's elementwise [<], [>], [==]) *)

Definition Rltb (x y : R) : bool := if Rlt_dec x y then true else false.
Definition Rleb (x y : R) : bool := if Rle_dec x y then true else false.
Definition Rgtb (x y : R) : bool := Rltb y x.
Definition Rgeb (x y : R) : bool := Rleb y x.
Definition Reqb (x y : R) : bool := if Req_dec_T x y then true else false.

(** ** Columns: 3-vectors and quaternions *)

Record vec3 : Type := Vec3 { v_0 : R; v_1 : R; v_2 : R }.

(** A quaternion [q_0, q_1, q_2, q_3], [q_0] the scalar part: one column of a
    (4, n) array. *)
Record quat : Type := Quat { q_0 : R; q_1 : R; q_2 : R; q_3 : R }.

(** What the column operations of [hexrd.matrixutil] need of a column. *)
Class Column (V : Type) : Type := {
  sumsq : V -> R;
  scale : R -> V -> V;
  cadd : V -> V -> V
}.

#[export] Instance Column_vec3 : Column vec3 := {
  sumsq v := v_0 v * v_0 v + v_1 v * v_1 v + v_2 v * v_2 v;
  scale a v := Vec3 (a * v_0 v) (a * v_1 v) (a * v_2 v);
  cadd u v := Vec3 (v_0 u + v_0 v) (v_1 u + v_1 v) (v_2 u + v_2 v)
}.

#[export] Instance Column_quat : Column quat := {
  sumsq q := q_0 q * q_0 q + q_1 q * q_1 q + q_2 q * q_2 q + q_3 q * q_3 q;
  scale a q := Quat (a * q_0 q) (a * q_1 q) (a * q_2 q) (a * q_3 q);
  cadd p q := Quat (q_0 p + q_0 q) (q_1 p + q_1 q) (q_2 p + q_2 q) (q_3 p + q_3 q)
}.

Definition norm {V : Type} `{Column V} (v : V) : R := sqrt (sumsq v).

(** Modelled from the spec: [columnNorm] of [hexrd.matrixutil], which is not
    among the sources; the Euclidean norm of every column. *)
Definition columnNorm {V : Type} `{Column V} (a : list V) : list R :=
  map norm a.

(** Modelled from the spec: [unitVector] of [hexrd.matrixutil], which is not
    among the sources; the spec has it normalise each column to unit length.
    A column of norm zero is left as it is ([/ 0 = 0] in [R]). *)
Definition unitVector {V : Type} `{Column V} (a : list V) : list V :=
  map (fun v => scale (/ norm v) v) a.

Definition identity_quat : quat := Quat 1 0 0 0.

(** The Hamilton product [p * q] of the mathematical literature: scalar part
    [p0 q0 - pv . qv], vector part [p0 qv + q0 pv + pv x qv]. *)
Definition hamilton (p q : quat) : quat :=
  Quat (q_0 p * q_0 q - q_1 p * q_1 q - q_2 p * q_2 q - q_3 p * q_3 q)
       (q_0 p * q_1 q + q_1 p * q_0 q + q_2 p * q_3 q - q_3 p * q_2 q)
       (q_0 p * q_2 q - q_1 p * q_3 q + q_2 p * q_0 q + q_3 p * q_1 q)
       (q_0 p * q_3 q + q_1 p * q_2 q - q_2 p * q_1 q + q_3 p * q_0 q).

(** ** 4 x 4 matrices, by rows *)

Record mat4 : Type := Mat4 { row0 : quat; row1 : quat; row2 : quat; row3 : quat }.

Definition rdot (r v : quat) : R :=
  q_0 r * q_0 v + q_1 r * q_1 v + q_2 r * q_2 v + q_3 r * q_3 v.

(** [dot(M, v)] for a (4, 4) matrix and one column. *)
Definition dot (M : mat4) (v : quat) : quat :=
  Quat (rdot (row0 M) v) (rdot (row1 M) v) (rdot (row2 M) v) (rdot (row3 M) v).

(** [M.transpose()] of one (4, 4) slice. *)
Definition transpose (M : mat4) : mat4 :=
  Mat4 (Quat (q_0 (row0 M)) (q_0 (row1 M)) (q_0 (row2 M)) (q_0 (row3 M)))
       (Quat (q_1 (row0 M)) (q_1 (row1 M)) (q_1 (row2 M)) (q_1 (row3 M)))
       (Quat (q_2 (row0 M)) (q_2 (row1 M)) (q_2 (row2 M)) (q_2 (row3 M)))
       (Quat (q_3 (row0 M)) (q_3 (row1 M)) (q_3 (row2 M)) (q_3 (row3 M))).

(** ** quatProductMatrix

    The source stacks sixteen rows of length [nq], and
    [qmats.T.reshape(nq, 4, 4)] makes, for each quaternion, the matrix whose
    ROWS are the four groups of four entries as listed;
    [.transpose(0, 2, 1)] then transposes every slice.  The test
    [quats.shape[0] != 4] cannot fail on a list of [quat].  A [mult] that is
    neither ['right'] nor ['left'] leaves [qmats] unbound. *)
Definition right_matrix (q : quat) : mat4 :=
  let q0 := q_0 q in let q1 := q_1 q in
  let q2 := q_2 q in let q3 := q_3 q in
  transpose (Mat4 (Quat q0 q1 q2 q3)
                  (Quat (- q1) q0 (- q3) q2)
                  (Quat (- q2) q3 q0 (- q1))
                  (Quat (- q3) (- q2) q1 q0)).

Definition left_matrix (q : quat) : mat4 :=
  let q0 := q_0 q in let q1 := q_1 q in
  let q2 := q_2 q in let q3 := q_3 q in
  transpose (Mat4 (Quat q0 q1 q2 q3)
                  (Quat (- q1) q0 q3 (- q2))
                  (Quat (- q2) (- q3) q0 q1)
                  (Quat (- q3) q2 (- q1) q0)).

Definition quatProductMatrix (quats : list quat) (mult : string)
  : result (list mat4) :=
  if String.eqb mult "right" then Ok (map right_matrix quats)
  else if String.eqb mult "left" then Ok (map left_matrix quats)
  else Raise UnboundLocalError.

(** [dot(qmats, h)] for the (n, 4, 4) stack and a (4, 1) column [h]: one
    product per matrix of the stack. *)
Definition dot_stack (qmats : list mat4) (h : quat) : list quat :=
  map (fun M => dot M h) qmats.

Definition unit_quat (q : quat) : Prop := sumsq q = 1.

(** Two unit quaternions with rational components, for concrete runs. *)
Definition q_c3 : quat := Quat (3 / 5) (4 / 5) 0 0.

Definition h_c3 : quat := Quat (3 / 5) 0 (4 / 5) 0.

(** ** Quaternion arrays and fixQuat *)

(** The two layouts the source accepts: a flat (4, n) batch, and a 3-D
    (l, 4, n) array, kept as its [l] blocks of [n] columns each
    ([blocks[a][b]] is [q[a, :, b]]). *)
Inductive qarray : Type :=
| Q2 (cols : list quat)
| Q3 (n : nat) (blocks : list (list quat)).

Definition wf_qarray (q : qarray) : Prop :=
  match q with
  | Q2 _ => True
  | Q3 n blocks => Forall (fun b => length b = n) blocks
  end.

(** [q.transpose(0, 2, 1).reshape(l * n, 4).T]: column [a * n + b] of the
    flat batch is [q[a, :, b]]. *)
Definition flatten3 (blocks : list (list quat)) : list quat := concat blocks.

(** [x.reshape(r, c)] of a flat sequence of [r * c] items, as its [r] rows. *)
Fixpoint reshape_rows {A : Type} (r c : nat) (xs : list A) : list (list A) :=
  match r with
  | O => []
  | S r' => firstn c xs :: reshape_rows r' c (skipn c xs)
  end.

(** [x.T.reshape(l, n, 4).transpose(0, 2, 1)]: the flat batch cut back into
    [l] blocks of [n] columns. *)
Definition unflatten3 (l n : nat) (cols : list quat) : list (list quat) :=
  reshape_rows l n cols.

Definition columns (q : qarray) : list quat :=
  match q with
  | Q2 cols => cols
  | Q3 _ blocks => flatten3 blocks
  end.

(** [qfix[:, q0negative] = -1 * qfix[:, q0negative]] on one column. *)
Definition flip_negative (c : quat) : quat :=
  if Rltb (q_0 c) 0 then scale (-1) c else c.

(** The body of [fixQuat] on the flat batch. *)
Definition fixQuat_flat (q : list quat) : list quat :=
  map flip_negative (unitVector q).

(** [fixQuat]; the assertion [m == 4] of the 3-D case holds of every
    [qarray]. *)
Definition fixQuat (q : qarray) : qarray :=
  match q with
  | Q2 cols => Q2 (fixQuat_flat cols)
  | Q3 n blocks =>
      Q3 n (unflatten3 (length blocks) n (fixQuat_flat (flatten3 blocks)))
  end.

Definition normalize (c : quat) : quat := scale (/ norm c) c.

(** [fixQuat] on one column. *)
Definition fix1 (c : quat) : quat := flip_negative (normalize c).

(** ** arccosSafe *)

(** The slack of [arccosSafe], the literal [1.00001]. *)
Definition arccos_slack : R := 100001 / 100000.

(** [temp[gte1] = 1; temp[lte1] = -1], both masks taken on the entry as it
    came in. *)
Definition clamp_unit (x : R) : R :=
  let gte1 := Rgeb x 1 in
  let lte1 := Rleb x (-1) in
  let x1 := if gte1 then 1 else x in
  if lte1 then -1 else x1.

(** [arccosSafe]; a scalar argument is the one-element array that
    [atleast_1d] makes of it. *)
Definition arccosSafe (temp : list R) : result (list R) :=
  if existsb (fun x => Rgtb (Rabs x) arccos_slack) temp
  then Raise RuntimeError
  else Ok (map acos (map clamp_unit temp)).

(** What [arccosSafe] returns for one admissible entry. *)
Definition arccos_entry (x a : R) : Prop :=
  (1 <= x -> a = 0) /\ (x <= -1 -> a = PI) /\ (-1 < x < 1 -> a = acos x).

(** ** Angle utilities *)

(** numpy's [mod] on floats, for a positive modulus: the remainder of the
    floored division. *)
Definition np_mod (x p : R) : R := x - IZR (Int_part (x / p)) * p.

Fixpoint dict_get (d : list (string * R)) (k : string) : result R :=
  match d with
  | [] => Raise KeyError
  | (k', v) :: d' => if String.eqb k k' then Ok v else dict_get d' k
  end.

Definition periodDict : list (string * R) :=
  [("degrees"%string, 360); ("radians"%string, 2 * PI)].

(** Elementwise binary operation on two 1-d arrays, with numpy's
    broadcasting of a one-element array (a Python scalar is such an array). *)
Definition broadcast2 (f : R -> R -> R) (a b : list R) : result (list R) :=
  if Nat.eqb (length a) (length b)
  then Ok (map (fun xy => f (fst xy) (snd xy)) (combine a b))
  else if Nat.eqb (length a) 1 then Ok (map (f (hd 0 a)) b)
  else if Nat.eqb (length b) 1 then Ok (map (fun x => f x (hd 0 b)) a)
  else Raise ValueError.

Definition angularDifference_orig (angList0 angList1 : list R) (units : string)
  : result (list R) :=
  period <- (if String.eqb units "radians" then Ok (2 * PI)
             else if String.eqb units "degrees" then Ok 360
             else Raise RuntimeError) ;;
  diffAngles <- broadcast2 Rminus angList0 angList1 ;;
  Ok (map (fun d => Rabs (np_mod (d + (5 / 10) * period) period
                          - (5 / 10) * period)) diffAngles).

Definition angularDifference_opt (angList0 angList1 : list R) (units : string)
  : result (list R) :=
  period <- dict_get periodDict units ;;
  d <- broadcast2 (fun x1 x0 => Rabs (x1 - x0)) angList1 angList0 ;;
  Ok (map (fun d => Rmin d (period - d)) d).

Definition angularDifference := angularDifference_opt.

(** ** Quaternions from angle and axis *)

(** The rotation type of [scipy.spatial.transform], an external library:
  a rotation is held as a unit quaternion in scalar-last order
  [(x, y, z, w)].  [from_rotvec] follows its documentation: the rotation
  vector has the axis as direction and the angle as norm, and the
  quaternion is [(axis * sin (angle / 2), cos (angle / 2))]. *)
Module Scipy.

Record Rotation : Type := Rot { rx : R; ry : R; rz : R; rw : R }.

Definition from_rotvec (v : vec3) : Rotation :=
  let angle := norm v in
  let s := sin (angle / 2) / angle in
  Rot (s * v_0 v) (s * v_1 v) (s * v_2 v) (cos (angle / 2)).

End Scipy.

(** numpy's [sign]: -1, 0 or 1. *)
Definition np_sign (x : R) : R :=
  if Rltb x 0 then -1 else if Rltb 0 x then 1 else 0.

(** [_scipy_rotation_to_quat]: [np.roll(..., 1, axis=1)] brings the scalar
    first, and every column is multiplied by the sign of its scalar. *)
Definition _scipy_rotation_to_quat (r : list Scipy.Rotation) : list quat :=
  map (fun rot =>
         let quat := Quat (Scipy.rw rot) (Scipy.rx rot) (Scipy.ry rot) (Scipy.rz rot) in
         scale (np_sign (q_0 quat)) quat) r.

(** The angle argument of [quatOfAngleAxis]: a Python number, or a list or
    1-d array of numbers. *)
Inductive angle_arg : Type :=
| AngleScalar (a : R)
| AngleList (a : list R).

(** [R.from_rotvec] on an (N, 3) array, by its rows: scipy refuses an array
    without rows with [ValueError]. *)
Definition from_rotvec_rows (rotvec : list vec3)
  : result (list Scipy.Rotation) :=
  match rotvec with
  | [] => Raise ValueError
  | _ => Ok (map Scipy.from_rotvec rotvec)
  end.

(** [quatOfAngleAxis]; [rotaxis] is a (3, k) array.  [angle * rotaxis]
    scales column [j] by [angle[j]]. *)
Definition quatOfAngleAxis (angle : angle_arg) (rotaxis : list vec3)
  : result (list quat) :=
  let n := match angle with
           | AngleScalar _ => 1%nat
           | AngleList a => length a
           end in
  rotaxis <- (if Nat.eqb (length rotaxis) 1
              then Ok (repeat (hd (Vec3 0 0 0) rotaxis) n)
              else if negb (Nat.eqb (length rotaxis) n)
                   then Raise RuntimeError
                   else Ok rotaxis) ;;
  let rotaxis := unitVector rotaxis in
  let rotvec := match angle with
                | AngleScalar a => map (scale a) rotaxis
                | AngleList a =>
                    map (fun av => scale (fst av) (snd av)) (combine a rotaxis)
                end in
  rot <- from_rotvec_rows rotvec ;;
  Ok (_scipy_rotation_to_quat rot).

(** ** Symmetry tables *)

Definition lower_ascii (c : ascii) : ascii :=
  let n := nat_of_ascii c in
  if (Nat.leb 65 n && Nat.leb n 90)%bool then ascii_of_nat (n + 32) else c.

(** [str.lower] on ASCII strings. *)
Fixpoint lower (s : string) : string :=
  match s with
  | EmptyString => EmptyString
  | String c s' => String (lower_ascii c) (lower s')
  end.

(** numpy's [pi], the binary64 number nearest to the real number pi: it is
    the fraction below, and lies just under pi.  The tables of
    [quatOfLaueGroup] and the angles of [discreteFiber] take a half turn
    from it, where the sign of a cosine depends on which side of pi the
    number lies; it is kept as the number it is there, and the arithmetic
    on it is exact.  (Where only a period is made of it, [PI] stands for
    it.) *)
Definition np_pi : R := 884279719003555 / 281474976710656.

Definition sq3by2 : R := sqrt 3 / 2.
Definition piby2 : R := np_pi / 2.
Definition piby3 : R := np_pi / 3.

(** The [angleAxis] table of [quatOfLaueGroup]: a (4, N) array whose columns
    are an angle followed by an axis (the record [quat] serves as a column of
    four numbers). *)
Definition laue_angleAxis (tag : string) : result (list quat) :=
  let t := lower tag in
  if (String.eqb t "ci" || String.eqb t "s2")%bool then
    Ok [Quat 0 1 0 0]
  else if String.eqb t "c2h" then
    Ok [Quat 0 1 0 0; Quat np_pi 0 1 0]
  else if (String.eqb t "d2h" || String.eqb t "vh")%bool then
    Ok [Quat 0 1 0 0; Quat np_pi 1 0 0; Quat np_pi 0 1 0; Quat np_pi 0 0 1]
  else if String.eqb t "c4h" then
    Ok [Quat 0 1 0 0; Quat piby2 0 0 1; Quat np_pi 0 0 1; Quat (piby2 * 3) 0 0 1]
  else if String.eqb t "d4h" then
    Ok [Quat 0 1 0 0; Quat piby2 0 0 1; Quat np_pi 0 0 1; Quat (piby2 * 3) 0 0 1;
        Quat np_pi 1 0 0; Quat np_pi 0 1 0; Quat np_pi 1 1 0; Quat np_pi (-1) 1 0]
  else if (String.eqb t "c3i" || String.eqb t "s6")%bool then
    Ok [Quat 0 1 0 0; Quat (piby3 * 2) 0 0 1; Quat (piby3 * 4) 0 0 1]
  else if String.eqb t "d3d" then
    Ok [Quat 0 1 0 0; Quat (piby3 * 2) 0 0 1; Quat (piby3 * 4) 0 0 1;
        Quat np_pi 1 0 0; Quat np_pi (- (5 / 10)) sq3by2 0;
        Quat np_pi (- (5 / 10)) (- sq3by2) 0]
  else if String.eqb t "c6h" then
    Ok [Quat 0 1 0 0; Quat piby3 0 0 1; Quat (piby3 * 2) 0 0 1; Quat np_pi 0 0 1;
        Quat (piby3 * 4) 0 0 1; Quat (piby3 * 5) 0 0 1]
  else if String.eqb t "d6h" then
    Ok [Quat 0 1 0 0; Quat piby3 0 0 1; Quat (piby3 * 2) 0 0 1; Quat np_pi 0 0 1;
        Quat (piby3 * 4) 0 0 1; Quat (piby3 * 5) 0 0 1;
        Quat np_pi 1 0 0; Quat np_pi (- (5 / 10)) sq3by2 0;
        Quat np_pi (- (5 / 10)) (- sq3by2) 0; Quat np_pi sq3by2 (5 / 10) 0;
        Quat np_pi 0 1 0; Quat np_pi (- sq3by2) (5 / 10) 0]
  else if String.eqb t "th" then
    Ok [Quat 0 1 0 0; Quat np_pi 1 0 0; Quat np_pi 0 1 0; Quat np_pi 0 0 1;
        Quat (piby3 * 2) 1 1 1; Quat (piby3 * 4) 1 1 1;
        Quat (piby3 * 2) (-1) 1 1; Quat (piby3 * 4) (-1) 1 1;
        Quat (piby3 * 2) (-1) (-1) 1; Quat (piby3 * 4) (-1) (-1) 1;
        Quat (piby3 * 2) 1 (-1) 1; Quat (piby3 * 4) 1 (-1) 1]
  else if String.eqb t "oh" then
    Ok [Quat 0 1 0 0;
        Quat piby2 1 0 0; Quat np_pi 1 0 0; Quat (piby2 * 3) 1 0 0;
        Quat piby2 0 1 0; Quat np_pi 0 1 0; Quat (piby2 * 3) 0 1 0;
        Quat piby2 0 0 1; Quat np_pi 0 0 1; Quat (piby2 * 3) 0 0 1;
        Quat (piby3 * 2) 1 1 1; Quat (piby3 * 4) 1 1 1;
        Quat (piby3 * 2) (-1) 1 1; Quat (piby3 * 4) (-1) 1 1;
        Quat (piby3 * 2) (-1) (-1) 1; Quat (piby3 * 4) (-1) (-1) 1;
        Quat (piby3 * 2) 1 (-1) 1; Quat (piby3 * 4) 1 (-1) 1;
        Quat np_pi 1 1 0; Quat np_pi (-1) 1 0; Quat np_pi 1 0 1; Quat np_pi 0 1 1;
        Quat np_pi (-1) 0 1; Quat np_pi 0 (-1) 1]
  else Raise RuntimeError.

(** [quatOfLaueGroup]: [angle = angleAxis[0,]], [axis = angleAxis[1:,]]; the
    final copy into a C-ordered array keeps the values. *)
Definition quatOfLaueGroup (tag : string) : result (list quat) :=
  angleAxis <- laue_angleAxis tag ;;
  let angle := map q_0 angleAxis in
  let axis := map (fun c => Vec3 (q_1 c) (q_2 c) (q_3 c)) angleAxis in
  quatOfAngleAxis (AngleList angle) axis.

(** A symmetry argument: a Schoenflies tag or a batch of quaternions. *)
Inductive symmetry : Type :=
| SymTag (tag : string)
| SymGroup (qsym : list quat).

(** The quaternions a symmetry argument stands for:
    [quatOfLaueGroup(sym)] for a string, the array itself otherwise. *)
Definition symmetry_quats (sym : symmetry) : result (list quat) :=
  match sym with
  | SymTag tag => quatOfLaueGroup tag
  | SymGroup qsym => Ok qsym
  end.

(** ** toFundamentalRegion *)

(** [dot(qmats, q).transpose(2, 0, 1).reshape(m * n, 4).T] for the (m, 4, 4)
    stack [qmats] and the (4, n) batch [q]: column [j * m + k] of the result
    is [qmats[k]] applied to column [j] of [q]. *)
Definition apply_stack (qmats : list mat4) (q : list quat) : list quat :=
  flat_map (fun qj => map (fun M => dot M qj) qmats) q.

Fixpoint argmax_from (best : R) (besti i : nat) (l : list R) : nat :=
  match l with
  | [] => besti
  | x :: l' =>
      if Rltb best x then argmax_from x i (S i) l'
      else argmax_from best besti (S i) l'
  end.

(** numpy's [argmax] of a 1-d array: the first index of the maximum; an
    empty array is refused. *)
Definition np_argmax (l : list R) : result nat :=
  match l with
  | [] => Raise ValueError
  | x :: l' => Ok (argmax_from x 0 1 l')
  end.

(** [argmax(a, 0)] of an (m, n) array given by its [n] columns; a reduced
    axis of length 0 is refused whatever [n] is. *)
Definition argmax_axis0 (m : nat) (cols : list (list R)) : result (list nat) :=
  if Nat.eqb m 0 then Raise ValueError else mapM np_argmax cols.

(** [a[:, ind]] for a list of column indices. *)
Definition take_columns {A : Type} (a : list A) (ind : list nat)
  : result (list A) :=
  mapM (fun i => match nth_error a i with
                 | Some c => Ok c
                 | None => Raise IndexError
                 end) ind.

Definition toFundamentalRegion
  (q : qarray) (crysSym : symmetry) (sampSym : option symmetry)
  : result qarray :=
  let q' := columns q in
  gc <- symmetry_quats crysSym ;;
  qsym_c <- quatProductMatrix gc "right" ;;
  let n := length q' in
  let m := length qsym_c in
  let qeqv := apply_stack qsym_c q' in
  match sampSym with
  | None =>
      let qeqv := fixQuat_flat qeqv in
      (* the n columns of the (m, n) array q0 *)
      let q0 := reshape_rows n m (map q_0 qeqv) in
      amax <- argmax_axis0 m q0 ;;
      let q0maxColInd :=
        map (fun ab => (fst ab + snd ab)%nat)
            (combine amax (map (fun x => (x * m)%nat) (seq 0 n))) in
      (* for n = 0 the sum with the empty list is an array of floats, which
         is refused as an index *)
      qr <- (if Nat.eqb n 0 then Raise IndexError
             else take_columns qeqv q0maxColInd) ;;
      match q with
      | Q2 _ => Ok (Q2 qr)
      | Q3 n3 blocks => Ok (Q3 n3 (unflatten3 (length blocks) n3 qr))
      end
  | Some sampSym =>
      gs <- symmetry_quats sampSym ;;
      qsym_s <- quatProductMatrix gs "left" ;;
      let p := length qsym_s in
      let qeqv := fixQuat_flat (apply_stack qsym_s qeqv) in
      Raise NotImplementedError
  end.

(** The index [np_argmax] returns on a non-empty array. *)
Definition argmax_idx (l : list R) : nat :=
  match l with
  | [] => 0%nat
  | x :: l' => argmax_from x 0 1 l'
  end.

(** The column that the selection keeps of one equivalence class. *)
Definition pick (c : list quat) : quat :=
  nth (argmax_idx (map q_0 c)) c (Quat 0 0 0 0).

(** ** Equivalence classes *)

(** The crystal-symmetry equivalence class of [qj]: its products [qj * s]
    with the members [s] of the group, in the order of the group. *)
Definition sym_class (gc : list quat) (qj : quat) : list quat :=
  map (hamilton qj) gc.

(** The sign-fixed members of the class. *)
Definition fixed_class (gc : list quat) (qj : quat) : list quat :=
  map fix1 (sym_class gc qj).

Definition same_shape (a b : qarray) : Prop :=
  match a, b with
  | Q2 x, Q2 y => length x = length y
  | Q3 n x, Q3 n' y => n = n' /\ length x = length y
  | _, _ => False
  end.

(** ** misorientation *)

(** [invertQuat]: [imat] has the column [[-1, 1, 1, 1]] for every column of
    [q], the product is entry by entry, and [fixQuat] follows. *)
Definition invertQuat (q : list quat) : list quat :=
  let numq := length q in
  let imat := repeat (Quat (-1) 1 1 1) numq in
  let qinv := map (fun iq => Quat (q_0 (fst iq) * q_0 (snd iq))
                                  (q_1 (fst iq) * q_1 (snd iq))
                                  (q_2 (fst iq) * q_2 (snd iq))
                                  (q_3 (fst iq) * q_3 (snd iq)))
                  (combine imat q) in
  fixQuat_flat qinv.

(** numpy's [max] of a 1-d array; an empty array is refused. *)
Definition np_max (l : list R) : result R :=
  match l with
  | [] => Raise ValueError
  | x :: l' => Ok (fold_left Rmax l' x)
  end.

(** [a.max(0)] of an array given by its columns, each of [rows] entries. *)
Definition max_axis0 (rows : nat) (cols : list (list R)) : result (list R) :=
  if Nat.eqb rows 0 then Raise ValueError else mapM np_max cols.

(** The positions, in increasing order, of the entries of [l] equal to
    [x]. *)
Fixpoint positions_eq (x : R) (i : nat) (l : list R) : list nat :=
  match l with
  | [] => []
  | y :: l' => if Reqb y x then i :: positions_eq x (S i) l'
               else positions_eq x (S i) l'
  end.

(** [misorientation(q1, q2, *args)]: [args] holds the extra positional
    arguments, of which only the first, a tuple of symmetry arrays, is read.

    [(sclEqvMis == qmax).nonzero()] lists the pairs (row [r], column [j])
    with [sclEqvMis[r, j] == qmax[j]]; [sort] of [r + j * p * m] is then the
    increasing list of the positions in [eqvMis] that hold the maximum of
    their class, which is how [eqvMisColInd] is built here, class by
    class. *)
Definition misorientation
  (q1 q2 : list quat) (args : list (list (list quat)))
  : result (list R * list quat) :=
  if negb (Nat.eqb (length q1) 1) then Raise RuntimeError else
  sym <- match args with
         | [] => Ok ([identity_quat], [identity_quat])
         | sym :: _ =>
             match sym with
             | [] => Raise IndexError
             | [c] => Ok (c, [identity_quat])
             | [c; s] => Ok (c, s)
             | _ => Raise RuntimeError
             end
         end ;;
  let n := length q2 in
  let m := length (fst sym) in
  let p := length (snd sym) in
  q1i_stack <- quatProductMatrix (invertQuat q1) "right" ;;
  q1i <- match q1i_stack with
         | [M] => Ok M
         | _ => Raise ValueError
         end ;;
  rsym <- quatProductMatrix (fst sym) "right" ;;
  lsym <- quatProductMatrix (snd sym) "left" ;;
  let q2 := apply_stack rsym q2 in
  let q2 := apply_stack lsym q2 in
  let eqvMis := fixQuat_flat (map (dot q1i) q2) in
  (* the n columns of the (p * m, n) array sclEqvMis *)
  let sclEqvMis := reshape_rows n (p * m) (map q_0 eqvMis) in
  qmax <- max_axis0 (p * m) sclEqvMis ;;
  let eqvMisColInd :=
    concat (map (fun jcx =>
                   positions_eq (snd jcx) (fst (fst jcx) * (p * m))
                                (snd (fst jcx)))
                (combine (combine (seq 0 n) sclEqvMis) qmax)) in
  mis <- take_columns eqvMis eqvMisColInd ;;
  acs <- arccosSafe qmax ;;
  let angle := map (fun a => 2 * a) acs in
  Ok (angle, mis).

(** The one column of [invertQuat [q]] before [fixQuat]. *)
Definition negate_scalar (q : quat) : quat :=
  Quat (-1 * q_0 q) (1 * q_1 q) (1 * q_2 q) (1 * q_3 q).

(** ** discreteFiber *)

(** 3 x 3 matrices, by rows. *)
Record mat3 : Type := Mat3 { m_0 : vec3; m_1 : vec3; m_2 : vec3 }.

Definition I3 : mat3 := Mat3 (Vec3 1 0 0) (Vec3 0 1 0) (Vec3 0 0 1).

Definition vdot (r v : vec3) : R := v_0 r * v_0 v + v_1 r * v_1 v + v_2 r * v_2 v.

Definition dot3 (B : mat3) (v : vec3) : vec3 :=
  Vec3 (vdot (m_0 B) v) (vdot (m_1 B) v) (vdot (m_2 B) v).

(** [v / a], entry by entry. *)
Definition vdiv (v : vec3) (a : R) : vec3 := Vec3 (v_0 v / a) (v_1 v / a) (v_2 v / a).

(** Python's [not] on a numpy array: the truth value of an array is defined
    for one element only. *)
Definition py_not (a : list bool) : result bool :=
  match a with
  | [b] => Ok (negb b)
  | _ => Raise ValueError
  end.

(** What [discreteFiber] appends to its result for one crystal direction,
    after [squeeze] has dropped the axes of length 1 of the (npts, 4, ndiv)
    array. *)
Inductive fiber : Type :=
| Fiber3 (ndiv : nat) (blocks : list (list quat))  (* (npts, 4, ndiv) *)
| Fiber2 (cols : list quat)                        (* (4, ndiv) *)
| FiberRows (rows : list quat)                     (* (npts, 4) *)
| Fiber1 (q : quat).                               (* (4,) *)

Definition squeeze (ndiv : nat) (blocks : list (list quat)) : fiber :=
  match blocks with
  | [b] =>
      if Nat.eqb ndiv 1 then Fiber1 (hd (Quat 0 0 0 0) b) else Fiber2 b
  | _ =>
      if Nat.eqb ndiv 1 then FiberRows (map (hd (Quat 0 0 0 0)) blocks)
      else Fiber3 ndiv blocks
  end.

Definition fiber_of_qarray (q : qarray) : fiber :=
  match q with
  | Q2 cols => Fiber2 cols
  | Q3 n blocks => Fiber3 n blocks
  end.

Section DiscreteFiber.

(** [cnst.sqrt_epsf], a constant of [hexrd.constants], and [nullSpace] of
    [hexrd.matrixutil], which returns a (3, k) array for its (3, 1)
    argument: neither is among the sources. *)
Variable sqrt_epsf : R.
Variable nullSpace : vec3 -> list vec3.

(** The rotation axes for one crystal direction [c_i] (the first half of
    the loop body): the unit bisectors of [s] and [c_i], with a column of
    the null space of [c_i] where the bisector vanishes. *)
Definition fiber_axes (c_i : vec3) (s : list vec3) : result (list vec3) :=
  let ztol := sqrt_epsf in
  let npts := length s in
  let ax := map (fun sj => cadd sj c_i) s in
  let anrm := columnNorm ax in
  let okay := map (fun a => Rgtb a ztol) anrm in
  let nokay := length (filter (fun b => b) okay) in
  if Nat.eqb nokay npts then
    Ok (map (fun va => vdiv (fst va) (snd va)) (combine ax anrm))
  else
    hperp <- match nullSpace c_i with
             | h :: _ => Ok h
             | [] => Raise IndexError
             end ;;
    if Nat.eqb nokay 0 then Ok (repeat hperp npts)
    else
      (* ax[:, okay] = ax[:, okay] / tile(anrm[okay], (3, 1)) *)
      let ax1 := map (fun vao : vec3 * R * bool =>
                        if snd vao
                        then vdiv (fst (fst vao)) (snd (fst vao))
                        else fst (fst vao))
                     (combine (combine ax anrm) okay) in
      (* ax[:, not okay] = tile(hperp, (1, npts - nokay)): the index takes
         the truth value of the whole array [okay] *)
      notokay <- py_not okay ;;
      (* not reached, as [okay] has two entries or more on this branch: a
         Python bool as index selects every column or none *)
      Ok (if notokay then repeat hperp npts else ax1).

Definition rows_as_columns (rows : list quat) : result (list quat) :=
  match rows with
  | [r0; r1; r2; r3] =>
      let M := transpose (Mat4 r0 r1 r2 r3) in
      Ok [row0 M; row1 M; row2 M; row3 M]
  | _ => Raise ValueError
  end.

(** [toFundamentalRegion(qfib.squeeze(), crysSym=csym, sampSym=ssym)]: the
    squeezed array is read as [toFundamentalRegion] reads an array of its
    rank.  A (k, 4) array is taken for a (4, n) batch if [k = 4], and
    cannot be multiplied by the symmetry matrices otherwise; a 1-d array
    has no [shape[1]]. *)
Definition reduce_fiber (f : fiber) (csym : symmetry) (ssym : option symmetry)
  : result fiber :=
  match f with
  | Fiber3 n blocks =>
      qr <- toFundamentalRegion (Q3 n blocks) csym ssym ;; Ok (fiber_of_qarray qr)
  | Fiber2 cols =>
      qr <- toFundamentalRegion (Q2 cols) csym ssym ;; Ok (fiber_of_qarray qr)
  | FiberRows rows =>
      gc <- symmetry_quats csym ;;
      qsym_c <- quatProductMatrix gc "right" ;;
      cols <- rows_as_columns rows ;;
      qr <- toFundamentalRegion (Q2 cols) csym ssym ;; Ok (fiber_of_qarray qr)
  | Fiber1 _ =>
      gc <- symmetry_quats csym ;;
      qsym_c <- quatProductMatrix gc "right" ;;
      Raise IndexError
  end.

(** The loop body of [discreteFiber] for one crystal direction. *)
Definition fiber_one (c_i : vec3) (s : list vec3) (ndiv : nat)
           (csym ssym : option symmetry) : result fiber :=
  let npts := length s in
  ax <- fiber_axes c_i s ;;
  let q0 := map (fun v => Quat 0 (v_0 v) (v_1 v) (v_2 v)) ax in
  step <- (if Nat.eqb ndiv 0 then Raise ZeroDivisionError
           else Ok (2 * np_pi / INR ndiv)) ;;
  let phi := map (fun k => INR k * step) (seq 0 ndiv) in
  qh <- quatOfAngleAxis (AngleList phi) (repeat c_i ndiv) ;;
  qmats <- quatProductMatrix qh "right" ;;
  (* block j of qfib holds, for every k, qmats[k] applied to q0[:, j] *)
  let qfib := map (fun q0j => map (fun M => dot M q0j) qmats) q0 in
  match csym with
  | Some csym => reduce_fiber (squeeze ndiv qfib) csym ssym
  | None =>
      match fixQuat (Q3 ndiv qfib) with
      | Q3 n blocks => Ok (squeeze n blocks)
      | Q2 cols => Ok (Fiber2 cols)
      end
  end.

(** [discreteFiber(c, s, B, ndiv, invert, csym, ssym)], with [c] and [s]
    already (3, n) arrays (the argument handling reshapes lists and 1-d
    arrays to that form).  [invert] is not read. *)
Definition discreteFiber (c s : list vec3) (B : mat3) (ndiv : nat)
           (invert : bool) (csym ssym : option symmetry)
  : result (list fiber) :=
  let c := unitVector (map (dot3 B) c) in
  let s := unitVector s in
  mapM (fun c_i => fiber_one c_i s ndiv csym ssym) c.

End DiscreteFiber.

(** The mask [okay] that [fiber_axes] computes. *)
Definition okay_mask (sqrt_epsf : R) (c_i : vec3) (s : list vec3) : list bool :=
  map (fun a => Rgtb a sqrt_epsf) (columnNorm (map (fun sj => cadd sj c_i) s)).

(** ** Rotation matrices from quaternions *)

Definition transpose3 (M : mat3) : mat3 :=
  Mat3 (Vec3 (v_0 (m_0 M)) (v_0 (m_1 M)) (v_0 (m_2 M)))
       (Vec3 (v_1 (m_0 M)) (v_1 (m_1 M)) (v_1 (m_2 M)))
       (Vec3 (v_2 (m_0 M)) (v_2 (m_1 M)) (v_2 (m_2 M))).

(** The matrix product [dot(A, B)] of two 3 x 3 matrices. *)
Definition mmul3 (A B : mat3) : mat3 :=
  let Bt := transpose3 B in
  Mat3 (Vec3 (vdot (m_0 A) (m_0 Bt)) (vdot (m_0 A) (m_1 Bt)) (vdot (m_0 A) (m_2 Bt)))
       (Vec3 (vdot (m_1 A) (m_0 Bt)) (vdot (m_1 A) (m_1 Bt)) (vdot (m_1 A) (m_2 Bt)))
       (Vec3 (vdot (m_2 A) (m_0 Bt)) (vdot (m_2 A) (m_1 Bt)) (vdot (m_2 A) (m_2 Bt))).

(** The determinant of a 3 x 3 matrix. *)
Definition det3 (M : mat3) : R :=
  v_0 (m_0 M) * (v_1 (m_1 M) * v_2 (m_2 M) - v_2 (m_1 M) * v_1 (m_2 M))
  - v_1 (m_0 M) * (v_0 (m_1 M) * v_2 (m_2 M) - v_2 (m_1 M) * v_0 (m_2 M))
  + v_2 (m_0 M) * (v_0 (m_1 M) * v_1 (m_2 M) - v_1 (m_1 M) * v_0 (m_2 M)).

(** One row of the (n, 9) array that [_rotmatofquat] stacks, as the 3 x 3
    matrix that [R.reshape(n, 3, 3)] makes of it. *)
Definition rotmat1 (q : quat) : mat3 :=
  let a := q_0 q in let b := q_1 q in let c := q_2 q in let d := q_3 q in
  Mat3 (Vec3 (a ^ 2 + b ^ 2 - c ^ 2 - d ^ 2)
             (2 * b * c - 2 * a * d)
             (2 * a * c + 2 * b * d))
       (Vec3 (2 * a * d + 2 * b * c)
             (a ^ 2 - b ^ 2 + c ^ 2 - d ^ 2)
             (2 * c * d - 2 * a * b))
       (Vec3 (2 * b * d - 2 * a * c)
             (2 * a * b + 2 * c * d)
             (a ^ 2 - b ^ 2 - c ^ 2 + d ^ 2)).

Definition _rotmatofquat (quat : list quat) : list mat3 := map rotmat1 quat.

(** The argument of [rotMatOfQuat]: a 1-d array, of any length, or a 2-d
    array with four rows. *)
Inductive quat_arg : Type :=
| QuatVector (xs : list R)
| QuatBatch (cols : list quat).

(** What [np.squeeze] makes of the (n, 3, 3) array: a single matrix for
    [n = 1], the array itself otherwise. *)
Inductive rmat_out : Type :=
| RMat (m : mat3)
| RMats (ms : list mat3).

Definition matrices (o : rmat_out) : list mat3 :=
  match o with
  | RMat m => [m]
  | RMats ms => ms
  end.

Definition rotMatOfQuat (quat : quat_arg) : result rmat_out :=
  cols <- match quat with
          | QuatVector [a; b; c; d] => Ok [Quat a b c d]
          | QuatVector _ => Raise RuntimeError
          | QuatBatch cols => Ok cols
          end ;;
  let rmat := _rotmatofquat cols in
  Ok (match rmat with
      | [m] => RMat m
      | _ => RMats rmat
      end).

(** ** Lattice types *)

(** [ltypeOfLaueGroup]. *)
Definition ltypeOfLaueGroup (tag : string) : result string :=
  let t := lower tag in
  if (String.eqb t "ci" || String.eqb t "s2")%bool then Ok "triclinic"%string
  else if String.eqb t "c2h" then Ok "monoclinic"%string
  else if (String.eqb t "d2h" || String.eqb t "vh")%bool then
    Ok "orthorhombic"%string
  else if (String.eqb t "c4h" || String.eqb t "d4h")%bool then
    Ok "tetragonal"%string
  else if (String.eqb t "c3i" || String.eqb t "s6" || String.eqb t "d3d")%bool
  then Ok "trigonal"%string
  else if (String.eqb t "c6h" || String.eqb t "d6h")%bool then
    Ok "hexagonal"%string
  else if (String.eqb t "th" || String.eqb t "oh")%bool then Ok "cubic"%string
  else Raise RuntimeError.

(** The tags of the docstring of [quatOfLaueGroup], in lower case. *)
Definition laue_tags : list string :=
  ["ci"; "s2"; "c2h"; "d2h"; "vh"; "c4h"; "d4h"; "c3i"; "s6"; "d3d";
   "c6h"; "d6h"; "th"; "oh"]%string.

(** ** Classes of misorientation *)



(** ** Checks on Euler-angle arguments *)

(** The module's list [axes_orders]. *)
Definition axes_orders : list string :=
  ["xyz"; "zyx"; "zxy"; "yxz"; "yzx"; "xzy";
   "xyx"; "xzx"; "yxy"; "yzy"; "zxz"; "zyz"]%string.

(** [_check_axes_order]; the argument is a string by its type. *)
Definition _check_axes_order (x : string) : result string :=
  let axo := lower x in
  if existsb (String.eqb axo) axes_orders then Ok axo
  else Raise RuntimeError.

(** [np.sum(abs(a))] over the nine entries of a 3 x 3 matrix. *)
Definition sum_abs3 (M : mat3) : R :=
  Rabs (v_0 (m_0 M)) + Rabs (v_1 (m_0 M)) + Rabs (v_2 (m_0 M))
  + Rabs (v_0 (m_1 M)) + Rabs (v_1 (m_1 M)) + Rabs (v_2 (m_1 M))
  + Rabs (v_0 (m_2 M)) + Rabs (v_1 (m_2 M)) + Rabs (v_2 (m_2 M)).

(** [A - B], entry by entry. *)
Definition msub3 (A B : mat3) : mat3 :=
  Mat3 (Vec3 (v_0 (m_0 A) - v_0 (m_0 B)) (v_1 (m_0 A) - v_1 (m_0 B))
             (v_2 (m_0 A) - v_2 (m_0 B)))
       (Vec3 (v_0 (m_1 A) - v_0 (m_1 B)) (v_1 (m_1 A) - v_1 (m_1 B))
             (v_2 (m_1 A) - v_2 (m_1 B)))
       (Vec3 (v_0 (m_2 A) - v_0 (m_2 B)) (v_1 (m_2 A) - v_1 (m_2 B))
             (v_2 (m_2 A) - v_2 (m_2 B))).

(** [_check_is_rmat], on an array that has the shape (3, 3) by its type;
    [sqrt_epsf] stands for [cnst.sqrt_epsf] of [hexrd.constants], which is
    not among the sources. *)
Definition _check_is_rmat (sqrt_epsf : R) (x : mat3) : result mat3 :=
  let chk1 := det3 x in
  let chk2 := sum_abs3 (msub3 I3 (mmul3 x (transpose3 x))) in
  if (Rltb (1 - Rabs chk1) sqrt_epsf && Rltb chk2 sqrt_epsf)%bool then Ok x
  else Raise RuntimeError.

(** A string of three letters. *)
Definition three_letters (a b c : ascii) : string :=
  String a (String b (String c EmptyString)).

(** ** mapAngle *)

(** Rounding toward zero. *)
Definition trunc (x : R) : Z :=
  if Rltb x 0 then (- Int_part (- x))%Z else Int_part x.

(** The cast [nInt] of a float to a 64-bit integer, which rounds toward
    zero; the cast of a number that does not fit in 64 bits is not
    defined. *)
Definition nInt (x : R) : option Z :=
  let n := trunc x in
  if ((- 2 ^ 63 <=? n) && (n <? 2 ^ 63))%Z then Some n else None.

(** [ang - nInt(np.nan_to_num(ang) / period) * period], entry by entry; no
    array where a cast is not defined. *)
Fixpoint reduce_angles (period : R) (ang : list R) : option (list R) :=
  match ang with
  | [] => Some []
  | x :: ang' =>
      match nInt (x / period), reduce_angles period ang' with
      | Some n, Some r => Some (x - IZR n * period :: r)
      | _, _ => None
      end
  end.

(** The loop of [mapAngle] over its keyword arguments, given in order as
    pairs of a name and a value; [units] is the value so far. *)
Fixpoint mapAngle_units (kwargs : list (string * string)) (units : string)
  : result string :=
  match kwargs with
  | [] => Ok units
  | (k, v) :: rest =>
      if String.eqb k "units" then mapAngle_units rest v
      else Raise RuntimeError
  end.

(** The period that [mapAngle] works with: the module's default units are
    ['radians']. *)
Definition mapAngle_period (kwargs : list (string * string)) : result R :=
  units <- mapAngle_units kwargs "radians" ;;
  if String.eqb (lower units) "degrees" then Ok 360
  else if negb (String.eqb (lower units) "radians") then Raise RuntimeError
       else Ok (2 * PI).

(** [while lbi.sum() > 0: ang[lbi] = ang[lbi] + period; lbi = ang < lb], run
    on [fuel] rounds; [None] when the fuel runs out. *)
Fixpoint raise_to (fuel : nat) (lb period : R) (ang : list R)
  : option (list R) :=
  if existsb (fun x => Rltb x lb) ang then
    match fuel with
    | O => None
    | S fuel' =>
        raise_to fuel' lb period
                 (map (fun x => if Rltb x lb then x + period else x) ang)
    end
  else Some ang.

(** [while ubi.sum() > 0: ang[ubi] = ang[ubi] - period; ubi = ang > ub]. *)
Fixpoint lower_to (fuel : nat) (ub period : R) (ang : list R)
  : option (list R) :=
  if existsb (fun x => Rgtb x ub) ang then
    match fuel with
    | O => None
    | S fuel' =>
        lower_to fuel' ub period
                 (map (fun x => if Rgtb x ub then x - period else x) ang)
    end
  else Some ang.

(** numpy's [min] of a 1-d array; an empty array is refused. *)
Definition np_min (l : list R) : result R :=
  match l with
  | [] => Raise ValueError
  | x :: l' => Ok (fold_left Rmin l' x)
  end.

(** [mapAngle(ang, *args, **kwargs)]: [args] holds the optional positional
    arguments, of which the first is the angular range.  The two loops run
    on [fuel].  The result is [None] when the fuel runs out, and when the
    loops are reached with an angle whose cast to a 64-bit integer is not
    defined: what the code then does, with an integer that is left open and
    with floats so large that adding a period does not change them, is not
    modelled. *)
Definition mapAngle (fuel : nat) (ang : list R) (args : list (list R))
           (kwargs : list (string * string)) : option (result (list R)) :=
  match mapAngle_period kwargs with
  | Raise e => Some (Raise e)
  | Ok period =>
      match args with
      | angRange :: _ =>
          let ang := reduce_angles period ang in
          match np_min angRange, np_max angRange with
          | Raise e, _ => Some (Raise e)
          | Ok _, Raise e => Some (Raise e)
          | Ok lb, Ok ub =>
              if negb (Reqb (Rabs (ub - lb)) period)
              then Some (Raise RuntimeError)
              else
                match ang with
                | None => None
                | Some ang =>
                    match raise_to fuel lb period ang with
                    | None => None
                    | Some ang =>
                        match lower_to fuel ub period ang with
                        | None => None
                        | Some ang => Some (Ok ang)
                        end
                    end
                end
          end
      | [] =>
          Some (Ok (map (fun x => np_mod (x + 5 / 10 * period) period
                                  - 5 / 10 * period) ang))
      end
  end.

(** ** The class RotMatEuler *)

(** The attributes of a [RotMatEuler] object that its constructor and the
    setters of [angles], [axes_order], [extrinsic] and [units] read and
    write. *)
Record RotMatEuler : Type :=
  MkRotMatEuler { _angles : list R; _axes_order : string; _extrinsic : bool; _units : string }.

(** A call of a method on an object: the object after the call, with what
    the call returns or raises.  An exception keeps the assignments made
    before it. *)
Definition method (A : Type) : Type := RotMatEuler -> RotMatEuler * result A.

(** [RotMatEuler.__init__]: no object is made when it raises.  The angles
    are a 1-d array, [axes_order] and [units] strings and [extrinsic] a bool
    by their types. *)
Definition RotMatEuler__init__ (angles : list R) (axes_order : string)
           (extrinsic : bool) (units : string) : result RotMatEuler :=
  axo <- _check_axes_order axes_order ;;
  if negb (existsb (String.eqb (lower units)) (map fst periodDict))
  then Raise RuntimeError
  else Ok (MkRotMatEuler angles axo extrinsic units).

(** The setter of [angles]. *)
Definition angles_setter (x : list R) : method unit := fun self =>
  if Nat.eqb (length x) 3
  then (MkRotMatEuler x (_axes_order self) (_extrinsic self) (_units self), Ok tt)
  else (self, Raise RuntimeError).

(** The setter of [axes_order]. *)
Definition axes_order_setter (x : string) : method unit := fun self =>
  match _check_axes_order x with
  | Ok axo =>
      (MkRotMatEuler (_angles self) axo (_extrinsic self) (_units self), Ok tt)
  | Raise e => (self, Raise e)
  end.

(** The setter of [extrinsic]; the argument is a bool by its type. *)
Definition extrinsic_setter (x : bool) : method unit := fun self =>
  (MkRotMatEuler (_angles self) (_axes_order self) x (_units self), Ok tt).

Section Conversion.

(** The constants [r2d] and [d2r] of [hexrd.constants]. *)
Variables r2d d2r : R.

Definition conversion_to_dict : list (string * R) :=
  [("degrees"%string, r2d); ("radians"%string, d2r)].

(** The setter of [units]; the argument is a string by its type.  A change
    of units goes through the setter of [angles]. *)
Definition units_setter (x : string) : method unit := fun self =>
  if existsb (String.eqb x) (map fst periodDict) then
    let '(self, r) :=
      if negb (String.eqb (_units self) x) then
        match dict_get conversion_to_dict x with
        | Ok c => angles_setter (map (Rmult c) (_angles self)) self
        | Raise e => (self, Raise e)
        end
      else (self, Ok tt) in
    match r with
    | Ok _ =>
        (MkRotMatEuler (_angles self) (_axes_order self) (_extrinsic self) x,
         Ok tt)
    | Raise e => (self, Raise e)
    end
  else (self, Raise RuntimeError).

End Conversion.

(** What the constructor and the setters keep of an object with three
    angles: three angles, one of the twelve axes orders, and units that are
    recognised up to letter case. *)
Definition valid (self : RotMatEuler) : Prop :=
  length (_angles self) = 3%nat /\
  In (_axes_order self) axes_orders /\
  In (lower (_units self)) (map fst periodDict).

(** ** Quaternion products and exponential maps through scipy *)

(** More of scipy's [Rotation], after its documentation.  [from_quat] takes
    the rows [(x, y, z, w)] of an (N, 4) array, normalises each of them and
    refuses a row of norm zero with [ValueError].  [p * q] composes two
    rotations: its quaternion is the product of the quaternion of [p] by
    that of [q]; a single rotation is combined with every rotation of the
    other side, and two batches must have one length.  (scipy normalises the
    product once more, which changes nothing on unit quaternions in exact
    arithmetic.) *)
Module ScipyRotation.

Definition from_quat1 (row : R * R * R * R) : result Scipy.Rotation :=
  let '(x, y, z, w) := row in
  let n := sqrt (x * x + y * y + z * z + w * w) in
  if Reqb n 0 then Raise ValueError
  else Ok (Scipy.Rot (x / n) (y / n) (z / n) (w / n)).

Definition from_quat (rows : list (R * R * R * R))
  : result (list Scipy.Rotation) :=
  mapM from_quat1 rows.

Definition compose (p q : Scipy.Rotation) : Scipy.Rotation :=
  let px := Scipy.rx p in let py := Scipy.ry p in
  let pz := Scipy.rz p in let pw := Scipy.rw p in
  let qx := Scipy.rx q in let qy := Scipy.ry q in
  let qz := Scipy.rz q in let qw := Scipy.rw q in
  Scipy.Rot (pw * qx + qw * px + (py * qz - pz * qy))
            (pw * qy + qw * py + (pz * qx - px * qz))
            (pw * qz + qw * pz + (px * qy - py * qx))
            (pw * qw - px * qx - py * qy - pz * qz).

Definition mul (p q : list Scipy.Rotation) : result (list Scipy.Rotation) :=
  if Nat.eqb (length p) (length q)
  then Ok (map (fun pq => compose (fst pq) (snd pq)) (combine p q))
  else if Nat.eqb (length p) 1
       then Ok (map (compose (hd (Scipy.Rot 0 0 0 1) p)) q)
       else if Nat.eqb (length q) 1
            then Ok (map (fun x => compose x (hd (Scipy.Rot 0 0 0 1) q)) p)
            else Raise ValueError.

End ScipyRotation.

(** [_quat_to_scipy_rotation]: [np.roll(q.T, -1, axis=1)] brings the scalar
    last in every row.  A 1-d array has no axis 1: numpy raises [AxisError],
    which is a [ValueError]. *)
Definition _quat_to_scipy_rotation (q : quat_arg)
  : result (list Scipy.Rotation) :=
  match q with
  | QuatVector _ => Raise ValueError
  | QuatBatch cols =>
      ScipyRotation.from_quat
        (map (fun c => (q_1 c, q_2 c, q_3 c, q_0 c)) cols)
  end.

(** [quatProduct(q1, q2)]. *)
Definition quatProduct (q1 q2 : quat_arg) : result (list quat) :=
  rot_1 <- _quat_to_scipy_rotation q1 ;;
  rot_2 <- _quat_to_scipy_rotation q2 ;;
  rot_p <- ScipyRotation.mul rot_2 rot_1 ;;
  Ok (_scipy_rotation_to_quat rot_p).

(** The argument of [quatOfExpMap] in the two shapes of its docstring: a
    (3,) array, or a (3, n) array by its columns. *)
Inductive expmap_arg : Type :=
| ExpVector (v : vec3)
| ExpBatch (cols : list vec3).

(** [a.squeeze()] of a (4, n) array: a 1-d array of four numbers for
    [n = 1], the array itself otherwise. *)
Definition squeeze_quats (a : list quat) : quat_arg :=
  match a with
  | [q] => QuatVector [q_0 q; q_1 q; q_2 q; q_3 q]
  | _ => QuatBatch a
  end.

(** [quatOfExpMap]; the two assertions on the shape hold by the type of the
    argument. *)
Definition quatOfExpMap (expMaps : expmap_arg) : result quat_arg :=
  let expMaps := match expMaps with
                 | ExpVector v => [v]
                 | ExpBatch cols => cols
                 end in
  rot <- from_rotvec_rows expMaps ;;
  Ok (squeeze_quats (_scipy_rotation_to_quat rot)).

(** ** quatAverage *)

(** [q[1:]] of one column. *)
Definition vector_part (q : quat) : vec3 := Vec3 (q_1 q) (q_2 q) (q_3 q).

(** [q_in[:, i]]. *)
Definition column_at (q_in : list quat) (i : nat) : result quat :=
  match nth_error q_in i with
  | Some c => Ok c
  | None => Raise IndexError
  end.

(** [hstack([cos(0.5 * phi), sin(0.5 * phi) * n])]. *)
Definition quat_of_phi_n (phi : R) (n : vec3) : quat :=
  Quat (cos (5 / 10 * phi)) (sin (5 / 10 * phi) * v_0 n)
       (sin (5 / 10 * phi) * v_1 n) (sin (5 / 10 * phi) * v_2 n).

Section QuatAverage.

(** [finfo(float).eps]. *)
Variable epsf : R.

(** [leastsq] of [scipy.optimize], an external solver, as far as it is used
    here: from the residual function and the starting point to the first
    entry of its result, the solution. *)
Variable leastsq : (vec3 -> result (list R)) -> vec3 -> result vec3.

(** [quatAverage_obj]; [xi_in] is an array of three numbers. *)
Definition quatAverage_obj (xi_in : vec3) (quats qsym : list quat)
  : result (list R) :=
  let phi := sqrt (sumsq xi_in) in
  let q0 := if Rleb phi epsf then Quat 1 0 0 0
            else quat_of_phi_n phi (vdiv xi_in phi) in
  resd <- misorientation [q0] quats [[qsym]] ;;
  Ok (fst resd).

(** [quatAverage(q_in, qsym)] for a (4, n) array [q_in] and a (4, m) array
    [qsym]. *)
Definition quatAverage (q_in qsym : list quat) : result (list quat) :=
  let q_in := unitVector q_in in
  if Nat.ltb (length q_in) 3 then
    if Nat.eqb (length q_in) 1 then Ok q_in
    else
      c0 <- column_at q_in 0 ;;
      c1 <- column_at q_in 1 ;;
      mm <- misorientation [c0] [c1] [[qsym]] ;;
      let ma := fst mm in
      let mq := snd mm in
      (* mq[1:].reshape(3, 1) *)
      v <- match map vector_part mq with
           | [v] => Ok v
           | _ => Raise ValueError
           end ;;
      let n := hd (Vec3 0 0 0) (unitVector [v]) in
      (* 0.5 * ma * n, of shape (3, len(ma)) *)
      let expMaps := map (fun a => scale (5 / 10 * a) n) ma in
      q2 <- quatOfExpMap (ExpBatch expMaps) ;;
      quatProduct (QuatBatch [c0]) q2
  else
    let c0 := hd (Quat 0 0 0 0) q_in in
    let phi := 2 * acos (q_0 c0) in
    let x0 := if Rleb phi epsf then Vec3 0 0 0
              else scale phi (hd (Vec3 0 0 0) (unitVector [vector_part c0])) in
    x <- leastsq (fun xi => quatAverage_obj xi q_in qsym) x0 ;;
    let phi := sqrt (sumsq x) in
    if Rleb phi epsf then Ok [Quat 1 0 0 0]
    else Ok [quat_of_phi_n phi (vdiv x phi)].

End QuatAverage.

(** * Lemmas and theorems *)

Lemma quat_eq (a b c d a' b' c' d' : R) :
  a = a' -> b = b' -> c = c' -> d = d' -> Quat a b c d = Quat a' b' c' d'.
Proof. intros; subst; reflexivity. Qed.

Lemma quat_neq_3 (p q : quat) : q_3 p <> q_3 q -> p <> q.
Proof. intros H E; apply H; rewrite E; reflexivity. Qed.

Lemma quat_neq_0 (p q : quat) : q_0 p <> q_0 q -> p <> q.
Proof. intros H E; apply H; rewrite E; reflexivity. Qed.

Lemma dot_right_matrix (q h : quat) : dot (right_matrix q) h = hamilton h q.
Proof. destruct q, h. unfold dot, rdot, hamilton; cbn. apply quat_eq; ring. Qed.

Lemma dot_left_matrix (q h : quat) : dot (left_matrix q) h = hamilton q h.
Proof. destruct q, h. unfold dot, rdot, hamilton; cbn. apply quat_eq; ring. Qed.

(** ** C3 *)

(** C3, as the claim states it, fails: for the unit quaternions
    [q = (3/5, 4/5, 0, 0)] and [h = (3/5, 0, 4/5, 0)] the right product
    matrix of [q] applied to [h] is neither the Hamilton product [q * h] nor
    its negative. *)
Lemma quatProductMatrix_right_not_q_times_h :
  unit_quat q_c3 /\ unit_quat h_c3 /\
  exists M, quatProductMatrix [q_c3] "right" = Ok [M] /\
            dot M h_c3 <> hamilton q_c3 h_c3 /\
            dot M h_c3 <> scale (-1) (hamilton q_c3 h_c3).
Proof.
  split; [unfold unit_quat; cbn; lra|].
  split; [unfold unit_quat; cbn; lra|].
  eexists; split; [reflexivity|].
  split; [apply quat_neq_3 | apply quat_neq_0];
    unfold dot, rdot, hamilton, h_c3, q_c3; cbn; lra.
Qed.

(** C3 (amended): for all quaternions [q] and [h], the right product matrix
    of [q] applied to [h] equals the left product matrix of [h] applied to
    [q], and both are the Hamilton product [h * q], as the docstring of
    [quatProductMatrix] has it. *)
Theorem quatProductMatrix_right_left (q h : quat) :
  exists Mr Ml,
    quatProductMatrix [q] "right" = Ok [Mr] /\
    quatProductMatrix [h] "left" = Ok [Ml] /\
    dot_stack [Mr] h = dot_stack [Ml] q /\
    dot Mr h = hamilton h q /\
    dot Ml q = hamilton h q.
Proof.
  exists (right_matrix q), (left_matrix h).
  split; [reflexivity|]. split; [reflexivity|].
  unfold dot_stack; cbn [map].
  rewrite dot_right_matrix, dot_left_matrix. repeat split.
Qed.

(** ** Facts on columns *)

Lemma sumsq_quat_nonneg (c : quat) : 0 <= sumsq c.
Proof. destruct c; cbn; nra. Qed.

Lemma sumsq_quat_zero (c : quat) : sumsq c = 0 -> c = Quat 0 0 0 0.
Proof.
  destruct c as [a b c d]; cbn; intros H.
  assert (a = 0) by nra. assert (b = 0) by nra.
  assert (c = 0) by nra. assert (d = 0) by nra.
  subst; reflexivity.
Qed.

Lemma sumsq_scale_quat (a : R) (c : quat) : sumsq (scale a c) = a * a * sumsq c.
Proof. destruct c; cbn; ring. Qed.

Lemma scale_1_quat (c : quat) : scale 1 c = c.
Proof. destruct c; cbn; apply quat_eq; ring. Qed.

Lemma scale_zero_quat (a : R) : scale a (Quat 0 0 0 0) = Quat 0 0 0 0.
Proof. cbn; apply quat_eq; ring. Qed.

Lemma unitVector_map (q : list quat) : unitVector q = map normalize q.
Proof. reflexivity. Qed.

Lemma sumsq_normalize (c : quat) : sumsq c <> 0 -> sumsq (normalize c) = 1.
Proof.
  intros Hc. unfold normalize, norm. rewrite sumsq_scale_quat.
  pose proof (sumsq_quat_nonneg c) as Hn.
  assert (Hs : 0 < sqrt (sumsq c)) by (apply sqrt_lt_R0; lra).
  rewrite <- Rinv_mult.
  rewrite sqrt_sqrt by exact Hn.
  apply Rinv_l; exact Hc.
Qed.

Lemma normalize_unit (c : quat) : sumsq c = 1 -> normalize c = c.
Proof.
  intros Hc. unfold normalize, norm. rewrite Hc, sqrt_1, Rinv_1.
  apply scale_1_quat.
Qed.

Lemma normalize_zero : normalize (Quat 0 0 0 0) = Quat 0 0 0 0.
Proof. unfold normalize. apply scale_zero_quat. Qed.

Lemma sumsq_flip (c : quat) : sumsq (flip_negative c) = sumsq c.
Proof.
  unfold flip_negative. destruct (Rltb (q_0 c) 0); [|reflexivity].
  rewrite sumsq_scale_quat. ring.
Qed.

Lemma flip_nonneg (c : quat) : 0 <= q_0 (flip_negative c).
Proof.
  unfold flip_negative, Rltb.
  destruct (Rlt_dec (q_0 c) 0) as [Hlt|Hge].
  - destruct c; cbn in *; lra.
  - lra.
Qed.

Lemma flip_of_nonneg (c : quat) : 0 <= q_0 c -> flip_negative c = c.
Proof.
  intros H. unfold flip_negative, Rltb.
  destruct (Rlt_dec (q_0 c) 0); [lra | reflexivity].
Qed.

Lemma fixQuat_flat_map (q : list quat) : fixQuat_flat q = map fix1 q.
Proof. unfold fixQuat_flat. rewrite unitVector_map, map_map. reflexivity. Qed.

Lemma fix1_nonneg (c : quat) : 0 <= q_0 (fix1 c).
Proof. apply flip_nonneg. Qed.

Lemma fix1_sumsq (c : quat) : sumsq c <> 0 -> sumsq (fix1 c) = 1.
Proof. intros H. unfold fix1. rewrite sumsq_flip. apply sumsq_normalize, H. Qed.

Lemma fix1_idem (c : quat) : fix1 (fix1 c) = fix1 c.
Proof.
  destruct (Req_dec_T (sumsq c) 0) as [Hz|Hnz].
  - apply sumsq_quat_zero in Hz. subst c.
    unfold fix1. rewrite normalize_zero.
    rewrite (flip_of_nonneg (Quat 0 0 0 0)) by (cbn; lra).
    rewrite normalize_zero. apply flip_of_nonneg. cbn; lra.
  - unfold fix1 at 1.
    rewrite normalize_unit by (apply fix1_sumsq, Hnz).
    apply flip_of_nonneg, fix1_nonneg.
Qed.

(** The sum of squares of a fixed column is 1, or 0 for a zero column: its
    scalar part never exceeds 1. *)
Lemma fix1_scalar_le_1 (c : quat) : q_0 (fix1 c) <= 1.
Proof.
  destruct (Req_dec_T (sumsq c) 0) as [Hz|Hnz].
  - apply sumsq_quat_zero in Hz. subst c. unfold fix1.
    rewrite normalize_zero, flip_of_nonneg; cbn; lra.
  - pose proof (fix1_sumsq c Hnz) as H1.
    destruct (fix1 c) as [a b c' d]; cbn in *. nra.
Qed.

(** ** C4 *)

(** C4: for every (4, n) batch [q] of nonzero quaternions, every column of
    [fixQuat q] has unit norm and a nonnegative scalar component, and
    [fixQuat (fixQuat q) = fixQuat q]. *)
Theorem fixQuat_unit_nonneg_idempotent (q : list quat) :
  Forall (fun c => c <> Quat 0 0 0 0) q ->
  exists qf,
    fixQuat (Q2 q) = Q2 qf /\
    length qf = length q /\
    Forall (fun c => norm c = 1 /\ 0 <= q_0 c) qf /\
    fixQuat (fixQuat (Q2 q)) = fixQuat (Q2 q).
Proof.
  intros Hnz. exists (fixQuat_flat q).
  split; [reflexivity|].
  rewrite fixQuat_flat_map.
  split; [apply length_map|].
  split.
  - apply Forall_map. eapply Forall_impl; [|exact Hnz].
    intros c Hc. cbn beta. split; [|apply fix1_nonneg].
    unfold norm. rewrite fix1_sumsq; [apply sqrt_1|].
    intros Hz. apply Hc, sumsq_quat_zero, Hz.
  - cbn [fixQuat]. f_equal. rewrite !fixQuat_flat_map, map_map.
    apply map_ext. intros c. apply fix1_idem.
Qed.

Lemma fixQuat_unit_nonneg_idempotent_witness :
  Forall (fun c => c <> Quat 0 0 0 0) [Quat (-2) 0 0 0; Quat 0 3 4 0] /\
  exists qf,
    fixQuat (Q2 [Quat (-2) 0 0 0; Quat 0 3 4 0]) = Q2 qf /\
    length qf = 2%nat /\
    Forall (fun c => norm c = 1 /\ 0 <= q_0 c) qf /\
    fixQuat (fixQuat (Q2 [Quat (-2) 0 0 0; Quat 0 3 4 0]))
    = fixQuat (Q2 [Quat (-2) 0 0 0; Quat 0 3 4 0]).
Proof.
  assert (H : Forall (fun c => c <> Quat 0 0 0 0)
                     [Quat (-2) 0 0 0; Quat 0 3 4 0])
    by (repeat constructor; intros E; inversion E; lra).
  split; [exact H|].
  exact (fixQuat_unit_nonneg_idempotent [Quat (-2) 0 0 0; Quat 0 3 4 0] H).
Defined.

Lemma Rltb_true (x y : R) : Rltb x y = true <-> x < y.
Proof. unfold Rltb. destruct (Rlt_dec x y); split; intros; try lra; discriminate. Qed.

Lemma Rltb_false (x y : R) : Rltb x y = false <-> y <= x.
Proof. unfold Rltb. destruct (Rlt_dec x y); split; intros; try lra; try discriminate; reflexivity. Qed.

Lemma Rleb_true (x y : R) : Rleb x y = true <-> x <= y.
Proof. unfold Rleb. destruct (Rle_dec x y); split; intros; try lra; discriminate. Qed.

Lemma Rleb_false (x y : R) : Rleb x y = false <-> y < x.
Proof. unfold Rleb. destruct (Rle_dec x y); split; intros; try lra; try discriminate; reflexivity. Qed.

Lemma acos_m1 : acos (-1) = PI.
Proof.
  replace (-1) with (- (1)) by lra.
  rewrite acos_opp, acos_1. ring.
Qed.

Lemma clamp_unit_cases (x : R) :
  (1 <= x -> clamp_unit x = 1) /\
  (x <= -1 -> clamp_unit x = -1) /\
  (-1 < x < 1 -> clamp_unit x = x).
Proof.
  unfold clamp_unit, Rgeb, Rleb.
  destruct (Rle_dec 1 x), (Rle_dec x (-1)); repeat split; intros; try lra; reflexivity.
Qed.

Lemma arccos_entry_clamp (x : R) : arccos_entry x (acos (clamp_unit x)).
Proof.
  destruct (clamp_unit_cases x) as (H1 & H2 & H3).
  repeat split; intros H.
  - rewrite (H1 H). apply acos_1.
  - rewrite (H2 H). apply acos_m1.
  - rewrite (H3 H). reflexivity.
Qed.

Lemma existsb_slack_true (temp : list R) :
  existsb (fun x => Rgtb (Rabs x) arccos_slack) temp = true <->
  Exists (fun x => Rabs x > arccos_slack) temp.
Proof.
  rewrite existsb_exists, Exists_exists.
  split; intros (x & Hin & Hx); exists x; (split; [exact Hin|]).
  - apply Rltb_true in Hx. lra.
  - apply Rltb_true. lra.
Qed.

(** ** C6 *)

(** C6: if any entry exceeds 1.00001 in magnitude [arccosSafe] raises and
    returns nothing; otherwise it returns, entry by entry, the arccos of the
    entry clamped to [-1, 1], so that an entry of magnitude above 1 and at
    most 1.00001 gives arccos 1 = 0 or arccos (-1) = PI. *)
Theorem arccosSafe_clamps_or_raises (temp : list R) :
  (Exists (fun x => Rabs x > arccos_slack) temp ->
   arccosSafe temp = Raise RuntimeError) /\
  (Forall (fun x => Rabs x <= arccos_slack) temp ->
   exists ang, arccosSafe temp = Ok ang /\ Forall2 arccos_entry temp ang).
Proof.
  unfold arccosSafe. split.
  - intros H. apply existsb_slack_true in H. rewrite H. reflexivity.
  - intros H.
    destruct (existsb _ temp) eqn:E.
    + apply existsb_slack_true, Exists_exists in E. destruct E as (x & Hin & Hx).
      rewrite Forall_forall in H. specialize (H x Hin). lra.
    + eexists. split; [reflexivity|].
      rewrite map_map. clear. induction temp as [|x temp IH]; cbn [map].
      * constructor.
      * constructor; [apply arccos_entry_clamp | exact IH].
Qed.

Lemma arccosSafe_clamps_or_raises_witness :
  (Exists (fun x => Rabs x > arccos_slack) [1 / 2; 1002 / 1000] /\
   arccosSafe [1 / 2; 1002 / 1000] = Raise RuntimeError) /\
  (Forall (fun x => Rabs x <= arccos_slack) [1000001 / 1000000; -1] /\
   exists ang, arccosSafe [1000001 / 1000000; -1] = Ok ang /\
               Forall2 arccos_entry [1000001 / 1000000; -1] ang).
Proof.
  assert (He : Exists (fun x => Rabs x > arccos_slack) [1 / 2; 1002 / 1000]).
  { apply Exists_cons_tl, Exists_cons_hd.
    unfold arccos_slack. rewrite Rabs_pos_eq; lra. }
  assert (Hf : Forall (fun x => Rabs x <= arccos_slack)
                      [1000001 / 1000000; -1]).
  { unfold arccos_slack. repeat constructor.
    - rewrite Rabs_pos_eq; lra.
    - rewrite Rabs_left; lra. }
  split; (split; [assumption|]).
  - exact (proj1 (arccosSafe_clamps_or_raises [1 / 2; 1002 / 1000]) He).
  - exact (proj2 (arccosSafe_clamps_or_raises [1000001 / 1000000; -1]) Hf).
Defined.

(** ** Facts on the angle utilities *)

Lemma np_mod_eq (x p : R) (z : Z) :
  0 < p -> IZR z * p <= x < (IZR z + 1) * p -> np_mod x p = x - IZR z * p.
Proof.
  intros Hp [Hlo Hhi]. unfold np_mod.
  rewrite <- (Int_part_spec (x / p) z); [reflexivity|].
  assert (Hx : x / p * p = x) by (field; lra).
  pose proof (Rinv_0_lt_compat p Hp) as Hi. unfold Rdiv.
  split.
  - assert (x * / p < IZR z + 1); [|lra].
    apply Rmult_lt_reg_r with p; [exact Hp|].
    unfold Rdiv in Hx. rewrite Hx. exact Hhi.
  - apply Rmult_le_reg_r with p; [exact Hp|].
    unfold Rdiv in Hx. rewrite Hx. exact Hlo.
Qed.

Lemma periodDict_recognized (units : string) (period : R) :
  dict_get periodDict units = Ok period ->
  (units = "degrees"%string /\ period = 360) \/
  (units = "radians"%string /\ period = 2 * PI).
Proof.
  cbn. destruct (String.eqb units "degrees") eqn:Ed.
  - intros H; inversion H. left. split; [apply String.eqb_eq, Ed | reflexivity].
  - destruct (String.eqb units "radians") eqn:Er.
    + intros H; inversion H. right. split; [apply String.eqb_eq, Er | reflexivity].
    + discriminate.
Qed.

Lemma period_pos (units : string) (period : R) :
  dict_get periodDict units = Ok period -> 0 < period.
Proof.
  intros H. destruct (periodDict_recognized _ _ H) as [[_ ->]|[_ ->]].
  - lra.
  - pose proof PI_RGT_0. lra.
Qed.

Lemma combine_sym_map (f : R -> R -> R) (a b : list R) :
  (forall x y, f x y = f y x) ->
  map (fun xy => f (fst xy) (snd xy)) (combine a b)
  = map (fun xy => f (fst xy) (snd xy)) (combine b a).
Proof.
  intros Hf. revert b. induction a as [|x a IH]; intros [|y b]; cbn; try reflexivity.
  rewrite Hf, IH. reflexivity.
Qed.

Lemma broadcast2_sym (f : R -> R -> R) (a b : list R) :
  (forall x y, f x y = f y x) -> broadcast2 f a b = broadcast2 f b a.
Proof.
  intros Hf. unfold broadcast2.
  rewrite (Nat.eqb_sym (length b) (length a)).
  destruct (Nat.eqb (length a) (length b)) eqn:Eab.
  - f_equal. apply combine_sym_map, Hf.
  - destruct (Nat.eqb (length a) 1) eqn:Ea, (Nat.eqb (length b) 1) eqn:Eb.
    + apply Nat.eqb_eq in Ea, Eb. apply Nat.eqb_neq in Eab. lia.
    + f_equal. apply map_ext. intros; apply Hf.
    + f_equal. apply map_ext. intros; apply Hf.
    + reflexivity.
Qed.

Lemma broadcast2_diag (f : R -> R -> R) (a : list R) :
  broadcast2 f a a = Ok (map (fun x => f x x) a).
Proof.
  unfold broadcast2. rewrite Nat.eqb_refl. f_equal.
  induction a as [|x a IH]; cbn; [reflexivity | rewrite IH; reflexivity].
Qed.

Lemma broadcast2_same_length (f : R -> R -> R) (a b : list R) :
  length a = length b -> exists r, broadcast2 f a b = Ok r.
Proof.
  intros H. unfold broadcast2. rewrite H, Nat.eqb_refl. eexists; reflexivity.
Qed.

Lemma Rmin_half (d p : R) : Rmin d (p - d) <= p / 2.
Proof.
  destruct (Rle_dec d (p / 2)).
  - pose proof (Rmin_l d (p - d)). lra.
  - pose proof (Rmin_r d (p - d)). lra.
Qed.

(** ** C9 *)

(** C9: for recognised units (a key of [periodDict]), the angular difference
    of equal angles is 0, the angular difference is symmetric in its two
    angle arguments, it is returned for arrays of one length, and every
    entry returned is at most half the period: PI for radians, 180 for
    degrees. *)
Theorem angularDifference_zero_symmetric_bounded
  (units : string) (period : R) (a b : list R) :
  dict_get periodDict units = Ok period ->
  angularDifference a a units = Ok (map (fun _ => 0) a) /\
  angularDifference a b units = angularDifference b a units /\
  (length a = length b -> exists r, angularDifference a b units = Ok r) /\
  (forall r, angularDifference a b units = Ok r ->
             Forall (fun x => x <= period / 2) r) /\
  (units = "radians"%string -> period / 2 = PI) /\
  (units = "degrees"%string -> period / 2 = 180).
Proof.
  intros Hu. pose proof (period_pos _ _ Hu) as Hp.
  unfold angularDifference, angularDifference_opt. rewrite Hu. cbn [bind].
  repeat split.
  - rewrite broadcast2_diag. cbn [bind]. rewrite map_map. f_equal.
    apply map_ext. intros x.
    replace (x - x) with 0 by ring. rewrite Rabs_R0.
    rewrite Rmin_left; lra.
  - rewrite (broadcast2_sym _ b a); [reflexivity|].
    intros x y. apply Rabs_minus_sym.
  - intros Hl.
    destruct (broadcast2_same_length (fun x1 x0 => Rabs (x1 - x0)) b a
                (eq_sym Hl)) as [d Hd].
    rewrite Hd. eexists; reflexivity.
  - intros r. destruct (broadcast2 _ b a) as [d|e]; cbn [bind]; [|discriminate].
    intros H; inversion H; subst r. apply Forall_map, Forall_forall.
    intros x _. apply Rmin_half.
  - intros ->. destruct (periodDict_recognized _ _ Hu) as [[E _]|[_ ->]].
    + discriminate.
    + field.
  - intros ->. destruct (periodDict_recognized _ _ Hu) as [[_ ->]|[E _]].
    + field.
    + discriminate.
Qed.

Lemma angularDifference_zero_symmetric_bounded_witness :
  dict_get periodDict "degrees" = Ok 360 /\
  angularDifference [350; 10] [350; 10] "degrees" = Ok [0; 0] /\
  angularDifference [350; 10] [10; 200] "degrees"
  = angularDifference [10; 200] [350; 10] "degrees" /\
  (forall r, angularDifference [350; 10] [10; 200] "degrees" = Ok r ->
             Forall (fun x => x <= 360 / 2) r).
Proof.
  destruct (angularDifference_zero_symmetric_bounded
              "degrees" 360 [350; 10] [10; 200] eq_refl)
    as (H0 & Hs & _ & Hb & _).
  split; [reflexivity|]. split; [exact H0|]. split; [exact Hs | exact Hb].
Defined.

(** ** C10 *)

(** Within one period the two versions agree, entry by entry. *)
Lemma angularDifference_agree_within_period (p x0 x1 : R) :
  0 < p -> Rabs (x1 - x0) <= p ->
  Rabs (np_mod ((x0 - x1) + (5 / 10) * p) p - (5 / 10) * p)
  = Rmin (Rabs (x1 - x0)) (p - Rabs (x1 - x0)).
Proof.
  intros Hp Hd.
  set (d := x0 - x1).
  assert (Ha : Rabs (x1 - x0) = Rabs d) by (unfold d; apply Rabs_minus_sym).
  rewrite Ha in *.
  assert (Hd' : - p <= d <= p).
  { unfold Rabs in Hd. destruct (Rcase_abs d); lra. }
  destruct (Rlt_dec d (- (p / 2))) as [H1|H1].
  - rewrite (np_mod_eq _ p (-1)); [|exact Hp|lra].
    rewrite (Rabs_left d) by lra.
    rewrite Rabs_pos_eq by lra.
    rewrite Rmin_right; lra.
  - destruct (Rlt_dec d (p / 2)) as [H2|H2].
    + rewrite (np_mod_eq _ p 0); [|exact Hp|lra].
      replace (d + 5 / 10 * p - 0 * p - 5 / 10 * p) with d by lra.
      rewrite Rmin_left; [reflexivity|].
      destruct (Rle_dec 0 d).
      * rewrite Rabs_pos_eq; lra.
      * rewrite Rabs_left; lra.
    + rewrite (np_mod_eq _ p 1); [|exact Hp|lra].
      rewrite (Rabs_pos_eq d) by lra.
      rewrite Rabs_left1 by lra.
      rewrite Rmin_right; lra.
Qed.

(** C10 fails on the code: for the angles 0 and 1080 in degrees, three full
    turns apart, [angularDifference_opt] returns -720 where
    [angularDifference_orig] returns 0. *)
Theorem angularDifference_opt_differs_from_orig :
  angularDifference_opt [0] [1080] "degrees" = Ok [-720] /\
  angularDifference_orig [0] [1080] "degrees" = Ok [0].
Proof.
  split.
  - cbn. do 2 f_equal.
    replace (1080 - 0) with 1080 by ring.
    rewrite Rabs_pos_eq by lra. rewrite Rmin_right; lra.
  - cbn. do 2 f_equal.
    rewrite (np_mod_eq _ 360 (-3)); [|lra|lra].
    replace (0 - 1080 + 5 / 10 * 360 - -3 * 360 - 5 / 10 * 360) with 0 by lra.
    apply Rabs_R0.
Qed.

Example lower_Oh : lower "Oh" = "oh"%string.
Proof. reflexivity. Qed.

(** ** Facts on reshaping and selection *)

Lemma reshape_rows_concat {A : Type} (c : nat) (L : list (list A)) :
  Forall (fun b => length b = c) L ->
  reshape_rows (length L) c (concat L) = L.
Proof.
  induction 1 as [|b L Hb HL IH]; cbn; [reflexivity|].
  subst c. rewrite firstn_app, Nat.sub_diag, firstn_all, firstn_O, app_nil_r.
  f_equal.
  rewrite skipn_app, Nat.sub_diag, skipn_all, skipn_O. cbn.
  exact IH.
Qed.

Lemma length_concat_uniform {A : Type} (c : nat) (L : list (list A)) :
  Forall (fun b => length b = c) L -> length (concat L) = (length L * c)%nat.
Proof.
  induction 1 as [|b L Hb HL IH]; cbn; [reflexivity|].
  rewrite length_app, IH, Hb. reflexivity.
Qed.

Lemma reshape_rows_length {A : Type} (r c : nat) (xs : list A) :
  length (reshape_rows r c xs) = r.
Proof. revert xs. induction r; intros; cbn; [|rewrite IHr]; reflexivity. Qed.

Lemma reshape_rows_uniform {A : Type} (r c : nat) (xs : list A) :
  length xs = (r * c)%nat ->
  Forall (fun b => length b = c) (reshape_rows r c xs).
Proof.
  revert xs. induction r as [|r IH]; intros xs Hl; cbn; constructor.
  - apply firstn_length_le. cbn in Hl. lia.
  - apply IH. rewrite length_skipn. cbn in Hl. lia.
Qed.

Lemma concat_reshape_rows {A : Type} (r c : nat) (xs : list A) :
  length xs = (r * c)%nat -> concat (reshape_rows r c xs) = xs.
Proof.
  revert xs. induction r as [|r IH]; intros xs Hl; cbn.
  - destruct xs; [reflexivity | discriminate].
  - rewrite IH; [apply firstn_skipn|].
    rewrite length_skipn. cbn in Hl. lia.
Qed.

Lemma flat_map_concat_map' {A B : Type} (f : A -> list B) (l : list A) :
  flat_map f l = concat (map f l).
Proof. induction l; cbn; [|rewrite IHl]; reflexivity. Qed.

Lemma mapM_ok {A B : Type} (f : A -> result B) (g : A -> B) (l : list A) :
  (forall a, In a l -> f a = Ok (g a)) -> mapM f l = Ok (map g l).
Proof.
  induction l as [|a l IH]; intros H; cbn; [reflexivity|].
  rewrite (H a (or_introl eq_refl)). cbn.
  rewrite IH by (intros; apply H; right; assumption). reflexivity.
Qed.

(** The index and value that [argmax_from] carries stay together, and the
    value dominates all that has been seen. *)
Lemma argmax_from_spec (d : R) (pre l : list R) (best : R) (besti : nat) :
  nth_error (pre ++ l) besti = Some best ->
  (besti < length pre)%nat ->
  Forall (fun x => x <= best) pre ->
  let k := argmax_from best besti (length pre) l in
  (k < length (pre ++ l))%nat /\
  Forall (fun x => x <= nth k (pre ++ l) d) (pre ++ l).
Proof.
  revert pre best besti. induction l as [|x l IH]; intros pre best besti Hn Hi Hall; cbn.
  - rewrite app_nil_r in *. split; [exact Hi|].
    rewrite (nth_error_nth _ _ d Hn). exact Hall.
  - replace (pre ++ x :: l) with ((pre ++ [x]) ++ l) in * by (rewrite <- app_assoc; reflexivity).
    replace (S (length pre)) with (length (pre ++ [x])) by (rewrite length_app; cbn; lia).
    destruct (Rltb best x) eqn:E.
    + apply Rltb_true in E. apply IH.
      * rewrite nth_error_app1 by (rewrite length_app; cbn; lia).
        rewrite nth_error_app2 by lia. rewrite Nat.sub_diag. reflexivity.
      * rewrite length_app; cbn; lia.
      * apply Forall_app. split.
        -- eapply Forall_impl; [|exact Hall]. cbn; intros; lra.
        -- constructor; [lra|constructor].
    + apply Rltb_false in E. apply IH.
      * exact Hn.
      * rewrite length_app; cbn; lia.
      * apply Forall_app. split; [exact Hall|]. constructor; [exact E|constructor].
Qed.

Lemma np_argmax_spec (d : R) (l : list R) :
  l <> [] ->
  exists k, np_argmax l = Ok k /\ (k < length l)%nat /\
            Forall (fun x => x <= nth k l d) l.
Proof.
  destruct l as [|x l]; [congruence|]. intros _.
  eexists. split; [reflexivity|].
  apply (argmax_from_spec d [x] l x 0%nat).
  - reflexivity.
  - cbn; lia.
  - constructor; [lra|constructor].
Qed.

Lemma np_argmax_idx (l : list R) : l <> [] -> np_argmax l = Ok (argmax_idx l).
Proof. destruct l; [congruence | reflexivity]. Qed.

Lemma pick_spec (c : list quat) :
  c <> [] ->
  (argmax_idx (map q_0 c) < length c)%nat /\
  In (pick c) c /\ Forall (fun e => q_0 e <= q_0 (pick c)) c.
Proof.
  intros Hc.
  assert (Hm : map q_0 c <> []) by (destruct c; [congruence | discriminate]).
  destruct (np_argmax_spec (q_0 (Quat 0 0 0 0)) _ Hm) as (k & Hk & Hlt & Hall).
  rewrite (np_argmax_idx _ Hm) in Hk. inversion Hk; subst k; clear Hk.
  rewrite length_map in Hlt. split; [exact Hlt|]. unfold pick. split.
  - apply nth_In, Hlt.
  - rewrite map_nth in Hall. rewrite Forall_map in Hall. exact Hall.
Qed.

Lemma take_columns_offset (m : nat) (L : list (list quat)) :
  m <> 0%nat -> Forall (fun c => length c = m) L ->
  forall (P : list quat) (s : nat),
    length P = (s * m)%nat ->
    take_columns (P ++ concat L)
      (map (fun ab => (fst ab + snd ab)%nat)
           (combine (map (fun c => argmax_idx (map q_0 c)) L)
                    (map (fun x => (x * m)%nat) (seq s (length L)))))
    = Ok (map pick L).
Proof.
  intros Hm HL. induction HL as [|c L Hc HL IH]; intros P s HP.
  - reflexivity.
  - assert (Hne : c <> []) by (destruct c; [cbn in Hc; congruence | discriminate]).
    destruct (pick_spec c Hne) as (Hlt & _ & _).
    cbn [length seq map combine concat fst snd]. unfold take_columns. cbn [mapM].
    rewrite nth_error_app2 by lia.
    replace (argmax_idx (map q_0 c) + s * m - length P)%nat
      with (argmax_idx (map q_0 c)) by lia.
    rewrite nth_error_app1 by exact Hlt.
    rewrite (nth_error_nth' c (Quat 0 0 0 0) Hlt). cbn [bind].
    fold (pick c).
    rewrite app_assoc.
    specialize (IH (P ++ c) (S s)). unfold take_columns in IH.
    rewrite IH; [reflexivity|].
    rewrite length_app, HP, Hc. cbn. lia.
Qed.

Lemma fixed_apply_stack (Ms : list mat4) (qs : list quat) :
  fixQuat_flat (apply_stack Ms qs)
  = concat (map (fun qj => map (fun M => fix1 (dot M qj)) Ms) qs).
Proof.
  rewrite fixQuat_flat_map. unfold apply_stack.
  rewrite flat_map_concat_map', concat_map, map_map.
  f_equal. apply map_ext. intros qj. apply map_map.
Qed.

Lemma fixed_class_stack (gc : list quat) (qj : quat) :
  map (fun M => fix1 (dot M qj)) (map right_matrix gc) = fixed_class gc qj.
Proof.
  unfold fixed_class, sym_class. rewrite !map_map.
  apply map_ext. intros s. rewrite dot_right_matrix. reflexivity.
Qed.

(** The selection of [toFundamentalRegion] on the flat batch. *)
Lemma select_representatives (gc qs : list quat) :
  gc <> [] ->
  let Ms := map right_matrix gc in
  let qeqv := fixQuat_flat (apply_stack Ms qs) in
  (amax <- argmax_axis0 (length Ms)
             (reshape_rows (length qs) (length Ms) (map q_0 qeqv)) ;;
   take_columns qeqv
     (map (fun ab => (fst ab + snd ab)%nat)
          (combine amax (map (fun x => (x * length Ms)%nat)
                             (seq 0 (length qs))))))
  = Ok (map (fun qj => pick (fixed_class gc qj)) qs).
Proof.
  intros Hg Ms qeqv.
  set (m := length Ms).
  assert (Hm : m <> 0%nat).
  { unfold m, Ms. rewrite length_map. destruct gc; [congruence | cbn; lia]. }
  set (L := map (fun qj => map (fun M => fix1 (dot M qj)) Ms) qs).
  assert (HL : Forall (fun c => length c = m) L).
  { unfold L. apply Forall_map, Forall_forall. intros qj _.
    rewrite length_map. reflexivity. }
  assert (Hq : qeqv = concat L) by apply fixed_apply_stack.
  assert (HlenL : length L = length qs) by (unfold L; apply length_map).
  rewrite Hq, concat_map.
  rewrite <- HlenL, <- (length_map (map q_0) L).
  rewrite reshape_rows_concat.
  2:{ apply Forall_map. eapply Forall_impl; [|exact HL].
      cbn. intros c Hc. rewrite length_map. exact Hc. }
  unfold argmax_axis0.
  destruct (Nat.eqb m 0) eqn:E; [apply Nat.eqb_eq in E; congruence|].
  rewrite (mapM_ok np_argmax argmax_idx).
  2:{ intros l Hl. apply np_argmax_idx.
      apply in_map_iff in Hl. destruct Hl as (c & <- & Hin).
      rewrite Forall_forall in HL. specialize (HL c Hin).
      destruct c; [cbn in HL; congruence | discriminate]. }
  cbn [bind]. rewrite map_map, length_map.
  pose proof (take_columns_offset m L Hm HL [] 0%nat eq_refl) as Ht.
  cbn [app] in Ht. rewrite Ht. f_equal.
  unfold L. rewrite map_map. apply map_ext. intros qj.
  unfold Ms. rewrite fixed_class_stack. reflexivity.
Qed.

Lemma from_rotvec_rows_inv (rotvec : list vec3) (rot : list Scipy.Rotation) :
  from_rotvec_rows rotvec = Ok rot -> rot = map Scipy.from_rotvec rotvec.
Proof.
  destruct rotvec; [discriminate|]. intros H; injection H as <-. reflexivity.
Qed.

Lemma from_rotvec_rows_ok (rotvec : list vec3) :
  rotvec <> [] ->
  from_rotvec_rows rotvec = Ok (map Scipy.from_rotvec rotvec).
Proof. destruct rotvec; [congruence | reflexivity]. Qed.

Lemma quatOfAngleAxis_list_length (a : list R) (ax : list vec3) (g : list quat) :
  quatOfAngleAxis (AngleList a) ax = Ok g -> length g = length a.
Proof.
  unfold quatOfAngleAxis, _scipy_rotation_to_quat, unitVector.
  destruct (Nat.eqb (length ax) 1).
  - cbn [bind].
    destruct (from_rotvec_rows _) as [rot|e] eqn:Er; cbn [bind]; [|discriminate].
    apply from_rotvec_rows_inv in Er. subst rot.
    intros H; inversion H.
    rewrite !length_map, length_combine, length_map, repeat_length. lia.
  - destruct (Nat.eqb (length ax) (length a)) eqn:E; cbn [negb bind].
    + apply Nat.eqb_eq in E.
      destruct (from_rotvec_rows _) as [rot|e] eqn:Er; cbn [bind]; [|discriminate].
      apply from_rotvec_rows_inv in Er. subst rot.
      intros H; inversion H.
      rewrite !length_map, length_combine, length_map. lia.
    + discriminate.
Qed.

Lemma laue_angleAxis_nonempty (tag : string) (aa : list quat) :
  laue_angleAxis tag = Ok aa -> aa <> [].
Proof.
  unfold laue_angleAxis.
  repeat match goal with
         | |- context [if ?b then _ else _] => destruct b
         end;
    intros H; inversion H; discriminate.
Qed.

(** Every recognised tag stands for at least one quaternion. *)
Lemma quatOfLaueGroup_nonempty (tag : string) (g : list quat) :
  quatOfLaueGroup tag = Ok g -> g <> [].
Proof.
  unfold quatOfLaueGroup.
  destruct (laue_angleAxis tag) as [aa|e] eqn:E; cbn [bind]; [|discriminate].
  intros H. apply quatOfAngleAxis_list_length in H.
  apply laue_angleAxis_nonempty in E.
  rewrite length_map in H.
  destruct g; [|discriminate]. destruct aa; [congruence | discriminate].
Qed.

Lemma picked_maximal (gc qs : list quat) :
  gc <> [] ->
  Forall2 (fun qj r =>
             In r (fixed_class gc qj) /\
             Forall (fun e => q_0 e <= q_0 r) (fixed_class gc qj))
          qs (map (fun qj => pick (fixed_class gc qj)) qs).
Proof.
  intros Hg. induction qs as [|qj qs IH]; cbn [map]; constructor.
  - assert (Hc : fixed_class gc qj <> []).
    { unfold fixed_class, sym_class. destruct gc; [congruence | discriminate]. }
    destruct (pick_spec _ Hc) as (_ & Hin & Hall). split; assumption.
  - exact IH.
Qed.

(** The fourteen tags, in any letter case, stand for a group. *)
Lemma quatOfLaueGroup_recognised (tag : string) :
  In (lower tag)
     ["ci"; "s2"; "c2h"; "d2h"; "vh"; "c4h"; "d4h"; "c3i"; "s6"; "d3d";
      "c6h"; "d6h"; "th"; "oh"]%string ->
  exists g, quatOfLaueGroup tag = Ok g.
Proof.
  intros H. unfold quatOfLaueGroup, laue_angleAxis.
  cbn [In] in H.
  repeat (destruct H as [H|H]; [rewrite <- H; eexists; reflexivity|]).
  destruct H.
Qed.

(** ** The number np_pi *)

Lemma cos_term_step (a : R) (i : nat) :
  cos_term a (S i)
  = - cos_term a i * (a * a)
    / (IZR (Z.of_nat (2 * i + 1)) * IZR (Z.of_nat (2 * i + 2))).
Proof.
  rewrite <- !INR_IZR_INZ. unfold cos_term.
  replace (2 * S i)%nat with (S (S (2 * i))) by lia.
  rewrite !fact_simpl, !mult_INR.
  replace (2 * i + 1)%nat with (S (2 * i)) by lia.
  replace (2 * i + 2)%nat with (S (S (2 * i))) by lia.
  cbn [pow]. field.
  split; [apply INR_fact_neq_0 | split; apply not_0_INR; lia].
Qed.

(** The cosine of [np_pi / 2] is not zero but about 6.1 / 10^17, the scalar
    component that the code gets for a half turn.  Each of the first
    thirteen terms of the series of the cosine is enclosed between two
    decimal fractions, from the term before it; the sums of twelve and of
    thirteen terms enclose the cosine. *)
Lemma cos_half_np_pi_bounds : 6 / 10 ^ 17 < cos (np_pi / 2) < 7 / 10 ^ 17.
Proof.
  assert (Ha2 : np_pi / 2 * (np_pi / 2)
                = 781950621441006189802102638025
                  / 316912650057057350374175801344).
  { unfold np_pi. field. }
  assert (Hr : - 2 <= np_pi / 2 <= 2) by (unfold np_pi; lra).
  assert (B0 : 1 <= cos_term (np_pi / 2) 0 <= 1).
  { unfold cos_term. cbn. lra. }
  assert (B1 : - (1233700550136169731170776688896 / 10 ^ 30)
               <= cos_term (np_pi / 2) 1
               <= - (1233700550136169731170776688895 / 10 ^ 30)).
  { rewrite (cos_term_step (np_pi / 2) 0), Ha2.
    change (Z.of_nat (2 * 0 + 1)) with 1%Z.
    change (Z.of_nat (2 * 0 + 2)) with 2%Z.
    remember (cos_term (np_pi / 2) 0) as t eqn:Et. clear Et. lra. }
  assert (B2 : 253669507901047974082670147620 / 10 ^ 30
               <= cos_term (np_pi / 2) 2
               <= 253669507901047974082670147621 / 10 ^ 30).
  { rewrite (cos_term_step (np_pi / 2) 1), Ha2.
    change (Z.of_nat (2 * 1 + 1)) with 3%Z.
    change (Z.of_nat (2 * 1 + 2)) with 4%Z.
    remember (cos_term (np_pi / 2) 1) as t eqn:Et. clear Et. lra. }
  assert (B3 : - (20863480763352955993285654832 / 10 ^ 30)
               <= cos_term (np_pi / 2) 3
               <= - (20863480763352955993285654831 / 10 ^ 30)).
  { rewrite (cos_term_step (np_pi / 2) 2), Ha2.
    change (Z.of_nat (2 * 2 + 1)) with 5%Z.
    change (Z.of_nat (2 * 2 + 2)) with 6%Z.
    remember (cos_term (np_pi / 2) 2) as t eqn:Et. clear Et. lra. }
  assert (B4 : 919260274839426293566955411 / 10 ^ 30
               <= cos_term (np_pi / 2) 4
               <= 919260274839426293566955412 / 10 ^ 30).
  { rewrite (cos_term_step (np_pi / 2) 3), Ha2.
    change (Z.of_nat (2 * 3 + 1)) with 7%Z.
    change (Z.of_nat (2 * 3 + 2)) with 8%Z.
    remember (cos_term (np_pi / 2) 3) as t eqn:Et. clear Et. lra. }
  assert (B5 : - (25202042373060595656863852 / 10 ^ 30)
               <= cos_term (np_pi / 2) 5
               <= - (25202042373060595656863851 / 10 ^ 30)).
  { rewrite (cos_term_step (np_pi / 2) 4), Ha2.
    change (Z.of_nat (2 * 4 + 1)) with 9%Z.
    change (Z.of_nat (2 * 4 + 2)) with 10%Z.
    remember (cos_term (np_pi / 2) 4) as t eqn:Et. clear Et. lra. }
  assert (B6 : 471087477881816930001435 / 10 ^ 30
               <= cos_term (np_pi / 2) 6
               <= 471087477881816930001436 / 10 ^ 30).
  { rewrite (cos_term_step (np_pi / 2) 5), Ha2.
    change (Z.of_nat (2 * 5 + 1)) with 11%Z.
    change (Z.of_nat (2 * 5 + 2)) with 12%Z.
    remember (cos_term (np_pi / 2) 5) as t eqn:Et. clear Et. lra. }
  assert (B7 : - (6386603083791848755640 / 10 ^ 30)
               <= cos_term (np_pi / 2) 7
               <= - (6386603083791848755639 / 10 ^ 30)).
  { rewrite (cos_term_step (np_pi / 2) 6), Ha2.
    change (Z.of_nat (2 * 6 + 1)) with 13%Z.
    change (Z.of_nat (2 * 6 + 2)) with 14%Z.
    remember (cos_term (np_pi / 2) 6) as t eqn:Et. clear Et. lra. }
  assert (B8 : 65659631149794682669 / 10 ^ 30
               <= cos_term (np_pi / 2) 8
               <= 65659631149794682670 / 10 ^ 30).
  { rewrite (cos_term_step (np_pi / 2) 7), Ha2.
    change (Z.of_nat (2 * 7 + 1)) with 15%Z.
    change (Z.of_nat (2 * 7 + 2)) with 16%Z.
    remember (cos_term (np_pi / 2) 7) as t eqn:Et. clear Et. lra. }
  assert (B9 : - (529440020073462005 / 10 ^ 30)
               <= cos_term (np_pi / 2) 9
               <= - (529440020073462004 / 10 ^ 30)).
  { rewrite (cos_term_step (np_pi / 2) 8), Ha2.
    change (Z.of_nat (2 * 8 + 1)) with 17%Z.
    change (Z.of_nat (2 * 8 + 2)) with 18%Z.
    remember (cos_term (np_pi / 2) 8) as t eqn:Et. clear Et. lra. }
  assert (B10 : 3437739179098604 / 10 ^ 30
               <= cos_term (np_pi / 2) 10
               <= 3437739179098605 / 10 ^ 30).
  { rewrite (cos_term_step (np_pi / 2) 9), Ha2.
    change (Z.of_nat (2 * 9 + 1)) with 19%Z.
    change (Z.of_nat (2 * 9 + 2)) with 20%Z.
    remember (cos_term (np_pi / 2) 9) as t eqn:Et. clear Et. lra. }
  assert (B11 : - (18359916521553 / 10 ^ 30)
               <= cos_term (np_pi / 2) 11
               <= - (18359916521552 / 10 ^ 30)).
  { rewrite (cos_term_step (np_pi / 2) 10), Ha2.
    change (Z.of_nat (2 * 10 + 1)) with 21%Z.
    change (Z.of_nat (2 * 10 + 2)) with 22%Z.
    remember (cos_term (np_pi / 2) 10) as t eqn:Et. clear Et. lra. }
  assert (B12 : 82067533018 / 10 ^ 30
               <= cos_term (np_pi / 2) 12
               <= 82067533019 / 10 ^ 30).
  { rewrite (cos_term_step (np_pi / 2) 11), Ha2.
    change (Z.of_nat (2 * 11 + 1)) with 23%Z.
    change (Z.of_nat (2 * 11 + 2)) with 24%Z.
    remember (cos_term (np_pi / 2) 11) as t eqn:Et. clear Et. lra. }
  destruct (pre_cos_bound (np_pi / 2) 5 (proj1 Hr) (proj2 Hr)) as [Hlow Hupp].
  change (2 * 5 + 1)%nat with 11%nat in Hlow.
  change (2 * (5 + 1))%nat with 12%nat in Hupp.
  unfold cos_approx in Hlow, Hupp. cbn [sum_f_R0] in Hlow, Hupp.
  split; lra.
Qed.

Lemma cos_half_np_pi_pos : 0 < cos (np_pi / 2).
Proof. pose proof cos_half_np_pi_bounds. lra. Qed.

(** [np_pi] lies below the real number pi. *)
Lemma np_pi_lt_PI : 0 < np_pi < PI.
Proof.
  assert (H : 0 < np_pi / 2 < 2) by (unfold np_pi; lra).
  pose proof (PI2_lower_bound (np_pi / 2) H cos_half_np_pi_pos).
  unfold np_pi in *. lra.
Qed.

(** The group of the tag [c2h]: the identity and the half turn about the
    second axis, which keeps a positive scalar component since [np_pi] is
    below pi. *)
Lemma quatOfLaueGroup_c2h :
  quatOfLaueGroup "c2h"
  = Ok [identity_quat; Quat (cos (np_pi / 2)) 0 (sin (np_pi / 2)) 0].
Proof.
  pose proof cos_half_np_pi_pos as Hc.
  assert (Hp : 0 < np_pi) by (unfold np_pi; lra).
  unfold quatOfLaueGroup.
  change (laue_angleAxis "c2h") with (Ok [Quat 0 1 0 0; Quat np_pi 0 1 0]).
  cbn [bind map q_0 q_1 q_2 q_3].
  unfold quatOfAngleAxis. cbn [length Nat.eqb negb bind].
  assert (Hu : unitVector [Vec3 1 0 0; Vec3 0 1 0] = [Vec3 1 0 0; Vec3 0 1 0]).
  { unfold unitVector, norm. cbn [map sumsq Column_vec3 v_0 v_1 v_2].
    replace (1 * 1 + 0 * 0 + 0 * 0) with 1 by ring.
    replace (0 * 0 + 1 * 1 + 0 * 0) with 1 by ring.
    rewrite sqrt_1, Rinv_1. cbn. f_equal; [|f_equal]; f_equal; ring. }
  rewrite Hu. cbn [combine map fst snd from_rotvec_rows bind].
  assert (H0 : Scipy.from_rotvec (scale 0 (Vec3 1 0 0)) = Scipy.Rot 0 0 0 1).
  { unfold Scipy.from_rotvec, norm. cbn [scale sumsq Column_vec3 v_0 v_1 v_2].
    replace (0 * 1 * (0 * 1) + 0 * 0 * (0 * 0) + 0 * 0 * (0 * 0)) with 0 by ring.
    rewrite sqrt_0. replace (0 / 2) with 0 by field. rewrite cos_0.
    f_equal; ring. }
  assert (H1 : Scipy.from_rotvec (scale np_pi (Vec3 0 1 0))
               = Scipy.Rot 0 (sin (np_pi / 2)) 0 (cos (np_pi / 2))).
  { unfold Scipy.from_rotvec, norm. cbn [scale sumsq Column_vec3 v_0 v_1 v_2].
    replace (np_pi * 0 * (np_pi * 0) + np_pi * 1 * (np_pi * 1)
             + np_pi * 0 * (np_pi * 0)) with (np_pi * np_pi) by ring.
    rewrite sqrt_square by lra.
    f_equal; field; lra. }
  rewrite H0, H1. unfold _scipy_rotation_to_quat, np_sign, Rltb.
  cbn [map Scipy.rw Scipy.rx Scipy.ry Scipy.rz q_0].
  destruct (Rlt_dec 1 0); [lra|]. destruct (Rlt_dec 0 1); [|lra].
  destruct (Rlt_dec (cos (np_pi / 2)) 0); [lra|].
  destruct (Rlt_dec 0 (cos (np_pi / 2))); [|lra].
  rewrite !scale_1_quat. reflexivity.
Qed.

(** ** C1 *)

(** C1: for every quaternion array [q], flat or 3-D, that holds at least
    one quaternion, and every crystal symmetry, a recognised tag or a
    non-empty batch of quaternions, with no sample symmetry,
    [toFundamentalRegion] returns an array of the shape of [q] each of whose
    columns is a sign-fixed member of the equivalence class of the matching
    column of [q], with a scalar component at least that of every sign-fixed
    member of the class. *)
Theorem toFundamentalRegion_maximal_scalar
  (q : qarray) (crysSym : symmetry) (gc : list quat) :
  wf_qarray q ->
  columns q <> [] ->
  symmetry_quats crysSym = Ok gc ->
  crysSym <> SymGroup [] ->
  exists qr,
    toFundamentalRegion q crysSym None = Ok qr /\
    same_shape q qr /\
    Forall2 (fun qj r =>
               In r (fixed_class gc qj) /\
               Forall (fun e => q_0 e <= q_0 r) (fixed_class gc qj))
            (columns q) (columns qr).
Proof.
  intros Hwf Hq Hsym Hne.
  assert (Hn : Nat.eqb (length (columns q)) 0 = false).
  { apply Nat.eqb_neq. destruct (columns q); [congruence | discriminate]. }
  assert (Hg : gc <> []).
  { destruct crysSym as [tag|g]; cbn in Hsym.
    - eapply quatOfLaueGroup_nonempty, Hsym.
    - inversion Hsym; subst. intros ->. apply Hne. reflexivity. }
  set (sel := map (fun qj => pick (fixed_class gc qj)) (columns q)).
  assert (Hrun : toFundamentalRegion q crysSym None
                 = match q with
                   | Q2 _ => Ok (Q2 sel)
                   | Q3 n3 blocks => Ok (Q3 n3 (unflatten3 (length blocks) n3 sel))
                   end).
  { unfold toFundamentalRegion. rewrite Hsym. cbn [bind].
    change (quatProductMatrix gc "right") with (Ok (map right_matrix gc)).
    cbn [bind].
    pose proof (select_representatives gc (columns q) Hg) as Hs.
    cbn zeta in Hs.
    destruct (argmax_axis0 _ _) as [amax|e]; cbn [bind] in *; [|discriminate].
    rewrite Hn, Hs. cbn [bind]. destruct q; reflexivity. }
  pose proof (picked_maximal gc (columns q) Hg) as Hsel. fold sel in Hsel.
  rewrite Hrun. destruct q as [cols | n3 blocks].
  - exists (Q2 sel). split; [reflexivity|]. split.
    + cbn. unfold sel. rewrite length_map. reflexivity.
    + exact Hsel.
  - exists (Q3 n3 (unflatten3 (length blocks) n3 sel)).
    split; [reflexivity|]. split.
    + cbn. split; [reflexivity|]. unfold unflatten3.
      rewrite reshape_rows_length. reflexivity.
    + cbn [columns] in *. unfold flatten3, unflatten3 in *.
      rewrite concat_reshape_rows; [exact Hsel|].
      unfold sel. rewrite length_map.
      apply length_concat_uniform. exact Hwf.
Qed.

Lemma toFundamentalRegion_maximal_scalar_witness :
  wf_qarray (Q3 1 [[q_c3]; [h_c3]]) /\
  columns (Q3 1 [[q_c3]; [h_c3]]) <> [] /\
  symmetry_quats (SymTag "c2h")
  = Ok [identity_quat; Quat (cos (np_pi / 2)) 0 (sin (np_pi / 2)) 0] /\
  SymTag "c2h" <> SymGroup [] /\
  exists qr,
    toFundamentalRegion (Q3 1 [[q_c3]; [h_c3]]) (SymTag "c2h") None = Ok qr /\
    same_shape (Q3 1 [[q_c3]; [h_c3]]) qr /\
    Forall2 (fun qj r =>
               In r (fixed_class
                       [identity_quat;
                        Quat (cos (np_pi / 2)) 0 (sin (np_pi / 2)) 0] qj) /\
               Forall (fun e => q_0 e <= q_0 r)
                      (fixed_class
                         [identity_quat;
                          Quat (cos (np_pi / 2)) 0 (sin (np_pi / 2)) 0] qj))
            (columns (Q3 1 [[q_c3]; [h_c3]])) (columns qr).
Proof.
  assert (Hwf : wf_qarray (Q3 1 [[q_c3]; [h_c3]])) by (cbn; repeat constructor).
  assert (Hq : columns (Q3 1 [[q_c3]; [h_c3]]) <> []) by discriminate.
  assert (Hsym : symmetry_quats (SymTag "c2h")
                 = Ok [identity_quat;
                       Quat (cos (np_pi / 2)) 0 (sin (np_pi / 2)) 0])
    by exact quatOfLaueGroup_c2h.
  assert (Hne : SymTag "c2h" <> SymGroup []) by discriminate.
  split; [exact Hwf|]. split; [exact Hq|]. split; [exact Hsym|].
  split; [exact Hne|].
  exact (toFundamentalRegion_maximal_scalar
           (Q3 1 [[q_c3]; [h_c3]]) (SymTag "c2h")
           [identity_quat; Quat (cos (np_pi / 2)) 0 (sin (np_pi / 2)) 0]
           Hwf Hq Hsym Hne).
Defined.

(** ** C7 *)

(** With a sample symmetry no result is ever returned. *)
Lemma toFundamentalRegion_sampSym_no_result
  (q : qarray) (crysSym sampSym : symmetry) (qr : qarray) :
  toFundamentalRegion q crysSym (Some sampSym) <> Ok qr.
Proof.
  unfold toFundamentalRegion.
  destruct (symmetry_quats crysSym); cbn [bind]; [|discriminate].
  destruct (quatProductMatrix _ "right"); cbn [bind]; [|discriminate].
  destruct (symmetry_quats sampSym); cbn [bind]; [|discriminate].
  destruct (quatProductMatrix _ "left"); cbn [bind]; discriminate.
Qed.

(** C7: for every quaternion array and every crystal symmetry and sample
    symmetry that stand for a group (a recognised tag or a batch of
    quaternions), [toFundamentalRegion] with the sample symmetry given raises
    [NotImplementedError], distinct from the [RuntimeError] that the module
    raises everywhere else, and returns nothing. *)
Theorem toFundamentalRegion_sampSym_not_implemented
  (q : qarray) (crysSym sampSym : symmetry) (gc gs : list quat) :
  symmetry_quats crysSym = Ok gc ->
  symmetry_quats sampSym = Ok gs ->
  toFundamentalRegion q crysSym (Some sampSym) = Raise NotImplementedError.
Proof.
  intros Hc Hs. unfold toFundamentalRegion.
  rewrite Hc. cbn [bind].
  change (quatProductMatrix gc "right") with (Ok (map right_matrix gc)).
  cbn [bind]. rewrite Hs. cbn [bind].
  change (quatProductMatrix gs "left") with (Ok (map left_matrix gs)).
  reflexivity.
Qed.

Lemma toFundamentalRegion_sampSym_not_implemented_witness :
  exists gc gs,
    symmetry_quats (SymTag "Oh") = Ok gc /\
    symmetry_quats (SymGroup [identity_quat]) = Ok gs /\
    toFundamentalRegion (Q2 [q_c3; h_c3]) (SymTag "Oh")
                        (Some (SymGroup [identity_quat]))
    = Raise NotImplementedError.
Proof.
  eexists. eexists.
  split; [reflexivity|]. split; [reflexivity|].
  eapply toFundamentalRegion_sampSym_not_implemented; reflexivity.
Defined.

(** ** Facts on misorientation *)

Lemma hamilton_identity_l (x : quat) : hamilton identity_quat x = x.
Proof. destruct x. unfold hamilton, identity_quat; cbn. apply quat_eq; ring. Qed.

Lemma hamilton_identity_r (x : quat) : hamilton x identity_quat = x.
Proof. destruct x. unfold hamilton, identity_quat; cbn. apply quat_eq; ring. Qed.

Lemma fix1_identity : fix1 identity_quat = identity_quat.
Proof.
  unfold fix1. rewrite normalize_unit by (unfold identity_quat; cbn; ring).
  apply flip_of_nonneg. cbn; lra.
Qed.

Lemma fix1_minus_identity : fix1 (Quat (-1) 0 0 0) = identity_quat.
Proof.
  unfold fix1. rewrite normalize_unit by (cbn; ring).
  unfold flip_negative, Rltb. cbn [q_0].
  destruct (Rlt_dec (-1) 0); [|lra].
  unfold identity_quat; cbn. apply quat_eq; ring.
Qed.

Lemma invertQuat_single (q : quat) : invertQuat [q] = [fix1 (negate_scalar q)].
Proof. unfold invertQuat. rewrite fixQuat_flat_map. reflexivity. Qed.

(** A unit quaternion times its inverse, sign-fixed, is the identity. *)
Lemma self_misorientation_identity (q : quat) :
  unit_quat q ->
  fix1 (hamilton q (fix1 (negate_scalar q))) = identity_quat.
Proof.
  unfold unit_quat. destruct q as [a b c d]. cbn [sumsq Column_quat q_0 q_1 q_2 q_3].
  intros Hu.
  assert (Hs : sumsq (negate_scalar (Quat a b c d)) = 1).
  { unfold negate_scalar; cbn.
    transitivity (a * a + b * b + c * c + d * d); [ring | exact Hu]. }
  unfold fix1 at 2. rewrite (normalize_unit _ Hs).
  unfold flip_negative, negate_scalar, Rltb. cbn [q_0 q_1 q_2 q_3].
  destruct (Rlt_dec (-1 * a) 0).
  - replace (hamilton _ _) with identity_quat; [apply fix1_identity|].
    unfold hamilton, identity_quat; cbn. apply quat_eq; try ring.
    transitivity (a * a + b * b + c * c + d * d); [exact (eq_sym Hu) | ring].
  - replace (hamilton _ _) with (Quat (-1) 0 0 0); [apply fix1_minus_identity|].
    unfold hamilton; cbn. apply quat_eq; try ring.
    transitivity (- (a * a + b * b + c * c + d * d)); [lra | ring].
Qed.

Lemma fold_left_Rmax_ge (l : list R) (x : R) : x <= fold_left Rmax l x.
Proof.
  revert x. induction l as [|y l IH]; intros x; cbn; [lra|].
  eapply Rle_trans; [apply (Rmax_l x y) | apply IH].
Qed.

Lemma fold_left_Rmax_bound (l : list R) (x b : R) :
  x <= b -> Forall (fun y => y <= b) l -> fold_left Rmax l x <= b.
Proof.
  revert x. induction l as [|y l IH]; intros x Hx Hl; cbn; [exact Hx|].
  inversion Hl; subst. apply IH; [apply Rmax_lub|]; assumption.
Qed.

Lemma fold_left_Rmax_In (l : list R) (x b : R) :
  In b l -> b <= fold_left Rmax l x.
Proof.
  revert x. induction l as [|y l IH]; intros x Hin; [destruct Hin|].
  destruct Hin as [->|Hin]; cbn.
  - eapply Rle_trans; [apply (Rmax_r x b) | apply fold_left_Rmax_ge].
  - apply IH, Hin.
Qed.

(** The maximum of an array that holds [b] and nothing above [b]. *)
Lemma np_max_attained (l : list R) (b : R) :
  In b l -> Forall (fun y => y <= b) l -> np_max l = Ok b.
Proof.
  destruct l as [|x l]; [intros []|]. intros Hin Hall. cbn. f_equal.
  inversion Hall; subst. apply Rle_antisym.
  - apply fold_left_Rmax_bound; assumption.
  - destruct Hin as [->|Hin]; [apply fold_left_Rmax_ge | apply fold_left_Rmax_In, Hin].
Qed.

Lemma positions_eq_bound (x : R) (l : list R) (s : nat) :
  Forall (fun i => (i < s + length l)%nat) (positions_eq x s l).
Proof.
  revert s. induction l as [|y l IH]; intros s; cbn; [constructor|].
  specialize (IH (S s)).
  assert (H : Forall (fun i => (i < s + S (length l))%nat)
                     (positions_eq x (S s) l)).
  { eapply Forall_impl; [|exact IH]. cbn; intros; lia. }
  destruct (Reqb y x); [constructor; [lia | exact H] | exact H].
Qed.

Lemma take_columns_total {A : Type} (a : list A) (ind : list nat) :
  Forall (fun i => (i < length a)%nat) ind ->
  exists r, take_columns a ind = Ok r.
Proof.
  unfold take_columns. induction 1 as [|i ind Hi _ [r IH]]; cbn.
  - eexists; reflexivity.
  - destruct (nth_error a i) eqn:E.
    + cbn. rewrite IH. cbn. eexists; reflexivity.
    + apply nth_error_None in E. lia.
Qed.

Lemma arccosSafe_one : arccosSafe [1] = Ok [0].
Proof.
  unfold arccosSafe. cbn [existsb map].
  assert (E : Rgtb (Rabs 1) arccos_slack = false).
  { apply Rltb_false. rewrite Rabs_R1. unfold arccos_slack. lra. }
  rewrite E. cbn [orb]. do 2 f_equal.
  destruct (clamp_unit_cases 1) as (H1 & _). rewrite H1 by lra. apply acos_1.
Qed.

(** ** C2 *)

(** C2: for every unit quaternion [q] (a (4, 1) array) and every batch of
    symmetry quaternions [qsym] that holds the identity quaternion,
    [misorientation(q, q, (qsym,))] returns the angle 0 for its one target,
    together with the quaternions of least misorientation. *)
Theorem misorientation_self_zero (q : quat) (qsym : list quat) :
  unit_quat q ->
  In identity_quat qsym ->
  exists mis, misorientation [q] [q] [[qsym]] = Ok ([0], mis).
Proof.
  intros Hu Hid.
  set (qi := fix1 (negate_scalar q)).
  set (E := map (fun s => fix1 (hamilton (hamilton identity_quat (hamilton q s)) qi))
                qsym).
  assert (Hm : length qsym <> 0%nat) by (destruct qsym; [destruct Hid | discriminate]).
  assert (HE : fixQuat_flat
                 (map (dot (right_matrix qi))
                      (apply_stack [left_matrix identity_quat]
                         (apply_stack (map right_matrix qsym) [q]))) = E).
  { rewrite fixQuat_flat_map. unfold apply_stack. cbn [flat_map].
    rewrite app_nil_r, flat_map_concat_map', map_map.
    unfold E. rewrite concat_map, !map_map. cbn [map].
    rewrite <- flat_map_concat_map'.
    induction qsym as [|s l IH']; [reflexivity|].
    cbn [flat_map map app]. f_equal.
    - rewrite !dot_right_matrix, dot_left_matrix. reflexivity.
    - clear -l. induction l as [|s l IH]; [reflexivity|].
      cbn [flat_map map app]. rewrite IH.
      rewrite !dot_right_matrix, dot_left_matrix. reflexivity. }
  assert (Hlen : length (map q_0 E) = (1 * length qsym)%nat).
  { unfold E. rewrite !length_map. lia. }
  assert (Hmax : np_max (map q_0 E) = Ok 1).
  { apply np_max_attained.
    - apply in_map_iff. exists identity_quat. split; [reflexivity|].
      unfold E. apply in_map_iff. exists identity_quat. split; [|exact Hid].
      rewrite hamilton_identity_r, hamilton_identity_l.
      apply self_misorientation_identity, Hu.
    - unfold E. rewrite map_map. apply Forall_map, Forall_forall.
      intros s _. apply fix1_scalar_le_1. }
  destruct (take_columns_total E (positions_eq 1 (0 * (1 * length qsym))
                                    (map q_0 E) ++ [])) as [mis Hmis].
  { rewrite app_nil_r. pose proof (positions_eq_bound 1 (map q_0 E) 0) as Hb.
    rewrite length_map in Hb. exact Hb. }
  exists mis. unfold misorientation.
  cbn [length Nat.eqb negb bind fst snd].
  rewrite invertQuat_single. fold qi.
  change (quatProductMatrix [qi] "right") with (Ok [right_matrix qi]).
  change (quatProductMatrix qsym "right") with (Ok (map right_matrix qsym)).
  change (quatProductMatrix [identity_quat] "left")
    with (Ok [left_matrix identity_quat]).
  cbn [bind]. rewrite HE.
  cbn [reshape_rows]. rewrite <- Hlen, firstn_all.
  unfold max_axis0.
  destruct (Nat.eqb (length (map q_0 E)) 0) eqn:Ez.
  { apply Nat.eqb_eq in Ez. lia. }
  cbn [mapM]. rewrite Hmax. cbn [bind seq combine map concat fst snd].
  rewrite Hlen. rewrite Hmis. cbn [bind].
  rewrite arccosSafe_one. cbn [bind map].
  replace (2 * 0) with 0 by ring. reflexivity.
Qed.

Lemma misorientation_self_zero_witness :
  unit_quat q_c3 /\ In identity_quat [Quat 0 0 0 1; identity_quat] /\
  exists mis,
    misorientation [q_c3] [q_c3] [[ [Quat 0 0 0 1; identity_quat] ]]
    = Ok ([0], mis).
Proof.
  assert (Hu : unit_quat q_c3) by (unfold unit_quat, q_c3; cbn; lra).
  assert (Hi : In identity_quat [Quat 0 0 0 1; identity_quat])
    by (right; left; reflexivity).
  split; [exact Hu|]. split; [exact Hi|].
  apply (misorientation_self_zero q_c3 [Quat 0 0 0 1; identity_quat] Hu Hi).
Defined.

(** ** Facts on discreteFiber *)

Lemma count_true_lt (l : list bool) :
  In false l -> (length (filter (fun b => b) l) < length l)%nat.
Proof.
  induction l as [|b l IH]; [intros []|].
  pose proof (filter_length_le (fun b => b) l) as Hle.
  intros [->|Hin]; cbn.
  - lia.
  - specialize (IH Hin). destruct b; cbn; lia.
Qed.

Lemma count_true_pos (l : list bool) :
  In true l -> (0 < length (filter (fun b => b) l))%nat.
Proof.
  induction l as [|b l IH]; [intros []|].
  intros [->|Hin]; cbn.
  - lia.
  - specialize (IH Hin). destruct b; cbn; lia.
Qed.

Lemma py_not_mixed (l : list bool) :
  In true l -> In false l -> py_not l = Raise ValueError.
Proof.
  destruct l as [|b [|b' l]]; cbn [py_not]; intros Ht Hf.
  - destruct Ht.
  - destruct Ht as [Ht|[]], Hf as [Hf|[]]. congruence.
  - reflexivity.
Qed.

Lemma fiber_axes_mixed (sqrt_epsf : R) (nullSpace : vec3 -> list vec3)
      (c_i : vec3) (s : list vec3) :
  In true (okay_mask sqrt_epsf c_i s) ->
  In false (okay_mask sqrt_epsf c_i s) ->
  fiber_axes sqrt_epsf nullSpace c_i s
  = Raise (match nullSpace c_i with [] => IndexError | _ => ValueError end).
Proof.
  intros Ht Hf. unfold fiber_axes. fold (okay_mask sqrt_epsf c_i s).
  pose proof (count_true_lt _ Hf) as Hlt.
  pose proof (count_true_pos _ Ht) as Hpos.
  assert (Hlen : length (okay_mask sqrt_epsf c_i s) = length s).
  { unfold okay_mask, columnNorm. rewrite !length_map. reflexivity. }
  rewrite Hlen in Hlt.
  destruct (Nat.eqb _ (length s)) eqn:E1; [apply Nat.eqb_eq in E1; lia|].
  destruct (nullSpace c_i) as [|h hs]; cbn [bind]; [reflexivity|].
  destruct (Nat.eqb _ 0) eqn:E2; [apply Nat.eqb_eq in E2; lia|].
  rewrite (py_not_mixed _ Ht Hf). reflexivity.
Qed.

(** ** C8 *)

(** C8 fails on the code: when the bisector of [s] and [c] vanishes for some
    columns of [s] and not for others, [discreteFiber] raises instead of
    returning a fiber: [ValueError], from [not okay] on an array of two
    entries or more, once [nullSpace] has given its column. *)
Theorem discreteFiber_mixed_raises
  (sqrt_epsf : R) (nullSpace : vec3 -> list vec3)
  (c : vec3) (s : list vec3) (B : mat3) (ndiv : nat) (invert : bool)
  (csym ssym : option symmetry) :
  let c_i := scale (/ norm (dot3 B c)) (dot3 B c) in
  In true (okay_mask sqrt_epsf c_i (unitVector s)) ->
  In false (okay_mask sqrt_epsf c_i (unitVector s)) ->
  discreteFiber sqrt_epsf nullSpace [c] s B ndiv invert csym ssym
  = Raise (match nullSpace c_i with [] => IndexError | _ => ValueError end).
Proof.
  intros c_i Ht Hf.
  change (discreteFiber sqrt_epsf nullSpace [c] s B ndiv invert csym ssym)
    with (b <- fiber_one sqrt_epsf nullSpace c_i (unitVector s) ndiv csym ssym ;;
          bs <- Ok [] ;; Ok (b :: bs)).
  unfold fiber_one.
  rewrite (fiber_axes_mixed _ _ _ _ Ht Hf). reflexivity.
Qed.

Lemma norm_vec3_z : norm (Vec3 0 0 1) = 1.
Proof.
  unfold norm; cbn.
  replace (0 * 0 + 0 * 0 + 1 * 1) with 1 by ring. apply sqrt_1.
Qed.

Lemma vec3_eq (a b c a' b' c' : R) :
  a = a' -> b = b' -> c = c' -> Vec3 a b c = Vec3 a' b' c'.
Proof. intros; subst; reflexivity. Qed.

Lemma discreteFiber_mixed_raises_witness :
  In true (okay_mask (/ 2 ^ 26)
             (scale (/ norm (dot3 I3 (Vec3 0 0 1))) (dot3 I3 (Vec3 0 0 1)))
             (unitVector [Vec3 0 0 1; Vec3 0 0 (-1)])) /\
  In false (okay_mask (/ 2 ^ 26)
              (scale (/ norm (dot3 I3 (Vec3 0 0 1))) (dot3 I3 (Vec3 0 0 1)))
              (unitVector [Vec3 0 0 1; Vec3 0 0 (-1)])) /\
  discreteFiber (/ 2 ^ 26) (fun _ => [Vec3 1 0 0; Vec3 0 1 0])
                [Vec3 0 0 1] [Vec3 0 0 1; Vec3 0 0 (-1)] I3 4 false None None
  = Raise ValueError.
Proof.
  set (c_i := scale (/ norm (dot3 I3 (Vec3 0 0 1))) (dot3 I3 (Vec3 0 0 1))).
  set (s := [Vec3 0 0 1; Vec3 0 0 (-1)]).
  assert (Hd : dot3 I3 (Vec3 0 0 1) = Vec3 0 0 1).
  { unfold dot3, vdot, I3; cbn. apply vec3_eq; ring. }
  assert (Hc : c_i = Vec3 0 0 1).
  { unfold c_i. rewrite Hd, norm_vec3_z; cbn. apply vec3_eq; field. }
  assert (Hn : norm (Vec3 0 0 (-1)) = 1).
  { unfold norm; cbn.
    replace (0 * 0 + 0 * 0 + -1 * -1) with 1 by ring. apply sqrt_1. }
  assert (Hs : unitVector s = s).
  { unfold s, unitVector; cbn [map]. rewrite norm_vec3_z, Hn; cbn.
    f_equal; [|f_equal]; apply vec3_eq; field. }
  assert (Hz : 0 < / 2 ^ 26 < 2).
  { split.
    - apply Rinv_0_lt_compat. apply pow_lt. lra.
    - apply Rlt_trans with 1; [|lra].
      rewrite <- Rinv_1. apply Rinv_lt_contravar; [|apply Rlt_pow_R1; [lra|lia]].
      rewrite Rmult_1_l. apply pow_lt. lra. }
  assert (Hm : okay_mask (/ 2 ^ 26) c_i (unitVector s) = [true; false]).
  { rewrite Hs, Hc. unfold okay_mask, columnNorm, s; cbn [map].
    f_equal; [|f_equal].
    - apply Rltb_true. unfold norm; cbn.
      replace ((0 + 0) * (0 + 0) + (0 + 0) * (0 + 0) + (1 + 1) * (1 + 1))
        with (2 * 2) by ring.
      rewrite sqrt_square; lra.
    - apply Rltb_false. unfold norm; cbn.
      replace ((0 + 0) * (0 + 0) + (0 + 0) * (0 + 0) + (-1 + 1) * (-1 + 1))
        with 0 by ring.
      rewrite sqrt_0. lra. }
  assert (Ht : In true (okay_mask (/ 2 ^ 26) c_i (unitVector s)))
    by (rewrite Hm; left; reflexivity).
  assert (Hf : In false (okay_mask (/ 2 ^ 26) c_i (unitVector s)))
    by (rewrite Hm; right; left; reflexivity).
  split; [exact Ht|]. split; [exact Hf|].
  exact (discreteFiber_mixed_raises (/ 2 ^ 26) (fun _ => [Vec3 1 0 0; Vec3 0 1 0])
           (Vec3 0 0 1) s I3 4 false None None Ht Hf).
Defined.

(** ** quatOfAngleAxis about the z axis, in exact arithmetic *)

(** [np.sign] sends a scalar component that is exactly 0 to 0, and the
    column with it. *)
Lemma scipy_rotation_to_quat_zero_scalar (x y z : R) :
  _scipy_rotation_to_quat [Scipy.Rot x y z 0] = [Quat 0 0 0 0].
Proof.
  unfold _scipy_rotation_to_quat, np_sign, Rltb; cbn [map Scipy.rw q_0].
  destruct (Rlt_dec 0 0); [lra|]. cbn. f_equal. apply quat_eq; ring.
Qed.

(** For an angle strictly between 0 and PI the quaternion of the rotation
    about z is [cos (angle / 2), 0, 0, sin (angle / 2)]. *)
Lemma quatOfAngleAxis_z (angle : R) :
  0 < angle < PI ->
  quatOfAngleAxis (AngleScalar angle) [Vec3 0 0 1]
  = Ok [Quat (cos (angle / 2)) 0 0 (sin (angle / 2))].
Proof.
  intros [H0 Hpi]. unfold quatOfAngleAxis. cbn [length Nat.eqb repeat hd bind].
  unfold unitVector. cbn [map]. rewrite norm_vec3_z.
  assert (Hv : scale angle (scale (/ 1) (Vec3 0 0 1)) = Vec3 0 0 angle).
  { cbn. apply vec3_eq; field. }
  rewrite Hv. cbn [from_rotvec_rows bind]. f_equal.
  assert (Hn : norm (Vec3 0 0 angle) = angle).
  { unfold norm; cbn.
    replace (0 * 0 + 0 * 0 + angle * angle) with (angle * angle) by ring.
    apply sqrt_square. lra. }
  unfold _scipy_rotation_to_quat, Scipy.from_rotvec. cbn [map].
  rewrite Hn. cbn [Scipy.rw Scipy.rx Scipy.ry Scipy.rz v_0 v_1 v_2 q_0].
  assert (Hc : 0 < cos (angle / 2)) by (apply cos_gt_0; lra).
  unfold np_sign, Rltb.
  destruct (Rlt_dec (cos (angle / 2)) 0); [lra|].
  destruct (Rlt_dec 0 (cos (angle / 2))); [|lra].
  cbn. f_equal. apply quat_eq; try ring. field. lra.
Qed.

(** At the real number PI itself the scalar component [cos (PI / 2)] is
    exactly 0 and the column collapses. *)
Lemma quatOfAngleAxis_z_PI :
  quatOfAngleAxis (AngleScalar PI) [Vec3 0 0 1] = Ok [Quat 0 0 0 0].
Proof.
  pose proof PI_RGT_0 as Hpi.
  unfold quatOfAngleAxis. cbn [length Nat.eqb repeat hd bind].
  unfold unitVector. cbn [map]. rewrite norm_vec3_z.
  assert (Hv : scale PI (scale (/ 1) (Vec3 0 0 1)) = Vec3 0 0 PI).
  { cbn. apply vec3_eq; field. }
  rewrite Hv. cbn [from_rotvec_rows bind]. f_equal.
  assert (Hn : norm (Vec3 0 0 PI) = PI).
  { unfold norm; cbn.
    replace (0 * 0 + 0 * 0 + PI * PI) with (PI * PI) by ring.
    apply sqrt_square. lra. }
  unfold Scipy.from_rotvec. cbn [map]. rewrite Hn, cos_PI2.
  apply scipy_rotation_to_quat_zero_scalar.
Qed.

(** ** Facts on rotation matrices *)

Lemma mat3_eq (a b c d e f g h i a' b' c' d' e' f' g' h' i' : R) :
  a = a' -> b = b' -> c = c' -> d = d' -> e = e' -> f = f' ->
  g = g' -> h = h' -> i = i' ->
  Mat3 (Vec3 a b c) (Vec3 d e f) (Vec3 g h i)
  = Mat3 (Vec3 a' b' c') (Vec3 d' e' f') (Vec3 g' h' i').
Proof. intros; subst; reflexivity. Qed.

Ltac mat3_ring :=
  unfold mmul3, transpose3, rotmat1, vdot, hamilton, I3; cbn;
  apply mat3_eq; ring.

(** The matrix of a quaternion times its transpose is the identity scaled by
    the square of the sum of squares, in either order. *)
Lemma rotmat1_gram (q : quat) :
  let s := sumsq q * sumsq q in
  mmul3 (rotmat1 q) (transpose3 (rotmat1 q))
  = Mat3 (Vec3 s 0 0) (Vec3 0 s 0) (Vec3 0 0 s) /\
  mmul3 (transpose3 (rotmat1 q)) (rotmat1 q)
  = Mat3 (Vec3 s 0 0) (Vec3 0 s 0) (Vec3 0 0 s) /\
  det3 (rotmat1 q) = s * sumsq q.
Proof.
  destruct q as [a b c d]. cbn zeta.
  split; [|split].
  - unfold mmul3, transpose3, rotmat1, vdot; cbn. apply mat3_eq; ring.
  - unfold mmul3, transpose3, rotmat1, vdot; cbn. apply mat3_eq; ring.
  - unfold det3, rotmat1; cbn. ring.
Qed.

Lemma rotmat1_hamilton (p q : quat) :
  rotmat1 (hamilton p q) = mmul3 (rotmat1 p) (rotmat1 q).
Proof. destruct p, q. mat3_ring. Qed.

Lemma rotmat1_opp (q : quat) : rotmat1 (scale (-1) q) = rotmat1 q.
Proof. destruct q. unfold rotmat1; cbn. apply mat3_eq; ring. Qed.

Lemma rotmat1_flip (q : quat) : rotmat1 (flip_negative q) = rotmat1 q.
Proof.
  unfold flip_negative. destruct (Rltb (q_0 q) 0); [apply rotmat1_opp | reflexivity].
Qed.

Lemma rotmat1_fix1_unit (q : quat) : unit_quat q -> rotmat1 (fix1 q) = rotmat1 q.
Proof.
  intros Hu. unfold fix1. rewrite (normalize_unit q Hu). apply rotmat1_flip.
Qed.

Lemma rotmat1_negate_scalar (q : quat) :
  rotmat1 (negate_scalar q) = transpose3 (rotmat1 q).
Proof.
  destruct q. unfold negate_scalar, rotmat1, transpose3; cbn.
  apply mat3_eq; ring.
Qed.

Lemma unit_negate_scalar (q : quat) : unit_quat q -> unit_quat (negate_scalar q).
Proof.
  unfold unit_quat. destruct q as [a b c d]; cbn. intros H.
  transitivity (a * a + b * b + c * c + d * d); [ring | exact H].
Qed.

Lemma invertQuat_map (q : list quat) :
  invertQuat q = map (fun c => fix1 (negate_scalar c)) q.
Proof.
  unfold invertQuat. rewrite fixQuat_flat_map, map_map.
  induction q as [|c q IH]; [reflexivity|].
  cbn [length repeat combine map]. rewrite IH. reflexivity.
Qed.

(** X1: for a batch of unit quaternions [rotMatOfQuat] returns one matrix
    per quaternion, each orthogonal (its product with its transpose is the
    identity, in either order) and of determinant 1. *)
Theorem rotMatOfQuat_proper_orthogonal (quat : list quat) :
  Forall unit_quat quat ->
  exists out,
    rotMatOfQuat (QuatBatch quat) = Ok out /\
    length (matrices out) = length quat /\
    Forall (fun M => mmul3 M (transpose3 M) = I3 /\
                     mmul3 (transpose3 M) M = I3 /\
                     det3 M = 1)
           (matrices out).
Proof.
  intros Hu.
  assert (Hm : forall out, rotMatOfQuat (QuatBatch quat) = Ok out ->
                           matrices out = _rotmatofquat quat).
  { unfold rotMatOfQuat. cbn [bind]. intros out H. inversion H.
    destruct (_rotmatofquat quat) as [|m [|m' ms]]; reflexivity. }
  eexists. split; [reflexivity|].
  rewrite (Hm _ eq_refl). unfold _rotmatofquat.
  split; [apply length_map|].
  apply Forall_map. eapply Forall_impl; [|exact Hu].
  intros q Hq. unfold unit_quat in Hq.
  destruct (rotmat1_gram q) as (H1 & H2 & H3).
  rewrite H1, H2, H3, Hq. unfold I3.
  repeat split; try (apply mat3_eq; ring). ring.
Qed.

Lemma rotMatOfQuat_proper_orthogonal_witness :
  Forall unit_quat [q_c3; h_c3] /\
  exists out,
    rotMatOfQuat (QuatBatch [q_c3; h_c3]) = Ok out /\
    length (matrices out) = 2%nat /\
    Forall (fun M => mmul3 M (transpose3 M) = I3 /\
                     mmul3 (transpose3 M) M = I3 /\
                     det3 M = 1)
           (matrices out).
Proof.
  assert (H : Forall unit_quat [q_c3; h_c3])
    by (repeat constructor; unfold unit_quat, q_c3, h_c3; cbn; lra).
  split; [exact H|].
  exact (rotMatOfQuat_proper_orthogonal [q_c3; h_c3] H).
Defined.

(** X2: the rotation matrix of a quaternion product is the product of the
    rotation matrices: applying [quatProductMatrix(q, 'left')] to [h] gives
    a quaternion whose matrix is [R(q) R(h)], and applying
    [quatProductMatrix(q, 'right')] to [h] one whose matrix is
    [R(h) R(q)]. *)
Theorem rotmatofquat_of_product (q h : quat) :
  exists Ml Mr,
    quatProductMatrix [q] "left" = Ok [Ml] /\
    quatProductMatrix [q] "right" = Ok [Mr] /\
    _rotmatofquat [dot Ml h] = [mmul3 (rotmat1 q) (rotmat1 h)] /\
    _rotmatofquat [dot Mr h] = [mmul3 (rotmat1 h) (rotmat1 q)] /\
    _rotmatofquat [q] = [rotmat1 q] /\ _rotmatofquat [h] = [rotmat1 h].
Proof.
  exists (left_matrix q), (right_matrix q).
  split; [reflexivity|]. split; [reflexivity|].
  unfold _rotmatofquat; cbn [map].
  rewrite dot_left_matrix, dot_right_matrix, !rotmat1_hamilton.
  repeat split.
Qed.

(** X3: on unit quaternions [fixQuat] does not change the rotation: the
    rotation matrices of [fixQuat(q)] are those of [q]. *)
Theorem rotmatofquat_fixQuat (q : list quat) :
  Forall unit_quat q ->
  exists qf, fixQuat (Q2 q) = Q2 qf /\ _rotmatofquat qf = _rotmatofquat q.
Proof.
  intros Hu. exists (fixQuat_flat q). split; [reflexivity|].
  rewrite fixQuat_flat_map. unfold _rotmatofquat. rewrite map_map.
  induction Hu as [|c q Hc Hq IH]; [reflexivity|].
  cbn [map]. rewrite IH, (rotmat1_fix1_unit c Hc). reflexivity.
Qed.

Lemma rotmatofquat_fixQuat_witness :
  Forall unit_quat [Quat (-1) 0 0 0; q_c3] /\
  exists qf, fixQuat (Q2 [Quat (-1) 0 0 0; q_c3]) = Q2 qf /\
             _rotmatofquat qf = _rotmatofquat [Quat (-1) 0 0 0; q_c3].
Proof.
  assert (H : Forall unit_quat [Quat (-1) 0 0 0; q_c3])
    by (repeat constructor; unfold unit_quat, q_c3; cbn; lra).
  split; [exact H|].
  exact (rotmatofquat_fixQuat [Quat (-1) 0 0 0; q_c3] H).
Defined.

(** X4: on unit quaternions [invertQuat] inverts the rotation: the rotation
    matrices of [invertQuat(q)] are the transposes of those of [q]. *)
Theorem rotmatofquat_invertQuat (q : list quat) :
  Forall unit_quat q ->
  _rotmatofquat (invertQuat q) = map transpose3 (_rotmatofquat q).
Proof.
  intros Hu. rewrite invertQuat_map. unfold _rotmatofquat. rewrite !map_map.
  induction Hu as [|c q Hc Hq IH]; [reflexivity|].
  cbn [map]. rewrite IH.
  rewrite (rotmat1_fix1_unit _ (unit_negate_scalar c Hc)), rotmat1_negate_scalar.
  reflexivity.
Qed.

Lemma rotmatofquat_invertQuat_witness :
  Forall unit_quat [q_c3; h_c3] /\
  _rotmatofquat (invertQuat [q_c3; h_c3])
  = map transpose3 (_rotmatofquat [q_c3; h_c3]).
Proof.
  assert (H : Forall unit_quat [q_c3; h_c3])
    by (repeat constructor; unfold unit_quat, q_c3, h_c3; cbn; lra).
  split; [exact H|].
  exact (rotmatofquat_invertQuat [q_c3; h_c3] H).
Defined.

(** ** Facts on invertQuat and on the quaternion constructors *)

Lemma sumsq_negate_scalar (c : quat) : sumsq (negate_scalar c) = sumsq c.
Proof. destruct c; cbn; ring. Qed.

Lemma negate_scalar_scale (k : R) (c : quat) :
  negate_scalar (scale k c) = scale k (negate_scalar c).
Proof. destruct c; unfold negate_scalar; cbn. apply quat_eq; ring. Qed.

Lemma normalize_negate_scalar (c : quat) :
  normalize (negate_scalar c) = negate_scalar (normalize c).
Proof.
  unfold normalize, norm. rewrite sumsq_negate_scalar, negate_scalar_scale.
  reflexivity.
Qed.

Lemma negate_scalar_twice (c : quat) : negate_scalar (negate_scalar c) = c.
Proof. destruct c; unfold negate_scalar; cbn. apply quat_eq; ring. Qed.

Lemma negate_scalar_zero : negate_scalar (Quat 0 0 0 0) = Quat 0 0 0 0.
Proof. unfold negate_scalar; cbn. apply quat_eq; ring. Qed.

Lemma normalize_unit_or_zero (c : quat) :
  sumsq (normalize c) = 1 \/ normalize c = Quat 0 0 0 0.
Proof.
  destruct (Req_dec_T (sumsq c) 0) as [Hz|Hnz].
  - right. apply sumsq_quat_zero in Hz. subst c. apply normalize_zero.
  - left. apply sumsq_normalize, Hnz.
Qed.

Lemma fix1_of_unit (u : quat) : sumsq u = 1 -> fix1 u = flip_negative u.
Proof. intros H. unfold fix1. rewrite (normalize_unit u H). reflexivity. Qed.

(** Inverting twice a column that is already normalised. *)
Lemma invert_twice_unit (u : quat) :
  sumsq u = 1 ->
  fix1 (negate_scalar (flip_negative (negate_scalar u))) = flip_negative u.
Proof.
  intros Hu.
  assert (Hy : sumsq (negate_scalar (flip_negative (negate_scalar u))) = 1).
  { rewrite sumsq_negate_scalar, sumsq_flip, sumsq_negate_scalar. exact Hu. }
  rewrite (fix1_of_unit _ Hy).
  destruct u as [a b c d].
  unfold flip_negative at 2. unfold negate_scalar at 2. unfold Rltb. cbn [q_0].
  destruct (Rlt_dec (-1 * a) 0) as [Hneg|Hpos].
  - (* a > 0 *)
    rewrite (flip_of_nonneg (Quat a b c d)) by (cbn; lra).
    unfold flip_negative, negate_scalar, Rltb. cbn.
    destruct (Rlt_dec _ 0) as [H|H]; [apply quat_eq; ring | lra].
  - rewrite negate_scalar_twice. reflexivity.
Qed.

Lemma invert_twice (c : quat) :
  fix1 (negate_scalar (fix1 (negate_scalar c))) = fix1 c.
Proof.
  unfold fix1 at 2 3. rewrite normalize_negate_scalar.
  destruct (normalize_unit_or_zero c) as [Hu|Hz].
  - apply invert_twice_unit, Hu.
  - rewrite Hz, negate_scalar_zero.
    rewrite (flip_of_nonneg (Quat 0 0 0 0)) by (cbn; lra).
    rewrite negate_scalar_zero. unfold fix1. rewrite normalize_zero.
    apply flip_of_nonneg. cbn; lra.
Qed.

(** X5: inverting twice is [fixQuat]: for every batch [q],
    [invertQuat(invertQuat(q))] equals [fixQuat(q)], the same rotations in
    canonical sign. *)
Theorem invertQuat_involution (q : list quat) :
  fixQuat (Q2 q) = Q2 (invertQuat (invertQuat q)).
Proof.
  cbn [fixQuat]. f_equal. rewrite !invertQuat_map, fixQuat_flat_map, map_map.
  apply map_ext. intros c. symmetry. apply invert_twice.
Qed.

Lemma np_sign_cases (w : R) :
  (0 < w -> np_sign w = 1) /\ (w < 0 -> np_sign w = -1) /\ (w = 0 -> np_sign w = 0).
Proof.
  unfold np_sign, Rltb.
  destruct (Rlt_dec w 0), (Rlt_dec 0 w); repeat split; intros; try lra; reflexivity.
Qed.

(** X6: [_scipy_rotation_to_quat] brings the scalar of the scipy quaternion
    [(x, y, z, w)] first and returns a column whose scalar is [|w|]: the
    quaternion itself for [w > 0], its negative for [w < 0], and the zero
    column, which is no unit quaternion, for [w = 0]. *)
Theorem scipy_rotation_to_quat_sign (x y z w : R) :
  exists c,
    _scipy_rotation_to_quat [Scipy.Rot x y z w] = [c] /\
    q_0 c = Rabs w /\
    (0 < w -> c = Quat w x y z) /\
    (w < 0 -> c = Quat (- w) (- x) (- y) (- z)) /\
    (w = 0 -> c = Quat 0 0 0 0).
Proof.
  eexists. split; [reflexivity|].
  cbn [Scipy.rw Scipy.rx Scipy.ry Scipy.rz q_0].
  destruct (np_sign_cases w) as (Hp & Hn & Hz).
  destruct (Rtotal_order w 0) as [Hlt|[Heq|Hgt]].
  - rewrite (Hn Hlt). split; [cbn; rewrite Rabs_left by lra; ring|].
    split; [intros; lra|]. split; [intros _; cbn; apply quat_eq; ring | intros; lra].
  - rewrite (Hz Heq). subst w. split; [cbn; rewrite Rabs_R0; ring|].
    split; [intros; lra|]. split; [intros; lra | intros _; cbn; apply quat_eq; ring].
  - rewrite (Hp Hgt). split; [cbn; rewrite Rabs_pos_eq by lra; ring|].
    split; [intros _; cbn; apply quat_eq; ring|]. split; intros; lra.
Qed.

Lemma sumsq_vec3_nonneg (v : vec3) : 0 <= sumsq v.
Proof. destruct v; cbn; nra. Qed.

Lemma sumsq_vec3_zero (v : vec3) : sumsq v = 0 -> v = Vec3 0 0 0.
Proof.
  destruct v as [a b c]; cbn; intros H.
  assert (a = 0) by nra. assert (b = 0) by nra. assert (c = 0) by nra.
  subst; reflexivity.
Qed.

Lemma sumsq_scale_vec3 (k : R) (v : vec3) : sumsq (scale k v) = k * k * sumsq v.
Proof. destruct v; cbn; ring. Qed.

Lemma sumsq_unit_vec3 (v : vec3) :
  v <> Vec3 0 0 0 -> sumsq (scale (/ norm v) v) = 1.
Proof.
  intros Hv. rewrite sumsq_scale_vec3. unfold norm.
  pose proof (sumsq_vec3_nonneg v) as Hn.
  assert (Hnz : sumsq v <> 0) by (intros E; apply Hv, sumsq_vec3_zero, E).
  rewrite <- Rinv_mult, sqrt_sqrt by exact Hn.
  apply Rinv_l, Hnz.
Qed.

Lemma norm_scale_unit (a : R) (n : vec3) : sumsq n = 1 -> norm (scale a n) = Rabs a.
Proof.
  intros Hn. unfold norm. rewrite sumsq_scale_vec3, Hn, Rmult_1_r.
  apply sqrt_Rsqr_abs.
Qed.

(** The scipy quaternion of the rotation vector [a * n] for a unit [n]. *)
Lemma from_rotvec_unit_axis (a : R) (n : vec3) :
  sumsq n = 1 ->
  Scipy.from_rotvec (scale a n)
  = Scipy.Rot (sin (a / 2) * v_0 n) (sin (a / 2) * v_1 n) (sin (a / 2) * v_2 n)
              (cos (a / 2)).
Proof.
  intros Hn. unfold Scipy.from_rotvec. rewrite (norm_scale_unit a n Hn).
  assert (Hc : cos (Rabs a / 2) = cos (a / 2)).
  { unfold Rabs. destruct (Rcase_abs a); [|reflexivity].
    replace (- a / 2) with (- (a / 2)) by field. apply cos_neg. }
  assert (Hs : forall x, sin (Rabs a / 2) / Rabs a * (a * x) = sin (a / 2) * x).
  { intros x. destruct (Rtotal_order a 0) as [Hlt|[Heq|Hgt]].
    - rewrite (Rabs_left a Hlt).
      replace (- a / 2) with (- (a / 2)) by field. rewrite sin_neg. field. lra.
    - subst a. rewrite Rabs_R0.
      replace (0 / 2) with 0 by field. rewrite sin_0. unfold Rdiv. ring.
    - rewrite (Rabs_pos_eq a) by lra. field. lra. }
  destruct n as [n0 n1 n2]. cbn [scale Column_vec3 v_0 v_1 v_2].
  rewrite Hc, !Hs. reflexivity.
Qed.

(** X7: for a nonzero axis, normalised or not, and an angle strictly
    between -PI and PI, [quatOfAngleAxis] returns the unit quaternion
    [cos (angle / 2), sin (angle / 2) * axis / |axis|], whose scalar is
    positive. *)
Theorem quatOfAngleAxis_half_angle (angle : R) (v : vec3) :
  v <> Vec3 0 0 0 ->
  - PI < angle < PI ->
  exists q,
    quatOfAngleAxis (AngleScalar angle) [v] = Ok [q] /\
    q = Quat (cos (angle / 2))
             (sin (angle / 2) * (/ norm v * v_0 v))
             (sin (angle / 2) * (/ norm v * v_1 v))
             (sin (angle / 2) * (/ norm v * v_2 v)) /\
    unit_quat q /\ 0 < q_0 q.
Proof.
  intros Hv [Hlo Hhi].
  pose proof (sumsq_unit_vec3 v Hv) as Hn.
  assert (Hc : 0 < cos (angle / 2)) by (apply cos_gt_0; lra).
  eexists. split; [|split; [reflexivity|]].
  - unfold quatOfAngleAxis. cbn [length Nat.eqb repeat hd bind].
    unfold unitVector. cbn [map from_rotvec_rows bind].
    rewrite (from_rotvec_unit_axis angle _ Hn).
    unfold _scipy_rotation_to_quat. cbn [map Scipy.rw Scipy.rx Scipy.ry Scipy.rz q_0].
    destruct (np_sign_cases (cos (angle / 2))) as (Hp & _). rewrite (Hp Hc).
    rewrite scale_1_quat. destruct v; reflexivity.
  - split; [|exact Hc].
    destruct v as [x y z]. remember (/ norm (Vec3 x y z)) as k eqn:Hk.
    cbn [sumsq Column_vec3 scale v_0 v_1 v_2] in Hn.
    unfold unit_quat. cbn [sumsq Column_quat q_0 q_1 q_2 q_3 v_0 v_1 v_2].
    pose proof (sin2_cos2 (angle / 2)) as Hsc. unfold Rsqr in Hsc.
    remember (sin (angle / 2)) as s. remember (cos (angle / 2)) as c.
    transitivity (c * c + s * s * (k * x * (k * x) + k * y * (k * y) + k * z * (k * z)));
      [ring|].
    rewrite Hn. lra.
Qed.

Lemma quatOfAngleAxis_half_angle_witness :
  Vec3 0 3 4 <> Vec3 0 0 0 /\ - PI < 0 < PI /\
  exists q,
    quatOfAngleAxis (AngleScalar 0) [Vec3 0 3 4] = Ok [q] /\
    q = Quat (cos (0 / 2))
             (sin (0 / 2) * (/ norm (Vec3 0 3 4) * 0))
             (sin (0 / 2) * (/ norm (Vec3 0 3 4) * 3))
             (sin (0 / 2) * (/ norm (Vec3 0 3 4) * 4)) /\
    unit_quat q /\ 0 < q_0 q.
Proof.
  assert (Hv : Vec3 0 3 4 <> Vec3 0 0 0)
    by (intros E; apply (f_equal v_1) in E; cbn in E; lra).
  assert (Ha : - PI < 0 < PI) by (pose proof PI_RGT_0; lra).
  split; [exact Hv|]. split; [exact Ha|].
  exact (quatOfAngleAxis_half_angle 0 (Vec3 0 3 4) Hv Ha).
Defined.

(** The number of angles in the angle argument. *)
Lemma quatOfAngleAxis_columns (angle : angle_arg) (rotaxis : list vec3) (g : list quat) :
  quatOfAngleAxis angle rotaxis = Ok g ->
  length g = match angle with AngleScalar _ => 1%nat | AngleList a => length a end.
Proof.
  unfold quatOfAngleAxis, _scipy_rotation_to_quat, unitVector.
  destruct (Nat.eqb (length rotaxis) 1) eqn:E1.
  - cbn [bind].
    destruct (from_rotvec_rows _) as [rot|e] eqn:Er; cbn [bind]; [|discriminate].
    apply from_rotvec_rows_inv in Er. subst rot.
    intros H; inversion H. destruct angle as [a|a].
    + rewrite !length_map, repeat_length. reflexivity.
    + rewrite !length_map, length_combine, length_map, repeat_length. lia.
  - destruct angle as [a|a].
    + rewrite E1. cbn [negb bind]. discriminate.
    + destruct (Nat.eqb (length rotaxis) (length a)) eqn:E2; cbn [negb bind];
        [|discriminate].
      apply Nat.eqb_eq in E2.
      destruct (from_rotvec_rows _) as [rot|e] eqn:Er; cbn [bind]; [|discriminate].
      apply from_rotvec_rows_inv in Er. subst rot.
      intros H; inversion H.
      rewrite !length_map, length_combine, length_map. lia.
Qed.

(** The rotation vectors that [quatOfAngleAxis] hands to scipy, for axes
    that are tiled or as many as the angles. *)
Lemma rotvec_count (angle : angle_arg) (axes : list vec3) :
  let n := match angle with
           | AngleScalar _ => 1%nat
           | AngleList a => length a
           end in
  length axes = n ->
  length (match angle with
          | AngleScalar a => map (scale a) (unitVector axes)
          | AngleList a =>
              map (fun av => scale (fst av) (snd av))
                  (combine a (unitVector axes))
          end) = n.
Proof.
  intros n H. unfold unitVector. destruct angle as [a|a]; cbn in n.
  - rewrite !length_map. exact H.
  - rewrite length_map, length_combine, length_map. subst n. lia.
Qed.

(** X8: [quatOfAngleAxis] returns one quaternion per angle when there is at
    least one angle and it is given one axis, which it repeats, or as many
    axes as angles; it raises [RuntimeError] for any other number of axes;
    and for an empty list of angles, with one axis or none, it raises
    [ValueError], as scipy refuses an empty array of rotation vectors. *)
Theorem quatOfAngleAxis_shapes (angle : angle_arg) (rotaxis : list vec3) :
  let n := match angle with
           | AngleScalar _ => 1%nat
           | AngleList a => length a
           end in
  (n <> 0%nat -> length rotaxis = 1%nat \/ length rotaxis = n ->
   exists g, quatOfAngleAxis angle rotaxis = Ok g /\ length g = n) /\
  (length rotaxis <> 1%nat -> length rotaxis <> n ->
   quatOfAngleAxis angle rotaxis = Raise RuntimeError) /\
  (n = 0%nat -> length rotaxis = 1%nat \/ length rotaxis = n ->
   quatOfAngleAxis angle rotaxis = Raise ValueError).
Proof.
  intros n.
  assert (Haxes : length rotaxis = 1%nat \/ length rotaxis = n ->
                  exists axes,
                    (if Nat.eqb (length rotaxis) 1
                     then Ok (repeat (hd (Vec3 0 0 0) rotaxis) n)
                     else if negb (Nat.eqb (length rotaxis) n)
                          then Raise RuntimeError
                          else Ok rotaxis) = Ok axes /\
                    length axes = n).
  { intros H. destruct (Nat.eqb (length rotaxis) 1) eqn:E1.
    - eexists. split; [reflexivity | apply repeat_length].
    - apply Nat.eqb_neq in E1. destruct H as [H|H]; [congruence|].
      rewrite H, Nat.eqb_refl. cbn [negb]. eexists. split; [reflexivity | exact H]. }
  split; [|split].
  - intros Hn H. destruct (Haxes H) as (axes & Hax & Hlen).
    assert (Hr : exists g, quatOfAngleAxis angle rotaxis = Ok g).
    { unfold quatOfAngleAxis. fold n. rewrite Hax. cbn [bind].
      rewrite from_rotvec_rows_ok.
      - cbn [bind]. eexists; reflexivity.
      - pose proof (rotvec_count angle axes Hlen) as Hc. cbn zeta in Hc.
        intros E. rewrite E in Hc. cbn [length] in Hc. fold n in Hc. congruence. }
    destruct Hr as [g Hg]. exists g. split; [exact Hg|].
    apply (quatOfAngleAxis_columns _ _ _ Hg).
  - intros H1 Hn. unfold quatOfAngleAxis. fold n.
    apply Nat.eqb_neq in H1, Hn. rewrite H1, Hn. reflexivity.
  - intros Hn H. destruct (Haxes H) as (axes & Hax & Hlen).
    unfold quatOfAngleAxis. fold n. rewrite Hax. cbn [bind].
    pose proof (rotvec_count angle axes Hlen) as Hc. cbn zeta in Hc.
    fold n in Hc. rewrite Hn in Hc.
    destruct (match angle with
              | AngleScalar a => map (scale a) (unitVector axes)
              | AngleList a =>
                  map (fun av => scale (fst av) (snd av))
                      (combine a (unitVector axes))
              end) as [|v l]; [reflexivity | discriminate].
Qed.

Lemma quatOfAngleAxis_shapes_witness :
  (3%nat <> 0%nat /\
   (length [Vec3 0 0 1] = 1%nat \/ length [Vec3 0 0 1] = 3%nat) /\
   exists g, quatOfAngleAxis (AngleList [0; 1; 2]) [Vec3 0 0 1] = Ok g /\
             length g = 3%nat) /\
  (length [Vec3 0 0 1; Vec3 0 1 0] <> 1%nat /\
   length [Vec3 0 0 1; Vec3 0 1 0] <> 3%nat /\
   quatOfAngleAxis (AngleList [0; 1; 2]) [Vec3 0 0 1; Vec3 0 1 0]
   = Raise RuntimeError) /\
  (0%nat = 0%nat /\
   (length [Vec3 0 0 1] = 1%nat \/ length [Vec3 0 0 1] = 0%nat) /\
   quatOfAngleAxis (AngleList []) [Vec3 0 0 1] = Raise ValueError).
Proof.
  assert (H3 : 3%nat <> 0%nat) by discriminate.
  assert (H : length [Vec3 0 0 1] = 1%nat \/ length [Vec3 0 0 1] = 3%nat)
    by (left; reflexivity).
  assert (H' : length [Vec3 0 0 1] = 1%nat \/ length [Vec3 0 0 1] = 0%nat)
    by (left; reflexivity).
  assert (Ha : length [Vec3 0 0 1; Vec3 0 1 0] <> 1%nat) by discriminate.
  assert (Hb : length [Vec3 0 0 1; Vec3 0 1 0] <> 3%nat) by discriminate.
  destruct (quatOfAngleAxis_shapes (AngleList [0; 1; 2]) [Vec3 0 0 1])
    as (P1 & _ & _).
  destruct (quatOfAngleAxis_shapes (AngleList [0; 1; 2])
              [Vec3 0 0 1; Vec3 0 1 0]) as (_ & P2 & _).
  destruct (quatOfAngleAxis_shapes (AngleList []) [Vec3 0 0 1])
    as (_ & _ & P3).
  split; [split; [exact H3 | split; [exact H | exact (P1 H3 H)]]|].
  split; [split; [exact Ha | split; [exact Hb | exact (P2 Ha Hb)]]|].
  split; [reflexivity | split; [exact H' | exact (P3 eq_refl H')]].
Defined.

(** ** Facts on the symmetry tables *)

Lemma lower_ascii_idem (c : ascii) : lower_ascii (lower_ascii c) = lower_ascii c.
Proof. destruct c as [[] [] [] [] [] [] [] []]; reflexivity. Qed.

Lemma lower_idem (s : string) : lower (lower s) = lower s.
Proof.
  induction s as [|c s IH]; [reflexivity|].
  cbn [lower]. rewrite lower_ascii_idem, IH. reflexivity.
Qed.

Ltac split_tag_tests :=
  repeat match goal with
         | |- context [String.eqb ?a ?b] =>
             let E := fresh "E" in
             destruct (String.eqb a b) eqn:E;
             [apply String.eqb_eq in E; right; rewrite E; simpl; auto 20|]
         end.

Lemma laue_angleAxis_domain (tag : string) :
  laue_angleAxis tag = Raise RuntimeError \/ In (lower tag) laue_tags.
Proof.
  unfold laue_angleAxis, laue_tags. cbn zeta.
  split_tag_tests. left; reflexivity.
Qed.

Lemma ltypeOfLaueGroup_domain (tag : string) :
  ltypeOfLaueGroup tag = Raise RuntimeError \/ In (lower tag) laue_tags.
Proof.
  unfold ltypeOfLaueGroup, laue_tags. cbn zeta.
  split_tag_tests. left; reflexivity.
Qed.

Lemma ltypeOfLaueGroup_recognised (tag : string) :
  In (lower tag) laue_tags -> exists l, ltypeOfLaueGroup tag = Ok l.
Proof.
  intros H. unfold ltypeOfLaueGroup, laue_tags in *. cbn [In] in H.
  repeat (destruct H as [H|H]; [rewrite <- H; eexists; reflexivity|]).
  destruct H.
Qed.

(** X9: [quatOfLaueGroup] and [ltypeOfLaueGroup] recognise the same tags,
    the fourteen of the docstring without regard to letter case: both
    return for such a tag, both raise [RuntimeError] for any other string,
    and both give for a tag what they give for its lower-case form. *)
Theorem laue_tags_recognised (tag : string) :
  (In (lower tag) laue_tags ->
   (exists g, quatOfLaueGroup tag = Ok g) /\
   (exists l, ltypeOfLaueGroup tag = Ok l)) /\
  (~ In (lower tag) laue_tags ->
   quatOfLaueGroup tag = Raise RuntimeError /\
   ltypeOfLaueGroup tag = Raise RuntimeError) /\
  quatOfLaueGroup (lower tag) = quatOfLaueGroup tag /\
  ltypeOfLaueGroup (lower tag) = ltypeOfLaueGroup tag.
Proof.
  split; [|split; [|split]].
  - intros H. split.
    + apply quatOfLaueGroup_recognised. exact H.
    + apply ltypeOfLaueGroup_recognised, H.
  - intros H. split.
    + unfold quatOfLaueGroup.
      destruct (laue_angleAxis_domain tag) as [E|E]; [|contradiction].
      rewrite E. reflexivity.
    + destruct (ltypeOfLaueGroup_domain tag) as [E|E]; [exact E | contradiction].
  - unfold quatOfLaueGroup, laue_angleAxis. rewrite lower_idem. reflexivity.
  - unfold ltypeOfLaueGroup. rewrite lower_idem. reflexivity.
Qed.

Lemma laue_tags_recognised_witness :
  (In (lower "D6h") laue_tags /\
   (exists g, quatOfLaueGroup "D6h" = Ok g) /\
   (exists l, ltypeOfLaueGroup "D6h" = Ok l)) /\
  (~ In (lower "c1") laue_tags /\
   quatOfLaueGroup "c1" = Raise RuntimeError /\
   ltypeOfLaueGroup "c1" = Raise RuntimeError).
Proof.
  assert (H1 : In (lower "D6h") laue_tags) by (simpl; auto 20).
  assert (H2 : ~ In (lower "c1") laue_tags).
  { simpl. intros H. repeat (destruct H as [H|H]; [discriminate H|]). exact H. }
  split; (split; [assumption|]).
  - exact (proj1 (laue_tags_recognised "D6h") H1).
  - exact (proj1 (proj2 (laue_tags_recognised "c1")) H2).
Defined.

(** The quaternion that [_scipy_rotation_to_quat] makes of the rotation
    vector [0 * n] is the identity. *)
Lemma rotation_to_quat_angle0 (n : vec3) :
  _scipy_rotation_to_quat [Scipy.from_rotvec (scale 0 n)] = [identity_quat].
Proof.
  assert (Hn : norm (scale 0 n) = 0).
  { unfold norm. rewrite sumsq_scale_vec3.
    replace (0 * 0 * sumsq n) with 0 by ring. apply sqrt_0. }
  unfold Scipy.from_rotvec. rewrite Hn.
  replace (0 / 2) with 0 by field. rewrite cos_0.
  unfold _scipy_rotation_to_quat. cbn [map Scipy.rw Scipy.rx Scipy.ry Scipy.rz q_0].
  destruct (np_sign_cases 1) as (Hp & _). rewrite Hp by lra.
  destruct n as [x y z]. unfold identity_quat; cbn. f_equal. apply quat_eq; ring.
Qed.

Lemma first_rotvec_zero (a : list R) (v : vec3) (ax : list vec3) :
  _scipy_rotation_to_quat
    (map Scipy.from_rotvec
         (map (fun av => scale (fst av) (snd av))
              (combine (0 :: a) (unitVector (v :: ax)))))
  = identity_quat
      :: _scipy_rotation_to_quat
           (map Scipy.from_rotvec
                (map (fun av => scale (fst av) (snd av))
                     (combine a (unitVector ax)))).
Proof.
  change (_scipy_rotation_to_quat
            (map Scipy.from_rotvec
                 (map (fun av => scale (fst av) (snd av))
                      (combine (0 :: a) (unitVector (v :: ax))))))
    with (_scipy_rotation_to_quat
            [Scipy.from_rotvec (scale 0 (scale (/ norm v) v))]
          ++ _scipy_rotation_to_quat
               (map Scipy.from_rotvec
                    (map (fun av => scale (fst av) (snd av))
                         (combine a (unitVector ax))))).
  rewrite rotation_to_quat_angle0. reflexivity.
Qed.

Lemma first_rotvec_rows (a0 : R) (a : list R) (v : vec3) (ax : list vec3) :
  from_rotvec_rows
    (map (fun av => scale (fst av) (snd av))
         (combine (a0 :: a) (unitVector (v :: ax))))
  = Ok (map Scipy.from_rotvec
            (map (fun av => scale (fst av) (snd av))
                 (combine (a0 :: a) (unitVector (v :: ax))))).
Proof. apply from_rotvec_rows_ok. discriminate. Qed.

(** A first angle of 0 gives the identity as first quaternion, whatever the
    axis. *)
Lemma quatOfAngleAxis_first_identity
      (angles : list R) (rotaxis : list vec3) (g : list quat) :
  quatOfAngleAxis (AngleList (0 :: angles)) rotaxis = Ok g ->
  exists rest, g = identity_quat :: rest.
Proof.
  unfold quatOfAngleAxis.
  destruct (Nat.eqb (length rotaxis) 1) eqn:E1; cbn [bind].
  - change (repeat (hd (Vec3 0 0 0) rotaxis) (length (0 :: angles)))
      with (hd (Vec3 0 0 0) rotaxis
            :: repeat (hd (Vec3 0 0 0) rotaxis) (length angles)).
    rewrite first_rotvec_rows. cbn [bind].
    rewrite first_rotvec_zero. intros H. injection H as H.
    eexists. symmetry. exact H.
  - destruct (Nat.eqb (length rotaxis) (length (0 :: angles))) eqn:E2;
      cbn [negb bind]; [|discriminate].
    destruct rotaxis as [|v rotaxis]; [discriminate|].
    rewrite first_rotvec_rows. cbn [bind].
    rewrite first_rotvec_zero. intros H. injection H as H.
    eexists. symmetry. exact H.
Qed.

Lemma laue_angleAxis_first (tag : string) (aa : list quat) :
  laue_angleAxis tag = Ok aa -> exists rest, aa = Quat 0 1 0 0 :: rest.
Proof.
  unfold laue_angleAxis.
  repeat match goal with
         | |- context [if ?b then _ else _] => destruct b
         end;
    intros H; inversion H; eexists; reflexivity.
Qed.

Lemma quatOfLaueGroup_first_identity (tag : string) (g : list quat) :
  quatOfLaueGroup tag = Ok g -> exists rest, g = identity_quat :: rest.
Proof.
  unfold quatOfLaueGroup.
  destruct (laue_angleAxis tag) as [aa|e] eqn:E; cbn [bind]; [|discriminate].
  destruct (laue_angleAxis_first _ _ E) as [rest ->]. cbn [map q_0].
  apply quatOfAngleAxis_first_identity.
Qed.

(** X10: every group that [quatOfLaueGroup] returns begins with the identity
    quaternion, and the groups have the orders of the docstring: 1 for Ci
    (S2), 2 for C2h, 4 for D2h (Vh) and C4h, 8 for D4h, 3 for C3i (S6), 6
    for D3d and C6h, 12 for D6h and Th, 24 for Oh. *)
Theorem quatOfLaueGroup_orders :
  (forall tag g, quatOfLaueGroup tag = Ok g ->
                 hd (Quat 0 0 0 0) g = identity_quat /\ In identity_quat g) /\
  Forall (fun tn => exists g, quatOfLaueGroup (fst tn) = Ok g /\
                              length g = snd tn)
         [("ci", 1); ("s2", 1); ("c2h", 2); ("d2h", 4); ("vh", 4); ("c4h", 4);
          ("d4h", 8); ("c3i", 3); ("s6", 3); ("d3d", 6); ("c6h", 6);
          ("d6h", 12); ("th", 12); ("oh", 24)]%string%nat.
Proof.
  split.
  - intros tag g H. destruct (quatOfLaueGroup_first_identity _ _ H) as [rest ->].
    split; [reflexivity | left; reflexivity].
  - repeat constructor; cbn [fst snd]; eexists; split; reflexivity.
Qed.

Lemma quatOfLaueGroup_orders_witness :
  exists g, quatOfLaueGroup "Oh" = Ok g /\
            hd (Quat 0 0 0 0) g = identity_quat /\ In identity_quat g.
Proof.
  destruct (quatOfLaueGroup_recognised "Oh") as [g Hg]; [simpl; auto 20|].
  exists g. split; [exact Hg|].
  exact (proj1 quatOfLaueGroup_orders "Oh"%string g Hg).
Defined.

(** ** More on toFundamentalRegion *)

(** What [toFundamentalRegion] computes without sample symmetry, for a
    non-empty group: nothing for an empty batch, and the selection
    otherwise. *)
Lemma toFundamentalRegion_run (q : qarray) (crysSym : symmetry) (gc : list quat) :
  symmetry_quats crysSym = Ok gc ->
  gc <> [] ->
  let sel := map (fun qj => pick (fixed_class gc qj)) (columns q) in
  toFundamentalRegion q crysSym None
  = if Nat.eqb (length (columns q)) 0 then Raise IndexError
    else match q with
         | Q2 _ => Ok (Q2 sel)
         | Q3 n3 blocks => Ok (Q3 n3 (unflatten3 (length blocks) n3 sel))
         end.
Proof.
  intros Hsym Hg sel. unfold toFundamentalRegion. rewrite Hsym. cbn [bind].
  change (quatProductMatrix gc "right") with (Ok (map right_matrix gc)).
  cbn [bind].
  pose proof (select_representatives gc (columns q) Hg) as Hs.
  cbn zeta in Hs.
  destruct (argmax_axis0 _ _) as [amax|e]; cbn [bind] in *; [|discriminate].
  destruct (Nat.eqb (length (columns q)) 0); [reflexivity|].
  rewrite Hs. cbn [bind]. destruct q; reflexivity.
Qed.

Lemma nonempty_length {A : Type} (l : list A) :
  l <> [] -> Nat.eqb (length l) 0 = false.
Proof. destruct l; [congruence | reflexivity]. Qed.

Lemma toFundamentalRegion_empty_group (q : qarray) (crysSym : symmetry) :
  symmetry_quats crysSym = Ok [] ->
  toFundamentalRegion q crysSym None = Raise ValueError.
Proof.
  intros Hsym. unfold toFundamentalRegion. rewrite Hsym. reflexivity.
Qed.

Lemma pick_fixed_class_fixed (gc : list quat) (qj : quat) :
  gc <> [] -> fix1 (pick (fixed_class gc qj)) = pick (fixed_class gc qj).
Proof.
  intros Hg.
  assert (Hc : fixed_class gc qj <> []).
  { unfold fixed_class, sym_class. destruct gc; [congruence | discriminate]. }
  destruct (pick_spec _ Hc) as (_ & Hin & _).
  unfold fixed_class in Hin at 2. apply in_map_iff in Hin.
  destruct Hin as (x & Hx & _). rewrite <- Hx. apply fix1_idem.
Qed.

(** A run through a half turn: under the tag [c2h] the quaternion
    [[3/5, 0, 4/5, 0]] is not kept but mapped to the member of its class of
    larger scalar, its product with the half turn about the second axis,
    sign-fixed. *)
Lemma toFundamentalRegion_c2h_half_turn :
  let c := cos (np_pi / 2) in
  let s := sin (np_pi / 2) in
  toFundamentalRegion (Q2 [h_c3]) (SymTag "c2h") None
  = Ok (Q2 [Quat (4 / 5 * s - 3 / 5 * c) 0 (- (3 / 5 * s + 4 / 5 * c)) 0]) /\
  3 / 5 < 4 / 5 * s - 3 / 5 * c.
Proof.
  intros c s.
  pose proof cos_half_np_pi_bounds as Hc. fold c in Hc.
  assert (Hc' : 0 < c < 1 / 10).
  { assert (H17 : 7 / 10 ^ 17 < 1 / 10) by lra. lra. }
  pose proof np_pi_lt_PI as Hpi.
  assert (Hs0 : 0 < s) by (apply sin_gt_0; lra).
  pose proof (sin2_cos2 (np_pi / 2)) as Hsc. unfold Rsqr in Hsc.
  fold c s in Hsc.
  assert (Hs : 9 / 10 < s) by nra.
  assert (Hlt : 3 / 5 < 4 / 5 * s - 3 / 5 * c) by lra.
  split; [|exact Hlt].
  rewrite (toFundamentalRegion_run (Q2 [h_c3]) (SymTag "c2h") _
             quatOfLaueGroup_c2h) by discriminate.
  cbn [columns length Nat.eqb map]. do 3 f_equal.
  fold c s.
  assert (Hclass : fixed_class [identity_quat; Quat c 0 s 0] h_c3
                   = [h_c3;
                      Quat (4 / 5 * s - 3 / 5 * c) 0
                           (- (3 / 5 * s + 4 / 5 * c)) 0]).
  { unfold fixed_class, sym_class. cbn [map].
    rewrite hamilton_identity_r. f_equal; [|f_equal].
    - rewrite fix1_of_unit by (unfold h_c3; cbn; lra).
      apply flip_of_nonneg. unfold h_c3; cbn; lra.
    - assert (Hh : hamilton h_c3 (Quat c 0 s 0)
                   = Quat (3 / 5 * c - 4 / 5 * s) 0 (3 / 5 * s + 4 / 5 * c) 0).
      { unfold hamilton, h_c3; cbn. apply quat_eq; ring. }
      rewrite Hh. rewrite fix1_of_unit by (cbn; nra).
      unfold flip_negative. cbn [q_0].
      rewrite (proj2 (Rltb_true _ _)) by lra.
      cbn. apply quat_eq; ring. }
  rewrite Hclass. unfold pick, argmax_idx. cbn [map q_0 argmax_from].
  unfold h_c3 at 1. cbn [q_0].
  rewrite (proj2 (Rltb_true _ _) Hlt). reflexivity.
Qed.

(** X11: under the trivial symmetry, given as the batch holding the identity
    quaternion or as the tag Ci or S2 in any letter case,
    [toFundamentalRegion] is [fixQuat] on every array that holds at least
    one quaternion, flat or 3-D; on an array that holds none it raises
    [IndexError]. *)
Theorem toFundamentalRegion_trivial_group (q : qarray) (crysSym : symmetry) :
  crysSym = SymGroup [identity_quat] \/
  (exists tag, crysSym = SymTag tag /\
               (lower tag = "ci"%string \/ lower tag = "s2"%string)) ->
  (columns q <> [] -> toFundamentalRegion q crysSym None = Ok (fixQuat q)) /\
  (columns q = [] -> toFundamentalRegion q crysSym None = Raise IndexError).
Proof.
  intros H.
  assert (Hsym : symmetry_quats crysSym = Ok [identity_quat]).
  { destruct H as [->|(tag & -> & Ht)]; [reflexivity|].
    cbn [symmetry_quats].
    destruct (quatOfLaueGroup_recognised tag) as [g Hg].
    { destruct Ht as [-> | ->]; simpl; auto 20. }
    destruct (quatOfLaueGroup_first_identity _ _ Hg) as [rest ->].
    rewrite Hg. do 2 f_equal.
    assert (Hl : length (identity_quat :: rest) = 1%nat).
    { revert Hg. unfold quatOfLaueGroup, laue_angleAxis.
      destruct Ht as [-> | ->]; cbn [String.eqb Ascii.eqb Bool.eqb orb bind];
        intros Hg; apply quatOfAngleAxis_list_length in Hg; exact Hg. }
    destruct rest; [reflexivity | discriminate]. }
  rewrite (toFundamentalRegion_run q crysSym [identity_quat] Hsym)
    by discriminate.
  split.
  - intros Hq. rewrite (nonempty_length _ Hq).
    assert (Hsel : map (fun qj => pick (fixed_class [identity_quat] qj)) (columns q)
                   = fixQuat_flat (columns q)).
    { rewrite fixQuat_flat_map. apply map_ext. intros qj.
      unfold fixed_class, sym_class. cbn [map]. rewrite hamilton_identity_r.
      reflexivity. }
    rewrite Hsel. destruct q; reflexivity.
  - intros ->. reflexivity.
Qed.

Lemma toFundamentalRegion_trivial_group_witness :
  (SymTag "Ci" = SymGroup [identity_quat] \/
   (exists tag, SymTag "Ci" = SymTag tag /\
                (lower tag = "ci"%string \/ lower tag = "s2"%string))) /\
  (columns (Q3 1 [[q_c3]; [Quat (-2) 0 0 0]]) <> [] /\
   toFundamentalRegion (Q3 1 [[q_c3]; [Quat (-2) 0 0 0]]) (SymTag "Ci") None
   = Ok (fixQuat (Q3 1 [[q_c3]; [Quat (-2) 0 0 0]]))) /\
  (columns (Q3 2 []) = [] /\
   toFundamentalRegion (Q3 2 []) (SymTag "Ci") None = Raise IndexError).
Proof.
  assert (H : SymTag "Ci" = SymGroup [identity_quat] \/
              (exists tag, SymTag "Ci" = SymTag tag /\
                           (lower tag = "ci"%string \/ lower tag = "s2"%string))).
  { right. exists "Ci"%string. split; [reflexivity | left; reflexivity]. }
  assert (Hq : columns (Q3 1 [[q_c3]; [Quat (-2) 0 0 0]]) <> []) by discriminate.
  split; [exact H|]. split.
  - split; [exact Hq|].
    exact (proj1 (toFundamentalRegion_trivial_group
                    (Q3 1 [[q_c3]; [Quat (-2) 0 0 0]]) (SymTag "Ci") H) Hq).
  - split; [reflexivity|].
    exact (proj2 (toFundamentalRegion_trivial_group (Q3 2 []) (SymTag "Ci") H)
                 eq_refl).
Defined.

Lemma toFundamentalRegion_returns (q : qarray) (g : symmetry) :
  match g with SymGroup (_ :: _) => True | _ => False end ->
  columns q <> [] ->
  exists qr, toFundamentalRegion q g None = Ok qr.
Proof.
  destruct g as [t|[|s gc]]; intros H Hq; try destruct H.
  rewrite (toFundamentalRegion_run q (SymGroup (s :: gc)) (s :: gc) eq_refl)
    by discriminate.
  rewrite (nonempty_length _ Hq).
  destruct q; eexists; reflexivity.
Qed.

(** X12: what [toFundamentalRegion] returns is already normalised and
    sign-fixed: [fixQuat] leaves it as it is. *)
Theorem toFundamentalRegion_fixed (q qr : qarray) (crysSym : symmetry) :
  wf_qarray q ->
  toFundamentalRegion q crysSym None = Ok qr ->
  fixQuat qr = qr.
Proof.
  intros Hwf Hrun.
  destruct (symmetry_quats crysSym) as [gc|e] eqn:Hsym.
  2:{ unfold toFundamentalRegion in Hrun. rewrite Hsym in Hrun. discriminate. }
  destruct gc as [|s gc].
  { rewrite (toFundamentalRegion_empty_group q crysSym Hsym) in Hrun. discriminate. }
  rewrite (toFundamentalRegion_run q crysSym (s :: gc) Hsym) in Hrun by discriminate.
  cbn zeta in Hrun.
  destruct (Nat.eqb (length (columns q)) 0); [discriminate|].
  set (sel := map (fun qj => pick (fixed_class (s :: gc) qj)) (columns q)) in *.
  assert (Hfix : fixQuat_flat sel = sel).
  { rewrite fixQuat_flat_map. unfold sel. rewrite map_map.
    apply map_ext. intros qj. apply pick_fixed_class_fixed. discriminate. }
  destruct q as [cols|n3 blocks]; inversion Hrun; subst qr; cbn [fixQuat].
  - rewrite Hfix. reflexivity.
  - unfold unflatten3, flatten3. rewrite reshape_rows_length.
    rewrite concat_reshape_rows.
    + rewrite Hfix. reflexivity.
    + unfold sel. rewrite length_map. cbn [columns]. unfold flatten3.
      apply length_concat_uniform. exact Hwf.
Qed.

Lemma toFundamentalRegion_fixed_witness :
  wf_qarray (Q2 [Quat 0 0 2 0; h_c3]) /\
  exists qr,
    toFundamentalRegion (Q2 [Quat 0 0 2 0; h_c3])
                        (SymGroup [identity_quat; Quat 0 1 0 0]) None = Ok qr /\
    fixQuat qr = qr.
Proof.
  split; [exact I|].
  assert (Hq : columns (Q2 [Quat 0 0 2 0; h_c3]) <> []) by discriminate.
  destruct (toFundamentalRegion_returns
              (Q2 [Quat 0 0 2 0; h_c3]) (SymGroup [identity_quat; Quat 0 1 0 0])
              I Hq)
    as [qr Hqr].
  exists qr. split; [exact Hqr|].
  exact (toFundamentalRegion_fixed (Q2 [Quat 0 0 2 0; h_c3]) qr
           (SymGroup [identity_quat; Quat 0 1 0 0]) I Hqr).
Defined.

(** X13: the failures of [toFundamentalRegion]: a tag that is none of the
    fourteen raises [RuntimeError] whatever the array and with or without a
    sample symmetry, and an empty batch of symmetry quaternions raises
    [ValueError] when the maximum of the empty classes is asked for. *)
Theorem toFundamentalRegion_failures
  (q : qarray) (tag : string) (sampSym : option symmetry) :
  (~ In (lower tag) laue_tags ->
   toFundamentalRegion q (SymTag tag) sampSym = Raise RuntimeError) /\
  toFundamentalRegion q (SymGroup []) None = Raise ValueError.
Proof.
  split.
  - intros H. unfold toFundamentalRegion, symmetry_quats, quatOfLaueGroup.
    destruct (laue_angleAxis_domain tag) as [E|E]; [|contradiction].
    rewrite E. reflexivity.
  - apply toFundamentalRegion_empty_group. reflexivity.
Qed.

Lemma toFundamentalRegion_failures_witness :
  ~ In (lower "T") laue_tags /\
  toFundamentalRegion (Q2 [q_c3]) (SymTag "T") None = Raise RuntimeError.
Proof.
  assert (H : ~ In (lower "T") laue_tags).
  { simpl. intros H. repeat (destruct H as [H|H]; [discriminate H|]). exact H. }
  split; [exact H|].
  exact (proj1 (toFundamentalRegion_failures (Q2 [q_c3]) "T" None) H).
Defined.

(** ** More on misorientation *)












Lemma mapM_length {A B : Type} (f : A -> result B) (l : list A) (r : list B) :
  mapM f l = Ok r -> length r = length l.
Proof.
  revert r. induction l as [|a l IH]; intros r; cbn [mapM].
  - intros H; inversion H; reflexivity.
  - destruct (f a); cbn [bind]; [|discriminate].
    destruct (mapM f l); cbn [bind]; [|discriminate].
    intros H; inversion H. cbn. rewrite (IH _ eq_refl). reflexivity.
Qed.







(** X15: the failures of [misorientation]: a reference that is not a single
    column raises [RuntimeError]; for a single reference, a tuple of more
    than two symmetries raises [RuntimeError], an empty tuple [IndexError],
    and an empty crystal or sample symmetry array [ValueError], from the
    maximum over an empty class. *)
Theorem misorientation_failures
  (q1 q2 : list quat) (args rest : list (list (list quat))) :
  (length q1 <> 1%nat -> misorientation q1 q2 args = Raise RuntimeError) /\
  (length q1 = 1%nat ->
   (forall a b c more,
      misorientation q1 q2 ((a :: b :: c :: more) :: rest) = Raise RuntimeError) /\
   misorientation q1 q2 ([] :: rest) = Raise IndexError /\
   (forall c s, c = [] \/ s = [] ->
                misorientation q1 q2 ([c; s] :: rest) = Raise ValueError)).
Proof.
  split.
  - intros H. unfold misorientation. apply Nat.eqb_neq in H. rewrite H. reflexivity.
  - intros H. destruct q1 as [|q [|q' q1]]; try discriminate.
    split; [reflexivity|]. split; [reflexivity|].
    intros c s Hcs. unfold misorientation. cbn [length Nat.eqb negb bind fst snd].
    rewrite invertQuat_single.
    change (quatProductMatrix [fix1 (negate_scalar q)] "right")
      with (Ok [right_matrix (fix1 (negate_scalar q))]).
    change (quatProductMatrix c "right") with (Ok (map right_matrix c)).
    change (quatProductMatrix s "left") with (Ok (map left_matrix s)).
    cbn [bind]. unfold max_axis0.
    assert (Hz : Nat.eqb (length s * length c) 0 = true).
    { apply Nat.eqb_eq. destruct Hcs as [-> | ->]; cbn; lia. }
    rewrite Hz. reflexivity.
Qed.

Lemma misorientation_failures_witness :
  (length [q_c3; h_c3] <> 1%nat /\
   misorientation [q_c3; h_c3] [q_c3] [] = Raise RuntimeError) /\
  (length [q_c3] = 1%nat /\
   misorientation [q_c3] [h_c3] [[]] = Raise IndexError /\
   misorientation [q_c3] [h_c3] [[[]; [identity_quat]]] = Raise ValueError).
Proof.
  assert (H2 : length [q_c3; h_c3] <> 1%nat) by (cbn; lia).
  assert (H1 : length [q_c3] = 1%nat) by reflexivity.
  split; (split; [assumption|]).
  - exact (proj1 (misorientation_failures [q_c3; h_c3] [q_c3] [] []) H2).
  - destruct (proj2 (misorientation_failures [q_c3] [h_c3] [] []) H1)
      as (_ & Hi & Hv).
    split; [exact Hi|]. apply Hv. left; reflexivity.
Defined.

(** ** More on the angular difference *)

Lemma np_mod_range (x p : R) : 0 < p -> 0 <= np_mod x p < p.
Proof.
  intros Hp. unfold np_mod.
  destruct (base_Int_part (x / p)) as [Hlo Hhi].
  assert (Hx : x = x / p * p) by (field; lra).
  split.
  - assert (IZR (Int_part (x / p)) * p <= x / p * p)
      by (apply Rmult_le_compat_r; lra).
    lra.
  - assert (x / p * p < (IZR (Int_part (x / p)) + 1) * p)
      by (apply Rmult_lt_compat_r; lra).
    lra.
Qed.

Lemma orig_period (units : string) (period : R) :
  dict_get periodDict units = Ok period ->
  (if String.eqb units "radians" then Ok (2 * PI)
   else if String.eqb units "degrees" then Ok 360
        else Raise RuntimeError) = Ok period.
Proof.
  intros H. destruct (periodDict_recognized _ _ H) as [[-> ->]|[-> ->]]; reflexivity.
Qed.

(** X16: for recognised units every entry that [angularDifference_orig]
    returns lies between 0 and half the period, whatever the angles. *)
Theorem angularDifference_orig_range
  (units : string) (period : R) (a0 a1 r : list R) :
  dict_get periodDict units = Ok period ->
  angularDifference_orig a0 a1 units = Ok r ->
  Forall (fun x => 0 <= x <= period / 2) r.
Proof.
  intros Hu. pose proof (period_pos _ _ Hu) as Hp.
  unfold angularDifference_orig. rewrite (orig_period _ _ Hu). cbn [bind].
  destruct (broadcast2 Rminus a0 a1) as [d|e]; cbn [bind]; [|discriminate].
  intros H; inversion H; subst r. apply Forall_map, Forall_forall.
  intros x _.
  pose proof (np_mod_range (x + 5 / 10 * period) period Hp) as [Hlo Hhi].
  split; [apply Rabs_pos|]. apply Rabs_le. lra.
Qed.

Lemma angularDifference_orig_range_witness :
  dict_get periodDict "degrees" = Ok 360 /\
  angularDifference_orig [0] [1080] "degrees" = Ok [0] /\
  Forall (fun x => 0 <= x <= 360 / 2) [0].
Proof.
  assert (H : angularDifference_orig [0] [1080] "degrees" = Ok [0]).
  { cbn. do 2 f_equal.
    rewrite (np_mod_eq _ 360 (-3)); [|lra|lra].
    replace (0 - 1080 + 5 / 10 * 360 - -3 * 360 - 5 / 10 * 360) with 0 by lra.
    apply Rabs_R0. }
  split; [reflexivity|]. split; [exact H|].
  exact (angularDifference_orig_range "degrees" 360 [0] [1080] [0] eq_refl H).
Defined.

Lemma combine_agree (p : R) (a0 a1 : list R) :
  0 < p ->
  Forall2 (fun x0 x1 => Rabs (x1 - x0) <= p) a0 a1 ->
  map (fun d => Rmin d (p - d))
      (map (fun xy => Rabs (fst xy - snd xy)) (combine a1 a0))
  = map (fun d => Rabs (np_mod (d + 5 / 10 * p) p - 5 / 10 * p))
        (map (fun xy => fst xy - snd xy) (combine a0 a1)).
Proof.
  intros Hp H. induction H as [|x0 x1 a0 a1 Hx _ IH]; [reflexivity|].
  cbn [combine map fst snd]. rewrite IH. f_equal.
  symmetry. apply angularDifference_agree_within_period; assumption.
Qed.

(** X17: on arrays of one length whose entries differ by at most one period,
    place by place, the optimised [angularDifference_opt] returns what
    [angularDifference_orig] returns. *)
Theorem angularDifference_opt_is_orig_within_period
  (units : string) (period : R) (a0 a1 : list R) :
  dict_get periodDict units = Ok period ->
  Forall2 (fun x0 x1 => Rabs (x1 - x0) <= period) a0 a1 ->
  angularDifference_opt a0 a1 units = angularDifference_orig a0 a1 units.
Proof.
  intros Hu H. pose proof (period_pos _ _ Hu) as Hp.
  pose proof (Forall2_length H) as Hl.
  unfold angularDifference_opt, angularDifference_orig.
  rewrite Hu, (orig_period _ _ Hu). cbn [bind].
  unfold broadcast2. rewrite Hl, !Nat.eqb_refl. cbn [bind].
  f_equal. apply combine_agree; assumption.
Qed.

Lemma angularDifference_opt_is_orig_within_period_witness :
  dict_get periodDict "degrees" = Ok 360 /\
  Forall2 (fun x0 x1 => Rabs (x1 - x0) <= 360) [10; 350] [350; -10] /\
  angularDifference_opt [10; 350] [350; -10] "degrees"
  = angularDifference_orig [10; 350] [350; -10] "degrees".
Proof.
  assert (H : Forall2 (fun x0 x1 => Rabs (x1 - x0) <= 360) [10; 350] [350; -10]).
  { constructor; [|constructor; [|constructor]].
    - rewrite Rabs_pos_eq; lra.
    - rewrite Rabs_left; lra. }
  split; [reflexivity|]. split; [exact H|].
  exact (angularDifference_opt_is_orig_within_period
           "degrees" 360 [10; 350] [350; -10] eq_refl H).
Defined.

(** X18: the letter case of the units matters to some functions only: for
    units that are ['degrees'] or ['radians'] up to letter case but not
    written in lower case, [mapAngle] works as for the lower-case name,
    while [angularDifference_orig] raises [RuntimeError] and
    [angularDifference_opt] raises [KeyError], whatever the angles. *)
Theorem units_letter_case (units : string) (fuel : nat) (ang a0 a1 : list R) :
  In (lower units) ["degrees"; "radians"]%string ->
  units <> lower units ->
  (exists r, mapAngle fuel ang [] [("units"%string, units)] = Some (Ok r) /\
             mapAngle fuel ang [] [("units"%string, lower units)] = Some (Ok r)) /\
  angularDifference_orig a0 a1 units = Raise RuntimeError /\
  angularDifference_opt a0 a1 units = Raise KeyError.
Proof.
  intros Hin Hne.
  assert (Hr : units <> "radians"%string).
  { intros ->. apply Hne. reflexivity. }
  assert (Hd : units <> "degrees"%string).
  { intros ->. apply Hne. reflexivity. }
  apply String.eqb_neq in Hr, Hd.
  split; [|split].
  - unfold mapAngle, mapAngle_period.
    cbn [mapAngle_units String.eqb Ascii.eqb Bool.eqb bind].
    rewrite lower_idem.
    destruct Hin as [<- | [<- | []]].
    + rewrite String.eqb_refl. eexists. split; reflexivity.
    + destruct (String.eqb (lower units) "degrees"); cbn [negb];
        rewrite ?String.eqb_refl; cbn [negb]; eexists; split; reflexivity.
  - unfold angularDifference_orig. rewrite Hr, Hd. reflexivity.
  - unfold angularDifference_opt. cbn [dict_get periodDict].
    rewrite Hr, Hd. reflexivity.
Qed.

Lemma units_letter_case_witness :
  In (lower "Degrees") ["degrees"; "radians"]%string /\
  "Degrees"%string <> lower "Degrees" /\
  (exists r, mapAngle 0 [370] [] [("units", "Degrees")]%string = Some (Ok r) /\
             mapAngle 0 [370] [] [("units"%string, lower "Degrees")] = Some (Ok r)) /\
  angularDifference_orig [0] [90] "Degrees" = Raise RuntimeError /\
  angularDifference_opt [0] [90] "Degrees" = Raise KeyError.
Proof.
  assert (Hin : In (lower "Degrees") ["degrees"; "radians"]%string).
  { left. reflexivity. }
  assert (Hne : "Degrees"%string <> lower "Degrees") by discriminate.
  split; [exact Hin|]. split; [exact Hne|].
  exact (units_letter_case "Degrees" 0 [370] [0] [90] Hin Hne).
Defined.

(** ** Facts on the checks of Euler-angle arguments *)

Lemma existsb_eqb_In (s : string) (l : list string) :
  existsb (String.eqb s) l = true <-> In s l.
Proof.
  rewrite existsb_exists. split.
  - intros (x & Hin & Hx). apply String.eqb_eq in Hx. subst. exact Hin.
  - intros Hin. exists s. split; [exact Hin | apply String.eqb_refl].
Qed.

Lemma axes_orders_lower (s : string) : In s axes_orders -> lower s = s.
Proof.
  unfold axes_orders. cbn [In]. intros H.
  repeat (destruct H as [H|H]; [subst s; reflexivity|]). destruct H.
Qed.

(** X19: [_check_axes_order] returns the argument in lower case exactly when
    that is one of the twelve axes orders, and raises [RuntimeError]
    otherwise; what it returns it accepts again unchanged.  The twelve
    orders are all the strings of three letters among x, y, z in which
    neighbouring letters differ. *)
Theorem check_axes_order_accepts (x : string) :
  (In (lower x) axes_orders ->
   _check_axes_order x = Ok (lower x) /\
   _check_axes_order (lower x) = Ok (lower x)) /\
  (~ In (lower x) axes_orders -> _check_axes_order x = Raise RuntimeError) /\
  (forall a b c : ascii,
     In a ["x"; "y"; "z"]%char -> In b ["x"; "y"; "z"]%char ->
     In c ["x"; "y"; "z"]%char ->
     (In (three_letters a b c) axes_orders <-> a <> b /\ b <> c)).
Proof.
  split; [|split].
  - intros H. unfold _check_axes_order. cbn zeta.
    rewrite (axes_orders_lower _ H).
    rewrite (proj2 (existsb_eqb_In _ _) H). split; reflexivity.
  - intros H. unfold _check_axes_order. cbn zeta.
    destruct (existsb _ axes_orders) eqn:E; [|reflexivity].
    apply existsb_eqb_In in E. contradiction.
  - intros a b c Ha Hb Hc. cbn [In] in Ha, Hb, Hc.
    destruct Ha as [<-|[<-|[<-|[]]]];
      destruct Hb as [<-|[<-|[<-|[]]]];
      destruct Hc as [<-|[<-|[<-|[]]]];
      unfold three_letters, axes_orders; cbn [In];
      (split;
       [ intros H; split; try discriminate;
         repeat (destruct H as [H|H]; [discriminate H|]); destruct H
       | intros [H1 H2]; try congruence; auto 20 ]).
Qed.

Lemma check_axes_order_accepts_witness :
  (In (lower "ZXz") axes_orders /\
   _check_axes_order "ZXz" = Ok (lower "ZXz") /\
   _check_axes_order (lower "ZXz") = Ok (lower "ZXz")) /\
  (~ In (lower "xxy") axes_orders /\
   _check_axes_order "xxy" = Raise RuntimeError).
Proof.
  assert (H1 : In (lower "ZXz") axes_orders) by (simpl; auto 20).
  assert (H2 : ~ In (lower "xxy") axes_orders).
  { simpl. intros H. repeat (destruct H as [H|H]; [discriminate H|]). exact H. }
  split; (split; [assumption|]).
  - exact (proj1 (check_axes_order_accepts "ZXz") H1).
  - exact (proj1 (proj2 (check_axes_order_accepts "xxy")) H2).
Defined.

Lemma det3_mmul3 (A B : mat3) : det3 (mmul3 A B) = det3 A * det3 B.
Proof.
  destruct A as [[a b c] [d e f] [g h i]], B as [[a' b' c'] [d' e' f'] [g' h' i']].
  unfold det3, mmul3, transpose3, vdot; cbn. ring.
Qed.

Lemma det3_transpose3 (A : mat3) : det3 (transpose3 A) = det3 A.
Proof.
  destruct A as [[a b c] [d e f] [g h i]]. unfold det3, transpose3; cbn. ring.
Qed.

Lemma det3_I3 : det3 I3 = 1.
Proof. unfold det3, I3; cbn. ring. Qed.

Lemma orthogonal_det (x : mat3) :
  mmul3 x (transpose3 x) = I3 -> Rabs (det3 x) = 1.
Proof.
  intros H. apply (f_equal det3) in H.
  rewrite det3_mmul3, det3_transpose3, det3_I3 in H.
  assert (Hd : det3 x = 1 \/ det3 x = -1) by nra.
  destruct Hd as [-> | ->]; [apply Rabs_R1|].
  rewrite Rabs_left; lra.
Qed.

Lemma sum_abs3_zero : sum_abs3 (msub3 I3 I3) = 0.
Proof.
  unfold sum_abs3, msub3, I3; cbn.
  replace (1 - 1) with 0 by ring. replace (0 - 0) with 0 by ring.
  rewrite Rabs_R0. ring.
Qed.

(** X20: with a positive tolerance [_check_is_rmat] accepts every orthogonal
    matrix, proper or improper, and returns it unchanged; in particular it
    accepts each matrix that [rotMatOfQuat] makes of a unit quaternion, and
    it accepts the reflection diag(1, 1, -1), of determinant -1. *)
Theorem check_is_rmat_accepts_orthogonal (sqrt_epsf : R) (x : mat3) :
  0 < sqrt_epsf ->
  (mmul3 x (transpose3 x) = I3 -> _check_is_rmat sqrt_epsf x = Ok x) /\
  (forall q, unit_quat q ->
             _check_is_rmat sqrt_epsf (rotmat1 q) = Ok (rotmat1 q)) /\
  _check_is_rmat sqrt_epsf (Mat3 (Vec3 1 0 0) (Vec3 0 1 0) (Vec3 0 0 (-1)))
  = Ok (Mat3 (Vec3 1 0 0) (Vec3 0 1 0) (Vec3 0 0 (-1))).
Proof.
  intros He.
  assert (Hmain : forall y, mmul3 y (transpose3 y) = I3 ->
                            _check_is_rmat sqrt_epsf y = Ok y).
  { intros y Hy. unfold _check_is_rmat. cbn zeta.
    rewrite (orthogonal_det y Hy), Hy, sum_abs3_zero.
    replace (1 - 1) with 0 by ring.
    rewrite (proj2 (Rltb_true 0 sqrt_epsf) He). reflexivity. }
  split; [apply Hmain|]. split.
  - intros q Hq. apply Hmain.
    destruct (rotmat1_gram q) as (H1 & _). rewrite H1.
    unfold unit_quat in Hq. rewrite Hq. unfold I3. apply mat3_eq; ring.
  - apply Hmain. unfold mmul3, transpose3, vdot, I3; cbn. apply mat3_eq; ring.
Qed.

Lemma check_is_rmat_accepts_orthogonal_witness :
  0 < / 2 ^ 26 /\
  _check_is_rmat (/ 2 ^ 26) (rotmat1 q_c3) = Ok (rotmat1 q_c3).
Proof.
  assert (He : 0 < / 2 ^ 26) by (apply Rinv_0_lt_compat, pow_lt; lra).
  split; [exact He|].
  apply (proj1 (proj2 (check_is_rmat_accepts_orthogonal (/ 2 ^ 26) I3 He))).
  unfold unit_quat, q_c3; cbn; lra.
Defined.

(** ** More on discreteFiber *)

Lemma mapM_total {A B : Type} (f : A -> result B) (l : list A) :
  Forall (fun a => exists b, f a = Ok b) l -> exists r, mapM f l = Ok r.
Proof.
  induction 1 as [|a l [b Hb] _ [r IH]]; cbn [mapM].
  - eexists; reflexivity.
  - rewrite Hb, IH. cbn [bind]. eexists; reflexivity.
Qed.

Lemma quatOfAngleAxis_same_count (angles : list R) (rotaxis : list vec3) :
  angles <> [] ->
  length rotaxis = length angles ->
  exists g, quatOfAngleAxis (AngleList angles) rotaxis = Ok g.
Proof.
  intros Ha H.
  assert (Hrows : forall axes,
             length axes = length angles ->
             exists rot,
               from_rotvec_rows
                 (map (fun av => scale (fst av) (snd av))
                      (combine angles (unitVector axes))) = Ok rot).
  { intros axes Hl. eexists. apply from_rotvec_rows_ok.
    destruct angles as [|a angles]; [congruence|].
    destruct axes as [|v axes]; discriminate. }
  unfold quatOfAngleAxis.
  destruct (Nat.eqb (length rotaxis) 1); cbn [bind].
  - destruct (Hrows (repeat (hd (Vec3 0 0 0) rotaxis) (length angles)))
      as [rot Hrot]; [apply repeat_length|].
    rewrite Hrot. cbn [bind]. eexists; reflexivity.
  - rewrite H, Nat.eqb_refl. cbn [negb bind].
    destruct (Hrows rotaxis H) as [rot Hrot].
    rewrite Hrot. cbn [bind]. eexists; reflexivity.
Qed.

Lemma filter_all_true (l : list bool) :
  Forall (eq true) l -> length (filter (fun b => b) l) = length l.
Proof.
  induction 1 as [|b l Hb _ IH]; [reflexivity|]. subst b. cbn. rewrite IH. reflexivity.
Qed.

Lemma filter_all_false (l : list bool) :
  Forall (eq false) l -> length (filter (fun b => b) l) = 0%nat.
Proof.
  induction 1 as [|b l Hb _ IH]; [reflexivity|]. subst b. cbn. exact IH.
Qed.

(** The axes are computed when no bisector vanishes, and when all do and
    the null space has a column. *)
Lemma fiber_axes_uniform (sqrt_epsf : R) (nullSpace : vec3 -> list vec3)
      (c_i : vec3) (s : list vec3) :
  Forall (eq true) (okay_mask sqrt_epsf c_i s) \/
  (Forall (eq false) (okay_mask sqrt_epsf c_i s) /\ nullSpace c_i <> []) ->
  exists ax, fiber_axes sqrt_epsf nullSpace c_i s = Ok ax /\ length ax = length s.
Proof.
  intros H. unfold fiber_axes. fold (okay_mask sqrt_epsf c_i s).
  assert (Hlen : length (okay_mask sqrt_epsf c_i s) = length s).
  { unfold okay_mask, columnNorm. rewrite !length_map. reflexivity. }
  destruct H as [Ht|[Hf Hn]].
  - rewrite (filter_all_true _ Ht), Hlen, Nat.eqb_refl.
    eexists. split; [reflexivity|].
    unfold columnNorm. rewrite length_map, length_combine, !length_map. lia.
  - rewrite (filter_all_false _ Hf).
    destruct (Nat.eqb 0 (length s)) eqn:E.
    + eexists. split; [reflexivity|].
      unfold columnNorm. rewrite length_map, length_combine, !length_map. lia.
    + destruct (nullSpace c_i) as [|h hs]; [congruence|]. cbn [bind Nat.eqb].
      eexists. split; [reflexivity | apply repeat_length].
Qed.

Lemma discreteFiber_cons
      (sqrt_epsf : R) (nullSpace : vec3 -> list vec3) (c0 : vec3)
      (c s : list vec3) (B : mat3) (ndiv : nat) (invert : bool)
      (csym ssym : option symmetry) :
  discreteFiber sqrt_epsf nullSpace (c0 :: c) s B ndiv invert csym ssym
  = (b <- fiber_one sqrt_epsf nullSpace
                    (scale (/ norm (dot3 B c0)) (dot3 B c0))
                    (unitVector s) ndiv csym ssym ;;
     bs <- discreteFiber sqrt_epsf nullSpace c s B ndiv invert csym ssym ;;
     Ok (b :: bs)).
Proof. reflexivity. Qed.

(** X21: without crystal symmetry [discreteFiber] returns one fiber per
    crystal direction, rather than raising, when [ndiv] is at least 1 and,
    for each direction, either no bisector of [s] and [c] vanishes or all of
    them do and [nullSpace] gives a column; with [ndiv = 0] the division for
    the angular step raises [ZeroDivisionError] for the first direction. *)
Theorem discreteFiber_returns
  (sqrt_epsf : R) (nullSpace : vec3 -> list vec3)
  (c s : list vec3) (B : mat3) (ndiv : nat) (invert : bool) :
  Forall (fun c_i =>
            Forall (eq true) (okay_mask sqrt_epsf c_i (unitVector s)) \/
            (Forall (eq false) (okay_mask sqrt_epsf c_i (unitVector s)) /\
             nullSpace c_i <> []))
         (unitVector (map (dot3 B) c)) ->
  (ndiv <> 0%nat ->
   exists fibers,
     discreteFiber sqrt_epsf nullSpace c s B ndiv invert None None = Ok fibers /\
     length fibers = length c) /\
  (ndiv = 0%nat -> c <> [] ->
   discreteFiber sqrt_epsf nullSpace c s B ndiv invert None None
   = Raise ZeroDivisionError).
Proof.
  intros Hall. split.
  - intros Hn.
    assert (Hone : Forall (fun c_i => exists f,
                             fiber_one sqrt_epsf nullSpace c_i (unitVector s)
                                       ndiv None None = Ok f)
                          (unitVector (map (dot3 B) c))).
    { eapply Forall_impl; [|exact Hall]. cbn beta. intros c_i Hc.
      destruct (fiber_axes_uniform _ _ _ _ Hc) as (ax & Hax & _).
      unfold fiber_one. rewrite Hax. cbn [bind].
      apply Nat.eqb_neq in Hn. rewrite Hn. cbn [bind].
      destruct (quatOfAngleAxis_same_count
                  (map (fun k => INR k * (2 * np_pi / INR ndiv)) (seq 0 ndiv))
                  (repeat c_i ndiv)) as [qh Hqh].
      { apply Nat.eqb_neq in Hn. destruct ndiv; [congruence | discriminate]. }
      { rewrite repeat_length, length_map, length_seq. reflexivity. }
      rewrite Hqh. cbn [bind].
      change (quatProductMatrix qh "right") with (Ok (map right_matrix qh)).
      cbn [bind fixQuat]. eexists; reflexivity. }
    destruct (mapM_total _ _ Hone) as [fibers Hf].
    exists fibers. unfold discreteFiber. split; [exact Hf|].
    apply mapM_length in Hf. rewrite Hf. unfold unitVector.
    rewrite !length_map. reflexivity.
  - intros -> Hc. destruct c as [|c0 c]; [congruence|].
    rewrite discreteFiber_cons.
    change (unitVector (map (dot3 B) (c0 :: c)))
      with (scale (/ norm (dot3 B c0)) (dot3 B c0)
            :: unitVector (map (dot3 B) c)) in Hall.
    apply Forall_inv in Hall.
    destruct (fiber_axes_uniform _ _ _ _ Hall) as (ax & Hax & _).
    unfold fiber_one. rewrite Hax. reflexivity.
Qed.

Lemma unitVector_of_unit_vec3 (v : vec3) :
  sumsq v = 1 -> scale (/ norm v) v = v.
Proof.
  intros H. unfold norm. rewrite H, sqrt_1, Rinv_1.
  destruct v; cbn. apply vec3_eq; ring.
Qed.

Lemma dot3_I3 (v : vec3) : dot3 I3 v = v.
Proof. destruct v. unfold dot3, I3, vdot; cbn. apply vec3_eq; ring. Qed.

Lemma discreteFiber_returns_witness :
  Forall (fun c_i =>
            Forall (eq true)
                   (okay_mask (/ 2 ^ 26) c_i (unitVector [Vec3 1 0 0])) \/
            (Forall (eq false)
                    (okay_mask (/ 2 ^ 26) c_i (unitVector [Vec3 1 0 0])) /\
             (fun _ : vec3 => [Vec3 0 1 0]) c_i <> []))
         (unitVector (map (dot3 I3) [Vec3 0 0 1; Vec3 (-1) 0 0])) /\
  (4%nat <> 0%nat /\
   exists fibers,
     discreteFiber (/ 2 ^ 26) (fun _ => [Vec3 0 1 0])
                   [Vec3 0 0 1; Vec3 (-1) 0 0] [Vec3 1 0 0] I3 4 false None None
     = Ok fibers /\
     length fibers = length [Vec3 0 0 1; Vec3 (-1) 0 0]) /\
  (0%nat = 0%nat /\ [Vec3 0 0 1; Vec3 (-1) 0 0] <> [] /\
   discreteFiber (/ 2 ^ 26) (fun _ => [Vec3 0 1 0])
                 [Vec3 0 0 1; Vec3 (-1) 0 0] [Vec3 1 0 0] I3 0 false None None
   = Raise ZeroDivisionError).
Proof.
  assert (He : 0 < / 2 ^ 26 < 1).
  { split; [apply Rinv_0_lt_compat; lra|].
    rewrite <- Rinv_1. apply Rinv_lt_contravar; lra. }
  assert (Hs : unitVector [Vec3 1 0 0] = [Vec3 1 0 0]).
  { unfold unitVector. cbn [map]. rewrite unitVector_of_unit_vec3; [reflexivity|].
    cbn. ring. }
  assert (Hc : unitVector (map (dot3 I3) [Vec3 0 0 1; Vec3 (-1) 0 0])
               = [Vec3 0 0 1; Vec3 (-1) 0 0]).
  { unfold unitVector. cbn [map]. rewrite !dot3_I3.
    rewrite !unitVector_of_unit_vec3; [reflexivity | cbn; ring | cbn; ring]. }
  assert (H : Forall (fun c_i =>
            Forall (eq true)
                   (okay_mask (/ 2 ^ 26) c_i (unitVector [Vec3 1 0 0])) \/
            (Forall (eq false)
                    (okay_mask (/ 2 ^ 26) c_i (unitVector [Vec3 1 0 0])) /\
             (fun _ : vec3 => [Vec3 0 1 0]) c_i <> []))
         (unitVector (map (dot3 I3) [Vec3 0 0 1; Vec3 (-1) 0 0]))).
  { rewrite Hs, Hc. constructor; [|constructor; [|constructor]].
    - (* the bisector of x and z does not vanish *)
      left. unfold okay_mask, columnNorm, Rgtb. cbn [map].
      constructor; [|constructor]. symmetry. apply Rltb_true.
      unfold norm; cbn.
      replace ((1 + 0) * (1 + 0) + (0 + 0) * (0 + 0) + (0 + 1) * (0 + 1))
        with 2 by ring.
      assert (H1 : sqrt 1 < sqrt 2) by (apply sqrt_lt_1_alt; lra).
      rewrite sqrt_1 in H1. lra.
    - (* the bisector of x and -x vanishes *)
      right. split; [|discriminate].
      unfold okay_mask, columnNorm, Rgtb. cbn [map].
      constructor; [|constructor]. symmetry. apply Rltb_false.
      unfold norm; cbn.
      replace ((1 + -1) * (1 + -1) + (0 + 0) * (0 + 0) + (0 + 0) * (0 + 0))
        with 0 by ring.
      rewrite sqrt_0. lra. }
  assert (H4 : 4%nat <> 0%nat) by discriminate.
  assert (Hne : [Vec3 0 0 1; Vec3 (-1) 0 0] <> []) by discriminate.
  destruct (discreteFiber_returns (/ 2 ^ 26) (fun _ => [Vec3 0 1 0])
              [Vec3 0 0 1; Vec3 (-1) 0 0] [Vec3 1 0 0] I3 4 false H)
    as (P1 & _).
  destruct (discreteFiber_returns (/ 2 ^ 26) (fun _ => [Vec3 0 1 0])
              [Vec3 0 0 1; Vec3 (-1) 0 0] [Vec3 1 0 0] I3 0 false H)
    as (_ & P2).
  split; [exact H|]. split; [split; [exact H4 | exact (P1 H4)]|].
  split; [reflexivity|]. split; [exact Hne | exact (P2 eq_refl Hne)].
Defined.

(** ** Facts on mapAngle *)

Lemma mapAngle_period_pos (kwargs : list (string * string)) (period : R) :
  mapAngle_period kwargs = Ok period -> 0 < period.
Proof.
  unfold mapAngle_period. destruct (mapAngle_units kwargs "radians") as [u|e];
    cbn [bind]; [|discriminate].
  destruct (String.eqb (lower u) "degrees").
  - intros H; inversion H. lra.
  - destruct (String.eqb (lower u) "radians"); cbn [negb]; [|discriminate].
    intros H; inversion H. pose proof PI_RGT_0. lra.
Qed.

Lemma existsb_false_Forall (f : R -> bool) (l : list R) :
  existsb f l = false -> Forall (fun x => f x = false) l.
Proof.
  induction l as [|x l IH]; cbn [existsb]; [constructor|].
  intros H. apply orb_false_iff in H. destruct H as [Hx Hl].
  constructor; [exact Hx | apply IH, Hl].
Qed.

Lemma Forall2_map_l {A B C : Type} (f : A -> B) (P : B -> C -> Prop)
      (l : list A) (r : list C) :
  Forall2 P (map f l) r -> Forall2 (fun x y => P (f x) y) l r.
Proof.
  revert r. induction l as [|a l IH]; intros r H; inversion H; subst;
    constructor; auto.
Qed.

Lemma Forall2_same {A : Type} (P : A -> A -> Prop) (l : list A) :
  Forall (fun x => P x x) l -> Forall2 P l l.
Proof. induction 1; constructor; assumption. Qed.

Lemma Forall2_weaken {A B : Type} (P Q : A -> B -> Prop) (l : list A) (r : list B) :
  (forall x y, In x l -> P x y -> Q x y) -> Forall2 P l r -> Forall2 Q l r.
Proof.
  intros H HF. induction HF as [|x y l r Hxy _ IH]; constructor.
  - apply H; [left; reflexivity | exact Hxy].
  - apply IH. intros; apply H; [right|]; assumption.
Qed.

Lemma Forall2_compose {A B C : Type} (P : A -> B -> Prop) (Q : B -> C -> Prop)
      (l : list A) (m : list B) (r : list C) :
  Forall2 P l m -> Forall2 Q m r ->
  Forall2 (fun x z => exists y, P x y /\ Q y z) l r.
Proof.
  intros H. revert r. induction H as [|x y l m Hxy _ IH]; intros r HQ;
    inversion HQ; subst; constructor; eauto.
Qed.

(** The first loop ends within [fuel] rounds when [fuel] periods lift every
    entry to the lower bound; every entry is then at least [lb], has moved
    up by whole periods, and is below [lb + period] if it has moved. *)
Lemma raise_to_spec (lb p : R) (fuel : nat) (ang : list R) :
  0 < p ->
  Forall (fun x => lb <= x + INR fuel * p) ang ->
  exists r, raise_to fuel lb p ang = Some r /\
            Forall2 (fun x y => lb <= y /\
                                (exists k : nat, y = x + INR k * p) /\
                                (y = x \/ y < lb + p)) ang r.
Proof.
  intros Hp. revert ang. induction fuel as [|fuel IH]; intros ang Hall.
  - assert (Hge : Forall (fun x => lb <= x) ang).
    { eapply Forall_impl; [|exact Hall]. cbn. intros x Hx. lra. }
    cbn [raise_to]. destruct (existsb _ ang) eqn:E.
    + apply existsb_exists in E. destruct E as (x & Hin & Hx).
      apply Rltb_true in Hx. rewrite Forall_forall in Hge.
      specialize (Hge x Hin). lra.
    + exists ang. split; [reflexivity|]. apply Forall2_same.
      eapply Forall_impl; [|exact Hge]. cbn beta. intros x Hx.
      split; [exact Hx|]. split; [exists 0%nat; cbn; ring | left; reflexivity].
  - cbn [raise_to]. destruct (existsb _ ang) eqn:E.
    + destruct (IH (map (fun x => if Rltb x lb then x + p else x) ang))
        as (r & Hr & HF).
      { apply Forall_map. eapply Forall_impl; [|exact Hall]. cbn beta.
        intros x Hx. rewrite S_INR in Hx.
        assert (0 <= INR fuel) by apply pos_INR.
        destruct (Rltb x lb) eqn:Ex.
        - lra.
        - apply Rltb_false in Ex. nra. }
      exists r. split; [exact Hr|].
      apply Forall2_map_l in HF.
      eapply Forall2_weaken; [|exact HF]. cbn beta.
      intros x y _ (Hy & (k & Hk) & Hd).
      split; [exact Hy|]. destruct (Rltb x lb) eqn:Ex.
      * apply Rltb_true in Ex. split.
        -- exists (S k). rewrite S_INR, Hk. ring.
        -- right. destruct Hd as [-> | Hd]; lra.
      * split; [exists k; exact Hk | exact Hd].
    + apply existsb_false_Forall in E.
      exists ang. split; [reflexivity|]. apply Forall2_same.
      eapply Forall_impl; [|exact E]. cbn beta. intros x Hx.
      apply Rltb_false in Hx.
      split; [exact Hx|]. split; [exists 0%nat; cbn; ring | left; reflexivity].
Qed.

Lemma lower_to_spec (ub p : R) (fuel : nat) (ang : list R) :
  0 < p ->
  Forall (fun x => x - INR fuel * p <= ub) ang ->
  exists r, lower_to fuel ub p ang = Some r /\
            Forall2 (fun x y => y <= ub /\
                                (exists k : nat, y = x - INR k * p) /\
                                (y = x \/ ub - p < y)) ang r.
Proof.
  intros Hp. revert ang. induction fuel as [|fuel IH]; intros ang Hall.
  - assert (Hle : Forall (fun x => x <= ub) ang).
    { eapply Forall_impl; [|exact Hall]. cbn. intros x Hx. lra. }
    cbn [lower_to]. destruct (existsb _ ang) eqn:E.
    + apply existsb_exists in E. destruct E as (x & Hin & Hx).
      apply Rltb_true in Hx. rewrite Forall_forall in Hle.
      specialize (Hle x Hin). lra.
    + exists ang. split; [reflexivity|]. apply Forall2_same.
      eapply Forall_impl; [|exact Hle]. cbn beta. intros x Hx.
      split; [exact Hx|]. split; [exists 0%nat; cbn; ring | left; reflexivity].
  - cbn [lower_to]. destruct (existsb _ ang) eqn:E.
    + destruct (IH (map (fun x => if Rgtb x ub then x - p else x) ang))
        as (r & Hr & HF).
      { apply Forall_map. eapply Forall_impl; [|exact Hall]. cbn beta.
        intros x Hx. rewrite S_INR in Hx.
        assert (0 <= INR fuel) by apply pos_INR.
        destruct (Rgtb x ub) eqn:Ex.
        - lra.
        - apply Rltb_false in Ex. nra. }
      exists r. split; [exact Hr|].
      apply Forall2_map_l in HF.
      eapply Forall2_weaken; [|exact HF]. cbn beta.
      intros x y _ (Hy & (k & Hk) & Hd).
      split; [exact Hy|]. destruct (Rgtb x ub) eqn:Ex.
      * apply Rltb_true in Ex. split.
        -- exists (S k). rewrite S_INR, Hk. ring.
        -- right. destruct Hd as [-> | Hd]; lra.
      * split; [exists k; exact Hk | exact Hd].
    + apply existsb_false_Forall in E.
      exists ang. split; [reflexivity|]. apply Forall2_same.
      eapply Forall_impl; [|exact E]. cbn beta. intros x Hx.
      apply Rltb_false in Hx.
      split; [exact Hx|]. split; [exists 0%nat; cbn; ring | left; reflexivity].
Qed.

(** Enough rounds for both loops, for a given list. *)
Lemma enough_rounds (lb ub p : R) (l : list R) :
  0 < p ->
  exists N : nat,
    Forall (fun x => lb <= x + INR N * p /\ x - INR N * p <= ub) l.
Proof.
  intros Hp. induction l as [|x l [N IH]].
  - exists 0%nat. constructor.
  - destruct (INR_unbounded ((Rabs (lb - x) + Rabs (x - ub)) / p)) as [n Hn].
    assert (Hn' : Rabs (lb - x) + Rabs (x - ub) < INR n * p).
    { apply Rmult_gt_compat_r with (r := p) in Hn; [|lra].
      unfold Rdiv in Hn. rewrite Rmult_assoc, Rinv_l, Rmult_1_r in Hn; lra. }
    exists (n + N)%nat. rewrite plus_INR.
    pose proof (pos_INR n). pose proof (pos_INR N).
    pose proof (Rle_abs (lb - x)). pose proof (Rle_abs (x - ub)).
    pose proof (Rabs_pos (lb - x)). pose proof (Rabs_pos (x - ub)).
    assert (Hnp : 0 <= INR n * p) by (apply Rmult_le_pos; lra).
    assert (HNp : 0 <= INR N * p) by (apply Rmult_le_pos; lra).
    rewrite Rmult_plus_distr_r.
    constructor.
    + split; lra.
    + eapply Forall_impl; [|exact IH]. cbn beta. intros y [Hy1 Hy2].
      split; lra.
Qed.

Lemma rounds_monotone (lb ub p : R) (N fuel : nat) (l : list R) :
  0 < p -> (N <= fuel)%nat ->
  Forall (fun x => lb <= x + INR N * p /\ x - INR N * p <= ub) l ->
  Forall (fun x => lb <= x + INR fuel * p /\ x - INR fuel * p <= ub) l.
Proof.
  intros Hp Hle H. apply le_INR in Hle.
  eapply Forall_impl; [|exact H]. cbn beta. intros x [H1 H2]. split; nra.
Qed.

(** X22: without a range, [mapAngle] maps every angle into
    [[-period / 2, period / 2)] and moves it by a whole number of periods
    (360 for degrees, 2 PI for radians, the default). *)
Theorem mapAngle_centred (fuel : nat) (ang : list R)
        (kwargs : list (string * string)) (period : R) :
  mapAngle_period kwargs = Ok period ->
  exists r,
    mapAngle fuel ang [] kwargs = Some (Ok r) /\
    Forall2 (fun x y => - (period / 2) <= y < period / 2 /\
                        exists k : Z, y = x + IZR k * period) ang r.
Proof.
  intros Hper. pose proof (mapAngle_period_pos _ _ Hper) as Hp.
  unfold mapAngle. rewrite Hper. eexists. split; [reflexivity|].
  induction ang as [|x ang IH]; cbn [map]; constructor; [|exact IH].
  pose proof (np_mod_range (x + 5 / 10 * period) period Hp) as [Hlo Hhi].
  split; [lra|].
  exists (- Int_part ((x + 5 / 10 * period) / period))%Z.
  unfold np_mod. rewrite opp_IZR. ring.
Qed.

Lemma mapAngle_centred_witness :
  mapAngle_period [("units", "Degrees")]%string = Ok 360 /\
  exists r,
    mapAngle 0 [370; -190] [] [("units", "Degrees")]%string = Some (Ok r) /\
    Forall2 (fun x y => - (360 / 2) <= y < 360 / 2 /\
                        exists k : Z, y = x + IZR k * 360) [370; -190] r.
Proof.
  split; [reflexivity|].
  exact (mapAngle_centred 0 [370; -190] [("units", "Degrees")]%string 360 eq_refl).
Defined.

Lemma np_min_le_max (l : list R) (lb ub : R) :
  np_min l = Ok lb -> np_max l = Ok ub -> lb <= ub.
Proof.
  destruct l as [|x l]; [discriminate|]. cbn. intros H1 H2.
  inversion H1; inversion H2; subst.
  apply Rle_trans with x.
  - clear. revert x. induction l as [|y l IH]; intros x; cbn [fold_left]; [lra|].
    eapply Rle_trans; [apply IH | apply Rmin_l].
  - apply fold_left_Rmax_ge.
Qed.

(** Within the range of 64-bit integers the cast rounds toward zero. *)
Lemma nInt_in_range (x : R) : Rabs x < 2 ^ 63 -> nInt x = Some (trunc x).
Proof.
  intros Hx.
  assert (E : 2 ^ 63 = IZR (2 ^ 63)%Z).
  { rewrite (pow_IZR 2 63). reflexivity. }
  rewrite E in Hx.
  assert (Hb : (- 2 ^ 63 <= trunc x < 2 ^ 63)%Z).
  { unfold trunc. destruct (Rltb x 0) eqn:Ex.
    - apply Rltb_true in Ex. rewrite Rabs_left in Hx by exact Ex.
      destruct (base_Int_part (- x)) as [Hlo Hhi].
      assert (H0 : (-1 < Int_part (- x))%Z) by (apply lt_IZR; lra).
      assert (H1 : (Int_part (- x) < 2 ^ 63)%Z) by (apply lt_IZR; lra).
      lia.
    - apply Rltb_false in Ex. rewrite Rabs_pos_eq in Hx by lra.
      destruct (base_Int_part x) as [Hlo Hhi].
      assert (H0 : (-1 < Int_part x)%Z) by (apply lt_IZR; lra).
      assert (H1 : (Int_part x < 2 ^ 63)%Z) by (apply lt_IZR; lra).
      lia. }
  unfold nInt. cbn zeta.
  destruct Hb as [Hb1 Hb2].
  apply Z.leb_le in Hb1. apply Z.ltb_lt in Hb2.
  rewrite Hb1, Hb2. reflexivity.
Qed.

Lemma reduce_angles_in_range (period : R) (ang : list R) :
  Forall (fun x => Rabs (x / period) < 2 ^ 63) ang ->
  reduce_angles period ang
  = Some (map (fun x => x - IZR (trunc (x / period)) * period) ang).
Proof.
  induction 1 as [|x ang Hx _ IH]; cbn [reduce_angles map]; [reflexivity|].
  rewrite (nInt_in_range _ Hx), IH. reflexivity.
Qed.

(** X23: with a range whose ends are one period apart, and angles whose
    quotient by the period is within the 64-bit integers (below 2^63 in
    absolute value), [mapAngle] ends once its two loops are given enough
    rounds, and returns every angle inside the range [[lb, ub]], moved by a
    whole number of periods. *)
Theorem mapAngle_into_range (ang angRange : list R) (rest : list (list R))
        (kwargs : list (string * string)) (period lb ub : R) :
  mapAngle_period kwargs = Ok period ->
  np_min angRange = Ok lb ->
  np_max angRange = Ok ub ->
  Rabs (ub - lb) = period ->
  Forall (fun x => Rabs (x / period) < 2 ^ 63) ang ->
  exists fuel0 : nat,
    forall fuel, (fuel0 <= fuel)%nat ->
      exists r,
        mapAngle fuel ang (angRange :: rest) kwargs = Some (Ok r) /\
        Forall2 (fun x y => lb <= y <= ub /\
                            exists k : Z, y = x + IZR k * period) ang r.
Proof.
  intros Hper Hmin Hmax Habs Hcast.
  pose proof (mapAngle_period_pos _ _ Hper) as Hp.
  pose proof (np_min_le_max _ _ _ Hmin Hmax) as Hle.
  rewrite Rabs_pos_eq in Habs by lra.
  set (t := fun x => x - IZR (trunc (x / period)) * period).
  destruct (enough_rounds lb ub period (map t ang) Hp) as [N HN].
  exists N. intros fuel Hfuel.
  pose proof (rounds_monotone lb ub period N fuel _ Hp Hfuel HN) as HF.
  destruct (raise_to_spec lb period fuel (map t ang) Hp) as (r1 & Hr1 & H1).
  { eapply Forall_impl; [|exact HF]. cbn beta. intros x [H _]. exact H. }
  destruct (lower_to_spec ub period fuel r1 Hp) as (r2 & Hr2 & H2).
  { assert (Hb : Forall2 (fun x y => y - INR fuel * period <= ub) (map t ang) r1).
    { eapply Forall2_weaken; [|exact H1]. cbn beta.
      intros x y Hin (_ & _ & Hd).
      rewrite Forall_forall in HF. destruct (HF x Hin) as [_ Hx].
      pose proof (pos_INR fuel). destruct Hd as [-> | Hd]; [exact Hx | nra]. }
    clear - Hb. induction Hb; constructor; assumption. }
  exists r2. split.
  - unfold mapAngle. rewrite Hper, Hmin, Hmax.
    assert (Hq : Reqb (Rabs (ub - lb)) period = true).
    { unfold Reqb. rewrite Rabs_pos_eq by lra.
      destruct (Req_dec_T (ub - lb) period); [reflexivity | contradiction]. }
    rewrite Hq. cbn [negb]. rewrite (reduce_angles_in_range _ _ Hcast).
    fold t. rewrite Hr1, Hr2. reflexivity.
  - apply Forall2_map_l in H1.
    pose proof (Forall2_compose _ _ _ _ _ H1 H2) as H12.
    eapply Forall2_weaken; [|exact H12]. cbn beta.
    intros x z _ (y & (Hy & (k1 & Hk1) & _) & (Hz & (k2 & Hk2) & Hd)).
    split.
    + split; [|exact Hz]. destruct Hd as [-> | Hd]; lra.
    + exists (- trunc (x / period) + Z.of_nat k1 - Z.of_nat k2)%Z.
      rewrite Hk2, Hk1. unfold t.
      rewrite minus_IZR, plus_IZR, opp_IZR, <- !INR_IZR_INZ. ring.
Qed.

Lemma mapAngle_into_range_witness :
  mapAngle_period [] = Ok (2 * PI) /\
  np_min [0; 2 * PI] = Ok 0 /\ np_max [0; 2 * PI] = Ok (2 * PI) /\
  Rabs (2 * PI - 0) = 2 * PI /\
  Forall (fun x => Rabs (x / (2 * PI)) < 2 ^ 63) [- PI; 7] /\
  exists fuel0 : nat,
    forall fuel, (fuel0 <= fuel)%nat ->
      exists r,
        mapAngle fuel [- PI; 7] [[0; 2 * PI]] [] = Some (Ok r) /\
        Forall2 (fun x y => 0 <= y <= 2 * PI /\
                            exists k : Z, y = x + IZR k * (2 * PI)) [- PI; 7] r.
Proof.
  pose proof PI_RGT_0 as Hpi. pose proof PI2_3_2 as Hpi3.
  assert (Hmin : np_min [0; 2 * PI] = Ok 0).
  { cbn. f_equal. apply Rmin_left. lra. }
  assert (Hmax : np_max [0; 2 * PI] = Ok (2 * PI)).
  { cbn. f_equal. apply Rmax_right. lra. }
  assert (Habs : Rabs (2 * PI - 0) = 2 * PI).
  { rewrite Rabs_pos_eq; lra. }
  assert (H2 : 2 < 2 ^ 63).
  { replace 2 with (2 ^ 1) at 1 by ring. apply Rlt_pow; [lra | lia]. }
  assert (Hcast : Forall (fun x => Rabs (x / (2 * PI)) < 2 ^ 63) [- PI; 7]).
  { constructor; [|constructor; [|constructor]].
    - replace (- PI / (2 * PI)) with (- (1 / 2)) by (field; lra).
      rewrite Rabs_Ropp, Rabs_pos_eq; lra.
    - assert (H7 : 0 < 7 / (2 * PI) < 2).
      { split; [apply Rdiv_lt_0_compat; lra|].
        apply Rmult_lt_reg_r with (2 * PI); [lra|].
        unfold Rdiv. rewrite Rmult_assoc, Rinv_l by lra. lra. }
      rewrite Rabs_pos_eq; lra. }
  split; [reflexivity|]. split; [exact Hmin|]. split; [exact Hmax|].
  split; [exact Habs|]. split; [exact Hcast|].
  exact (mapAngle_into_range [- PI; 7] [0; 2 * PI] [] [] (2 * PI) 0 (2 * PI)
           eq_refl Hmin Hmax Habs Hcast).
Defined.

(** X24: the failures of [mapAngle], whatever the rounds given to its loops:
    a keyword other than [units], or units that are neither degrees nor
    radians in any letter case, raise [RuntimeError]; so does a range whose
    ends are not exactly one period apart; an empty range raises
    [ValueError]. *)
Theorem mapAngle_failures (fuel : nat) (ang angRange : list R)
        (args : list (list R)) (k v : string)
        (kwargs : list (string * string)) (period lb ub : R) :
  (k <> "units"%string ->
   mapAngle fuel ang args ((k, v) :: kwargs) = Some (Raise RuntimeError)) /\
  (lower v <> "degrees"%string -> lower v <> "radians"%string ->
   mapAngle fuel ang args [("units"%string, v)] = Some (Raise RuntimeError)) /\
  (mapAngle_period kwargs = Ok period ->
   mapAngle fuel ang ([] :: args) kwargs = Some (Raise ValueError)) /\
  (mapAngle_period kwargs = Ok period ->
   np_min angRange = Ok lb -> np_max angRange = Ok ub ->
   Rabs (ub - lb) <> period ->
   mapAngle fuel ang (angRange :: args) kwargs = Some (Raise RuntimeError)).
Proof.
  split; [|split; [|split]].
  - intros Hk. apply String.eqb_neq in Hk.
    unfold mapAngle, mapAngle_period. cbn [mapAngle_units]. rewrite Hk. reflexivity.
  - intros Hd Hr. apply String.eqb_neq in Hd, Hr.
    unfold mapAngle, mapAngle_period. cbn [mapAngle_units String.eqb Ascii.eqb Bool.eqb bind].
    rewrite Hd, Hr. reflexivity.
  - intros Hper. unfold mapAngle. rewrite Hper. reflexivity.
  - intros Hper Hmin Hmax Hne. unfold mapAngle. rewrite Hper, Hmin, Hmax.
    unfold Reqb. destruct (Req_dec_T (Rabs (ub - lb)) period); [contradiction|].
    reflexivity.
Qed.

Lemma mapAngle_failures_witness :
  ("period"%string <> "units"%string /\
   mapAngle 5 [1] [] [("period", "360")]%string = Some (Raise RuntimeError)) /\
  (lower "grad" <> "degrees"%string /\ lower "grad" <> "radians"%string /\
   mapAngle 5 [1] [] [("units", "grad")]%string = Some (Raise RuntimeError)) /\
  (mapAngle_period [("units", "degrees")]%string = Ok 360 /\
   mapAngle 5 [1] [[]] [("units", "degrees")]%string = Some (Raise ValueError)) /\
  (np_min [0; 180] = Ok 0 /\ np_max [0; 180] = Ok 180 /\
   Rabs (180 - 0) <> 360 /\
   mapAngle 5 [1] [[0; 180]] [("units", "degrees")]%string
   = Some (Raise RuntimeError)).
Proof.
  assert (Hk : "period"%string <> "units"%string) by discriminate.
  assert (Hd : lower "grad" <> "degrees"%string) by discriminate.
  assert (Hr : lower "grad" <> "radians"%string) by discriminate.
  assert (Hmin : np_min [0; 180] = Ok 0) by (cbn; f_equal; apply Rmin_left; lra).
  assert (Hmax : np_max [0; 180] = Ok 180) by (cbn; f_equal; apply Rmax_right; lra).
  assert (Hne : Rabs (180 - 0) <> 360) by (rewrite Rabs_pos_eq; lra).
  pose proof (mapAngle_failures 5 [1] [0; 180] [] "period" "360" [] 360 0 180)
    as (H1 & _).
  pose proof (mapAngle_failures 5 [1] [0; 180] [] "units" "grad"
                [("units", "degrees")]%string 360 0 180) as (_ & H2 & H3 & H4).
  split; [split; [exact Hk | exact (H1 Hk)]|].
  split; [split; [exact Hd | split; [exact Hr | exact (H2 Hd Hr)]]|].
  split; [split; [reflexivity | exact (H3 eq_refl)]|].
  split; [exact Hmin|]. split; [exact Hmax|]. split; [exact Hne|].
  exact (H4 eq_refl Hmin Hmax Hne).
Defined.

(** ** Facts on the class RotMatEuler *)

Lemma recognised_units (x : string) :
  existsb (String.eqb x) (map fst periodDict) = true <->
  In x ["degrees"; "radians"]%string.
Proof. apply existsb_eqb_In. Qed.

Lemma map_Rmult_inverse (c1 c2 : R) (l : list R) :
  c1 * c2 = 1 -> map (Rmult c1) (map (Rmult c2) l) = l.
Proof.
  intros H. rewrite map_map. induction l as [|a l IH]; cbn [map]; [reflexivity|].
  rewrite IH. f_equal. rewrite <- Rmult_assoc, H. ring.
Qed.

(** The setter of [units] on a change to recognised units, for three
    angles. *)
Lemma units_setter_change (r2d d2r c : R) (self : RotMatEuler) (x : string) :
  In x ["degrees"; "radians"]%string ->
  dict_get (conversion_to_dict r2d d2r) x = Ok c ->
  _units self <> x ->
  length (_angles self) = 3%nat ->
  units_setter r2d d2r x self
  = (MkRotMatEuler (map (Rmult c) (_angles self)) (_axes_order self)
                   (_extrinsic self) x, Ok tt).
Proof.
  intros Hx Hc Hne Hlen. apply recognised_units in Hx.
  apply String.eqb_neq in Hne.
  unfold units_setter. rewrite Hx, Hne, Hc. cbn [negb].
  unfold angles_setter. rewrite length_map, Hlen. reflexivity.
Qed.

Lemma units_setter_same (r2d d2r : R) (self : RotMatEuler) :
  In (_units self) ["degrees"; "radians"]%string ->
  units_setter r2d d2r (_units self) self = (self, Ok tt).
Proof.
  intros Hx. apply recognised_units in Hx.
  unfold units_setter. rewrite Hx, String.eqb_refl. cbn [negb].
  destruct self; reflexivity.
Qed.

(** X25: changing the units of an object with three angles and changing
    them back restores the object, when the two conversion constants are
    inverse to each other; the angles in between are the stored ones times
    the constant of the new units.  Setting the units that the object has
    changes nothing. *)
Theorem units_setter_round_trip (r2d d2r : R) (self : RotMatEuler) (x : string) :
  r2d * d2r = 1 ->
  length (_angles self) = 3%nat ->
  In (_units self) ["degrees"; "radians"]%string ->
  In x ["degrees"; "radians"]%string ->
  exists mid,
    units_setter r2d d2r x self = (mid, Ok tt) /\
    _units mid = x /\
    (x = _units self -> mid = self) /\
    (x <> _units self ->
     exists c, dict_get (conversion_to_dict r2d d2r) x = Ok c /\
               _angles mid = map (Rmult c) (_angles self)) /\
    units_setter r2d d2r (_units self) mid = (self, Ok tt).
Proof.
  intros Hinv Hlen Hu Hx.
  destruct (string_dec x (_units self)) as [E | Hne].
  - subst x. exists self. rewrite units_setter_same by exact Hu.
    split; [reflexivity|]. split; [reflexivity|]. split; [reflexivity|].
    split; [intros H; contradiction | reflexivity].
  - assert (Hc : exists c c', dict_get (conversion_to_dict r2d d2r) x = Ok c /\
                              dict_get (conversion_to_dict r2d d2r) (_units self) = Ok c' /\
                              c' * c = 1).
    { cbn [In] in Hu, Hx.
      destruct Hx as [<- | [<- | []]]; destruct Hu as [Hu | [Hu | []]];
        try contradiction; rewrite <- Hu.
      - exists r2d, d2r. split; [reflexivity|]. split; [reflexivity | lra].
      - exists d2r, r2d. split; [reflexivity|]. split; [reflexivity | lra]. }
    destruct Hc as (c & c' & Hc & Hc' & Hcc).
    eexists. split.
    { apply (units_setter_change r2d d2r c); auto. }
    cbn [_units _angles]. split; [reflexivity|].
    split; [intros H; contradiction|].
    split; [exists c; split; [exact Hc | reflexivity]|].
    rewrite (units_setter_change r2d d2r c' _ (_units self)); cbn [_units _angles];
      auto.
    + rewrite (map_Rmult_inverse c' c _ Hcc). destruct self; reflexivity.
    + rewrite length_map. exact Hlen.
Qed.

Lemma units_setter_round_trip_witness :
  180 / PI * (PI / 180) = 1 /\
  length (_angles (MkRotMatEuler [0; 1; 2] "xyz" true "radians")) = 3%nat /\
  In (_units (MkRotMatEuler [0; 1; 2] "xyz" true "radians"))
     ["degrees"; "radians"]%string /\
  In "degrees"%string ["degrees"; "radians"]%string /\
  exists mid,
    units_setter (180 / PI) (PI / 180) "degrees"
                 (MkRotMatEuler [0; 1; 2] "xyz" true "radians") = (mid, Ok tt) /\
    _units mid = "degrees"%string /\
    ("degrees"%string = _units (MkRotMatEuler [0; 1; 2] "xyz" true "radians") ->
     mid = MkRotMatEuler [0; 1; 2] "xyz" true "radians") /\
    ("degrees"%string <> _units (MkRotMatEuler [0; 1; 2] "xyz" true "radians") ->
     exists c,
       dict_get (conversion_to_dict (180 / PI) (PI / 180)) "degrees" = Ok c /\
       _angles mid
       = map (Rmult c) (_angles (MkRotMatEuler [0; 1; 2] "xyz" true "radians"))) /\
    units_setter (180 / PI) (PI / 180)
                 (_units (MkRotMatEuler [0; 1; 2] "xyz" true "radians")) mid
    = (MkRotMatEuler [0; 1; 2] "xyz" true "radians", Ok tt).
Proof.
  assert (Hinv : 180 / PI * (PI / 180) = 1).
  { pose proof PI_RGT_0. field. lra. }
  assert (Hu : In "radians"%string ["degrees"; "radians"]%string).
  { right; left; reflexivity. }
  assert (Hx : In "degrees"%string ["degrees"; "radians"]%string).
  { left; reflexivity. }
  split; [exact Hinv|]. split; [reflexivity|]. split; [exact Hu|].
  split; [exact Hx|].
  exact (units_setter_round_trip (180 / PI) (PI / 180)
           (MkRotMatEuler [0; 1; 2] "xyz" true "radians") "degrees"
           Hinv eq_refl Hu Hx).
Defined.

Lemma check_axes_order_valid (x axo : string) :
  _check_axes_order x = Ok axo -> In axo axes_orders.
Proof.
  unfold _check_axes_order. cbn zeta.
  destruct (existsb (String.eqb (lower x)) axes_orders) eqn:E; [|discriminate].
  intros H; injection H as <-. apply existsb_eqb_In, E.
Qed.

(** X26: the invariant of the class: an object made by the constructor from
    three angles has three angles, one of the twelve axes orders in lower
    case and units that are recognised up to letter case, and every setter
    keeps this, whatever its argument and whether it returns or raises. *)
Theorem RotMatEuler_invariant (r2d d2r : R) :
  (forall angles axes_order extrinsic units self,
      length angles = 3%nat ->
      RotMatEuler__init__ angles axes_order extrinsic units = Ok self ->
      valid self) /\
  (forall self, valid self ->
     (forall x, valid (fst (angles_setter x self))) /\
     (forall x, valid (fst (axes_order_setter x self))) /\
     (forall x, valid (fst (extrinsic_setter x self))) /\
     (forall x, valid (fst (units_setter r2d d2r x self)))).
Proof.
  split.
  - intros angles axes_order extrinsic units self Hlen.
    unfold RotMatEuler__init__.
    destruct (_check_axes_order axes_order) as [axo|e] eqn:Eaxo; cbn [bind];
      [|discriminate].
    destruct (existsb (String.eqb (lower units)) (map fst periodDict)) eqn:Eu;
      cbn [negb]; [|discriminate].
    intros H; injection H as <-. unfold valid. cbn [_angles _axes_order _units].
    split; [exact Hlen|]. split; [exact (check_axes_order_valid _ _ Eaxo)|].
    apply existsb_eqb_In, Eu.
  - intros self (Hlen & Haxo & Hu).
    assert (Hang : forall x, valid (fst (angles_setter x self))).
    { intros x. unfold angles_setter.
      destruct (Nat.eqb (length x) 3) eqn:E; cbn [fst].
      - apply Nat.eqb_eq in E. repeat split; assumption.
      - repeat split; assumption. }
    split; [exact Hang|]. split; [|split].
    + intros x. unfold axes_order_setter.
      destruct (_check_axes_order x) as [axo|e] eqn:E; cbn [fst].
      * split; [exact Hlen|]. split; [exact (check_axes_order_valid _ _ E)|].
        exact Hu.
      * repeat split; assumption.
    + intros x. unfold extrinsic_setter. cbn [fst]. repeat split; assumption.
    + intros x. unfold units_setter.
      destruct (existsb (String.eqb x) (map fst periodDict)) eqn:Ex;
        [|cbn [fst]; repeat split; assumption].
      assert (Hx : In (lower x) (map fst periodDict)).
      { apply existsb_eqb_In in Ex. cbn [map fst periodDict In] in Ex |- *.
        destruct Ex as [<- | [<- | []]]; [left | right; left]; reflexivity. }
      destruct (negb (String.eqb (_units self) x)).
      * destruct (dict_get (conversion_to_dict r2d d2r) x) as [c|e];
          [|cbn [fst]; repeat split; assumption].
        specialize (Hang (map (Rmult c) (_angles self))).
        destruct (angles_setter (map (Rmult c) (_angles self)) self)
          as [self1 [u|e]]; cbn [fst] in *; [|exact Hang].
        destruct Hang as (H1 & H2 & _). repeat split; assumption.
      * cbn [fst]. repeat split; assumption.
Qed.

Lemma RotMatEuler_invariant_witness :
  (length [0; 1; 2] = 3%nat /\
   RotMatEuler__init__ [0; 1; 2] "ZXZ" false "Degrees"
   = Ok (MkRotMatEuler [0; 1; 2] "zxz" false "Degrees") /\
   valid (MkRotMatEuler [0; 1; 2] "zxz" false "Degrees")) /\
  (valid (MkRotMatEuler [0; 1; 2] "zxz" false "Degrees") /\
   valid (fst (angles_setter [1]
                 (MkRotMatEuler [0; 1; 2] "zxz" false "Degrees"))) /\
   valid (fst (units_setter 2 (1 / 2) "radians"
                 (MkRotMatEuler [0; 1; 2] "zxz" false "Degrees")))).
Proof.
  destruct (RotMatEuler_invariant 2 (1 / 2)) as [Hinit Hset].
  assert (Hv : valid (MkRotMatEuler [0; 1; 2] "zxz" false "Degrees")).
  { exact (Hinit [0; 1; 2] "ZXZ"%string false "Degrees"%string _ eq_refl eq_refl). }
  split; [split; [reflexivity | split; [reflexivity | exact Hv]]|].
  split; [exact Hv|].
  destruct (Hset _ Hv) as (Ha & _ & _ & Hun).
  split; [apply Ha | apply Hun].
Defined.

(** X27: the constructor checks neither the number of angles nor the letter
    case of the units: it returns for every array of angles once the axes
    order and the units are recognised up to letter case, and keeps the
    units as they are written.  A later change to other units then raises
    [RuntimeError] and leaves the object as it was when the angles are not
    three; for three angles it multiplies them by the constant of the new
    units, also when the units differ in letter case only. *)
Theorem RotMatEuler_unchecked_constructor
        (r2d d2r : R) (angles : list R) (axes_order : string)
        (extrinsic : bool) (units x : string) :
  In (lower axes_order) axes_orders ->
  In (lower units) ["degrees"; "radians"]%string ->
  In x ["degrees"; "radians"]%string ->
  x <> units ->
  exists c,
    dict_get (conversion_to_dict r2d d2r) x = Ok c /\
    RotMatEuler__init__ angles axes_order extrinsic units
    = Ok (MkRotMatEuler angles (lower axes_order) extrinsic units) /\
    (length angles <> 3%nat ->
     units_setter r2d d2r x
                  (MkRotMatEuler angles (lower axes_order) extrinsic units)
     = (MkRotMatEuler angles (lower axes_order) extrinsic units,
        Raise RuntimeError)) /\
    (length angles = 3%nat ->
     units_setter r2d d2r x
                  (MkRotMatEuler angles (lower axes_order) extrinsic units)
     = (MkRotMatEuler (map (Rmult c) angles) (lower axes_order) extrinsic x,
        Ok tt)).
Proof.
  intros Haxo Hu Hx Hne.
  assert (Hc : exists c, dict_get (conversion_to_dict r2d d2r) x = Ok c).
  { cbn [In] in Hx. destruct Hx as [<- | [<- | []]]; eexists; reflexivity. }
  destruct Hc as [c Hc]. exists c. split; [exact Hc|]. split; [|split].
  - unfold RotMatEuler__init__, _check_axes_order. cbn zeta.
    rewrite (proj2 (existsb_eqb_In _ _) Haxo). cbn [bind].
    rewrite (proj2 (recognised_units _) Hu). reflexivity.
  - intros Hlen. unfold units_setter.
    rewrite (proj2 (recognised_units _) Hx). cbn [_units _angles].
    assert (E : String.eqb units x = false).
    { apply String.eqb_neq. intros ->. apply Hne. reflexivity. }
    rewrite E, Hc. cbn [negb]. unfold angles_setter. rewrite length_map.
    apply Nat.eqb_neq in Hlen. rewrite Hlen. reflexivity.
  - intros Hlen.
    apply (units_setter_change r2d d2r c (MkRotMatEuler angles (lower axes_order) extrinsic units) x);
      cbn [_units _angles]; auto.
Qed.

Lemma RotMatEuler_unchecked_constructor_witness :
  In (lower "XYZ") axes_orders /\
  In (lower "Degrees") ["degrees"; "radians"]%string /\
  In "degrees"%string ["degrees"; "radians"]%string /\
  "degrees"%string <> "Degrees"%string /\
  exists c,
    dict_get (conversion_to_dict (180 / PI) (PI / 180)) "degrees" = Ok c /\
    RotMatEuler__init__ [10; 20; 30] "XYZ" true "Degrees"
    = Ok (MkRotMatEuler [10; 20; 30] (lower "XYZ") true "Degrees") /\
    (length [10; 20; 30] <> 3%nat ->
     units_setter (180 / PI) (PI / 180) "degrees"
                  (MkRotMatEuler [10; 20; 30] (lower "XYZ") true "Degrees")
     = (MkRotMatEuler [10; 20; 30] (lower "XYZ") true "Degrees",
        Raise RuntimeError)) /\
    (length [10; 20; 30] = 3%nat ->
     units_setter (180 / PI) (PI / 180) "degrees"
                  (MkRotMatEuler [10; 20; 30] (lower "XYZ") true "Degrees")
     = (MkRotMatEuler (map (Rmult c) [10; 20; 30]) (lower "XYZ") true "degrees",
        Ok tt)).
Proof.
  assert (Haxo : In (lower "XYZ") axes_orders) by (left; reflexivity).
  assert (Hu : In (lower "Degrees") ["degrees"; "radians"]%string)
    by (left; reflexivity).
  assert (Hx : In "degrees"%string ["degrees"; "radians"]%string)
    by (left; reflexivity).
  assert (Hne : "degrees"%string <> "Degrees"%string) by discriminate.
  split; [exact Haxo|]. split; [exact Hu|]. split; [exact Hx|].
  split; [exact Hne|].
  exact (RotMatEuler_unchecked_constructor (180 / PI) (PI / 180) [10; 20; 30]
           "XYZ" true "Degrees" "degrees" Haxo Hu Hx Hne).
Defined.

(** ** Facts on quatProduct *)

(** The scipy rotation that holds a quaternion, scalar last. *)
Lemma from_quat1_unit (c : quat) :
  unit_quat c ->
  ScipyRotation.from_quat1 (q_1 c, q_2 c, q_3 c, q_0 c)
  = Ok (Scipy.Rot (q_1 c) (q_2 c) (q_3 c) (q_0 c)).
Proof.
  unfold unit_quat. destruct c as [a b c d]. cbn. intros Hu.
  replace (b * b + c * c + d * d + a * a) with 1 by lra.
  rewrite sqrt_1. unfold Reqb.
  destruct (Req_dec_T 1 0) as [E|_]; [lra|].
  f_equal. f_equal; field.
Qed.

Lemma quat_to_scipy_rotation_unit (cols : list quat) :
  Forall unit_quat cols ->
  _quat_to_scipy_rotation (QuatBatch cols)
  = Ok (map (fun c => Scipy.Rot (q_1 c) (q_2 c) (q_3 c) (q_0 c)) cols).
Proof.
  intros H. unfold _quat_to_scipy_rotation, ScipyRotation.from_quat.
  induction H as [|c cols Hc _ IH]; cbn [map mapM]; [reflexivity|].
  rewrite (from_quat1_unit c Hc), IH. reflexivity.
Qed.

Lemma compose_hamilton (p q : quat) :
  let r := ScipyRotation.compose
             (Scipy.Rot (q_1 p) (q_2 p) (q_3 p) (q_0 p))
             (Scipy.Rot (q_1 q) (q_2 q) (q_3 q) (q_0 q)) in
  Quat (Scipy.rw r) (Scipy.rx r) (Scipy.ry r) (Scipy.rz r) = hamilton p q.
Proof.
  destruct p, q. unfold ScipyRotation.compose, hamilton; cbn.
  apply quat_eq; ring.
Qed.

Lemma sumsq_hamilton (p q : quat) : sumsq (hamilton p q) = sumsq p * sumsq q.
Proof. destruct p, q. unfold hamilton; cbn. ring. Qed.

(** The quaternion that [quatProduct] makes of the column [a] of its first
    argument and the column [b] of its second. *)
Lemma product_columns (q1 q2 : list quat) :
  _scipy_rotation_to_quat
    (map (fun pq => ScipyRotation.compose (fst pq) (snd pq))
         (combine (map (fun c => Scipy.Rot (q_1 c) (q_2 c) (q_3 c) (q_0 c)) q2)
                  (map (fun c => Scipy.Rot (q_1 c) (q_2 c) (q_3 c) (q_0 c)) q1)))
  = map (fun ab => scale (np_sign (q_0 (hamilton (snd ab) (fst ab))))
                         (hamilton (snd ab) (fst ab)))
        (combine q1 q2).
Proof.
  revert q2. induction q1 as [|a q1 IH]; intros [|b q2]; try reflexivity.
  cbn [map combine fst snd]. unfold _scipy_rotation_to_quat in *.
  cbn [map]. rewrite IH. f_equal.
  pose proof (compose_hamilton b a) as H. cbn zeta in H. rewrite H.
  reflexivity.
Qed.

(** X28: on two batches of as many unit quaternions [quatProduct(q1, q2)]
    returns, column by column, the Hamilton product [q2 * q1] times the sign
    of its scalar.  Where that scalar is not zero the result is a unit
    quaternion with positive scalar whose rotation matrix is
    [R(q2) R(q1)], the second argument applied last; where it is zero (a
    half turn) the result is the zero column. *)
Theorem quatProduct_rotation (q1 q2 : list quat) :
  Forall unit_quat q1 -> Forall unit_quat q2 -> length q1 = length q2 ->
  quatProduct (QuatBatch q1) (QuatBatch q2)
  = Ok (map (fun ab => scale (np_sign (q_0 (hamilton (snd ab) (fst ab))))
                             (hamilton (snd ab) (fst ab)))
            (combine q1 q2)) /\
  Forall (fun ab =>
            let h := hamilton (snd ab) (fst ab) in
            let qp := scale (np_sign (q_0 h)) h in
            (q_0 h <> 0 ->
             unit_quat qp /\ 0 < q_0 qp /\
             rotmat1 qp = mmul3 (rotmat1 (snd ab)) (rotmat1 (fst ab))) /\
            (q_0 h = 0 -> qp = Quat 0 0 0 0))
         (combine q1 q2).
Proof.
  intros H1 H2 Hlen. split.
  - unfold quatProduct.
    rewrite (quat_to_scipy_rotation_unit q1 H1),
            (quat_to_scipy_rotation_unit q2 H2). cbn [bind].
    unfold ScipyRotation.mul. rewrite !length_map, Hlen, Nat.eqb_refl.
    cbn [bind]. f_equal. apply product_columns.
  - apply Forall_forall. intros [a b] Hin. cbn [fst snd]. cbn zeta.
    pose proof (in_combine_l _ _ _ _ Hin) as Ha.
    pose proof (in_combine_r _ _ _ _ Hin) as Hb.
    rewrite Forall_forall in H1, H2.
    specialize (H1 a Ha). specialize (H2 b Hb).
    assert (Hu : sumsq (hamilton b a) = 1).
    { rewrite sumsq_hamilton. unfold unit_quat in H1, H2. rewrite H1, H2. ring. }
    destruct (np_sign_cases (q_0 (hamilton b a))) as (Hpos & Hneg & Hzero).
    split.
    + intros Hnz.
      destruct (Rtotal_order (q_0 (hamilton b a)) 0) as [Hlt | [Heq | Hgt]];
        [|contradiction|].
      * rewrite (Hneg Hlt). split; [|split].
        -- unfold unit_quat. rewrite sumsq_scale_quat, Hu. ring.
        -- destruct (hamilton b a); cbn in *. lra.
        -- rewrite rotmat1_opp. apply rotmat1_hamilton.
      * rewrite (Hpos Hgt), scale_1_quat. split; [exact Hu|].
        split; [exact Hgt | apply rotmat1_hamilton].
    + intros Hz. rewrite (Hzero Hz). destruct (hamilton b a); cbn.
      apply quat_eq; ring.
Qed.

Lemma quatProduct_rotation_witness :
  Forall unit_quat [q_c3] /\ Forall unit_quat [h_c3] /\
  length [q_c3] = length [h_c3] /\
  quatProduct (QuatBatch [q_c3]) (QuatBatch [h_c3])
  = Ok (map (fun ab => scale (np_sign (q_0 (hamilton (snd ab) (fst ab))))
                             (hamilton (snd ab) (fst ab)))
            (combine [q_c3] [h_c3])) /\
  Forall (fun ab =>
            let h := hamilton (snd ab) (fst ab) in
            let qp := scale (np_sign (q_0 h)) h in
            (q_0 h <> 0 ->
             unit_quat qp /\ 0 < q_0 qp /\
             rotmat1 qp = mmul3 (rotmat1 (snd ab)) (rotmat1 (fst ab))) /\
            (q_0 h = 0 -> qp = Quat 0 0 0 0))
         (combine [q_c3] [h_c3]).
Proof.
  assert (H1 : Forall unit_quat [q_c3]).
  { constructor; [|constructor]. unfold unit_quat, q_c3; cbn. lra. }
  assert (H2 : Forall unit_quat [h_c3]).
  { constructor; [|constructor]. unfold unit_quat, h_c3; cbn. lra. }
  split; [exact H1|]. split; [exact H2|]. split; [reflexivity|].
  exact (quatProduct_rotation [q_c3] [h_c3] H1 H2 eq_refl).
Defined.

(** ** Facts on quatOfExpMap *)

(** The rotation matrix of a quaternion whose vector part is along [v]
    maps [v] to a multiple of itself. *)
Lemma rotmat1_axis (a s : R) (v : vec3) :
  dot3 (rotmat1 (Quat a (s * v_0 v) (s * v_1 v) (s * v_2 v))) v
  = scale (a * a + s * s * sumsq v) v.
Proof.
  destruct v as [x y z]. unfold dot3, rotmat1, vdot; cbn.
  apply vec3_eq; ring.
Qed.

(** X29: for a rotation vector [v] of length strictly between 0 and pi,
    [quatOfExpMap] returns the 1-d array of the unit quaternion
    [[cos(|v|/2), sin(|v|/2) v/|v|]], of positive scalar, and
    [rotMatOfQuat] makes of it a single proper rotation matrix that leaves
    [v] where it is and has trace [1 + 2 cos |v|]: the rotation about [v] by
    the angle [|v|]. *)
Theorem quatOfExpMap_rotation (v : vec3) :
  0 < norm v < PI ->
  exists q M,
    quatOfExpMap (ExpVector v)
    = Ok (QuatVector [q_0 q; q_1 q; q_2 q; q_3 q]) /\
    quatOfExpMap (ExpBatch [v]) = quatOfExpMap (ExpVector v) /\
    q = Quat (cos (norm v / 2))
             (sin (norm v / 2) / norm v * v_0 v)
             (sin (norm v / 2) / norm v * v_1 v)
             (sin (norm v / 2) / norm v * v_2 v) /\
    unit_quat q /\ 0 < q_0 q /\
    (a <- quatOfExpMap (ExpVector v) ;; rotMatOfQuat a) = Ok (RMat M) /\
    dot3 M v = v /\
    mmul3 M (transpose3 M) = I3 /\ det3 M = 1 /\
    v_0 (m_0 M) + v_1 (m_1 M) + v_2 (m_2 M) = 1 + 2 * cos (norm v).
Proof.
  intros [Hlo Hhi].
  set (t := norm v) in *.
  set (q := Quat (cos (t / 2)) (sin (t / 2) / t * v_0 v)
                 (sin (t / 2) / t * v_1 v) (sin (t / 2) / t * v_2 v)).
  assert (Ht2 : t * t = sumsq v).
  { unfold t, norm. apply sqrt_sqrt, sumsq_vec3_nonneg. }
  assert (Hc : 0 < cos (t / 2)).
  { apply cos_gt_0; lra. }
  assert (Hs : sin (t / 2) / t * (sin (t / 2) / t) * sumsq v
               = sin (t / 2) * sin (t / 2)).
  { rewrite <- Ht2. field. lra. }
  assert (Hu : sumsq q = 1).
  { pose proof (sin2_cos2 (t / 2)) as Hsc. unfold Rsqr in Hsc.
    transitivity (cos (t / 2) * cos (t / 2)
                  + sin (t / 2) / t * (sin (t / 2) / t) * sumsq v).
    - unfold q. destruct v as [x y z]; cbn. ring.
    - rewrite Hs. lra. }
  assert (Hq : _scipy_rotation_to_quat [Scipy.from_rotvec v] = [q]).
  { unfold _scipy_rotation_to_quat, Scipy.from_rotvec. cbn [map].
    fold t. cbn [Scipy.rw Scipy.rx Scipy.ry Scipy.rz q_0].
    destruct (np_sign_cases (cos (t / 2))) as (Hpos & _ & _).
    rewrite (Hpos Hc), scale_1_quat. reflexivity. }
  assert (Hrun : quatOfExpMap (ExpVector v)
                 = Ok (QuatVector [q_0 q; q_1 q; q_2 q; q_3 q])).
  { unfold quatOfExpMap. cbn [from_rotvec_rows bind map]. rewrite Hq.
    reflexivity. }
  exists q, (rotmat1 q).
  split; [exact Hrun|]. split; [reflexivity|]. split; [reflexivity|].
  split; [exact Hu|]. split; [exact Hc|].
  destruct (rotmat1_gram q) as (Hg & _ & Hd). cbn zeta in Hg, Hd.
  split; [|split; [|split; [|split]]].
  - rewrite Hrun. cbn [bind]. unfold rotMatOfQuat.
    cbn [bind _rotmatofquat map]. do 2 f_equal.
  - unfold q. rewrite rotmat1_axis, Hs.
    pose proof (sin2_cos2 (t / 2)) as Hsc. unfold Rsqr in Hsc.
    replace (cos (t / 2) * cos (t / 2) + sin (t / 2) * sin (t / 2)) with 1
      by lra.
    destruct v; cbn. apply vec3_eq; ring.
  - rewrite Hg, Hu. unfold I3. apply mat3_eq; ring.
  - rewrite Hd, Hu. ring.
  - transitivity (4 * (cos (t / 2) * cos (t / 2)) - sumsq q).
    + unfold q, rotmat1. destruct v as [x y z]; cbn. ring.
    + rewrite Hu. replace (cos t) with (cos (2 * (t / 2)))
        by (f_equal; field).
      rewrite cos_2a_cos. ring.
Qed.

Lemma quatOfExpMap_rotation_witness :
  0 < norm (Vec3 0 0 1) < PI /\
  exists q M,
    quatOfExpMap (ExpVector (Vec3 0 0 1))
    = Ok (QuatVector [q_0 q; q_1 q; q_2 q; q_3 q]) /\
    quatOfExpMap (ExpBatch [Vec3 0 0 1]) = quatOfExpMap (ExpVector (Vec3 0 0 1)) /\
    q = Quat (cos (norm (Vec3 0 0 1) / 2))
             (sin (norm (Vec3 0 0 1) / 2) / norm (Vec3 0 0 1) * v_0 (Vec3 0 0 1))
             (sin (norm (Vec3 0 0 1) / 2) / norm (Vec3 0 0 1) * v_1 (Vec3 0 0 1))
             (sin (norm (Vec3 0 0 1) / 2) / norm (Vec3 0 0 1) * v_2 (Vec3 0 0 1)) /\
    unit_quat q /\ 0 < q_0 q /\
    (a <- quatOfExpMap (ExpVector (Vec3 0 0 1)) ;; rotMatOfQuat a)
    = Ok (RMat M) /\
    dot3 M (Vec3 0 0 1) = Vec3 0 0 1 /\
    mmul3 M (transpose3 M) = I3 /\ det3 M = 1 /\
    v_0 (m_0 M) + v_1 (m_1 M) + v_2 (m_2 M) = 1 + 2 * cos (norm (Vec3 0 0 1)).
Proof.
  assert (H : 0 < norm (Vec3 0 0 1) < PI).
  { replace (norm (Vec3 0 0 1)) with 1.
    - pose proof PI_RGT_0. pose proof PI2_1. unfold PI2 in *. lra.
    - unfold norm; cbn. replace (0 * 0 + 0 * 0 + 1 * 1) with 1 by ring.
      symmetry; apply sqrt_1. }
  split; [exact H|].
  exact (quatOfExpMap_rotation (Vec3 0 0 1) H).
Defined.

(** ** Facts on quatAverage *)

(** [misorientation] returns one angle for every column of its second
    argument. *)
Lemma misorientation_angle_length
      (q1 q2 : list quat) (args : list (list (list quat)))
      (ang : list R) (mis : list quat) :
  misorientation q1 q2 args = Ok (ang, mis) -> length ang = length q2.
Proof.
  unfold misorientation.
  destruct (negb (Nat.eqb (length q1) 1)); [discriminate|].
  repeat match goal with
         | |- context [bind ?r _] =>
             destruct r as [?|?] eqn:?; cbn [bind]; [|discriminate]
         end.
  cbn zeta. intros H. injection H as Hang _. subst ang.
  rewrite length_map.
  match goal with
  | Ha : arccosSafe _ = Ok _, Hm : max_axis0 _ _ = Ok _ |- _ =>
      unfold arccosSafe in Ha; unfold max_axis0 in Hm;
      destruct (existsb _ _) in Ha; [discriminate|];
      injection Ha as <-;
      destruct (Nat.eqb _ 0) in Hm; [discriminate|];
      apply mapM_length in Hm
  end.
  rewrite !length_map.
  match goal with
  | Hm : length _ = length (reshape_rows _ _ _) |- _ =>
      rewrite Hm; apply reshape_rows_length
  end.
Qed.

(** X30: [quatAverage] on small batches: for a single quaternion it
    returns the quaternion normalised; for an empty batch it raises
    [IndexError]; for exactly two quaternions it never returns, whatever
    the quaternions and the symmetry group: when [misorientation] returns,
    the 1-d array that [quatOfExpMap] squeezes its result to is refused by
    [quatProduct]. *)
Theorem quatAverage_small_batches
        (epsf : R) (leastsq : (vec3 -> result (list R)) -> vec3 -> result vec3)
        (q_in qsym : list quat) :
  (length q_in = 1%nat ->
   quatAverage epsf leastsq q_in qsym = Ok (unitVector q_in)) /\
  (q_in = [] -> quatAverage epsf leastsq q_in qsym = Raise IndexError) /\
  (length q_in = 2%nat ->
   exists e, quatAverage epsf leastsq q_in qsym = Raise e).
Proof.
  split; [|split].
  - intros Hlen. unfold quatAverage.
    assert (Hl : length (unitVector q_in) = 1%nat)
      by (unfold unitVector; rewrite length_map; exact Hlen).
    rewrite Hl. reflexivity.
  - intros ->. reflexivity.
  - intros Hlen.
    destruct q_in as [|a [|b [|]]]; try discriminate.
    unfold quatAverage.
    change (unitVector [a; b])
      with [scale (/ norm a) a; scale (/ norm b) b].
    cbn [length Nat.ltb Nat.leb Nat.eqb column_at nth_error bind].
    match goal with
    | |- context [misorientation ?x ?y ?z] =>
        destruct (misorientation x y z) as [[ma mq]|e] eqn:Em
    end; cbn [bind fst snd]; [|exists e; reflexivity].
    apply misorientation_angle_length in Em. cbn [length] in Em.
    destruct ma as [|m0 [|]]; try discriminate.
    destruct (map vector_part mq) as [|v [|]]; cbn [bind];
      try (exists ValueError; reflexivity).
    unfold quatOfExpMap. cbn [map from_rotvec_rows bind].
    unfold quatProduct. cbn [map squeeze_quats _scipy_rotation_to_quat].
    match goal with
    | |- context [_quat_to_scipy_rotation (QuatBatch ?c)] =>
        destruct (_quat_to_scipy_rotation (QuatBatch c)) as [r|e]
    end; cbn [bind _quat_to_scipy_rotation]; eexists; reflexivity.
Qed.

Lemma quatAverage_small_batches_witness :
  (length [q_c3] = 1%nat /\
   quatAverage 0 (fun _ x => Ok x) [q_c3] [identity_quat]
   = Ok (unitVector [q_c3])) /\
  (@nil quat = [] /\
   quatAverage 0 (fun _ x => Ok x) [] [identity_quat] = Raise IndexError) /\
  (length [q_c3; h_c3] = 2%nat /\
   exists e,
     quatAverage 0 (fun _ x => Ok x) [q_c3; h_c3] [identity_quat] = Raise e).
Proof.
  destruct (quatAverage_small_batches 0 (fun _ x => Ok x) [q_c3] [identity_quat])
    as (H1 & _ & _).
  destruct (quatAverage_small_batches 0 (fun _ x => Ok x) [] [identity_quat])
    as (_ & H0 & _).
  destruct (quatAverage_small_batches 0 (fun _ x => Ok x) [q_c3; h_c3]
              [identity_quat]) as (_ & _ & H2).
  split; [split; [reflexivity | exact (H1 eq_refl)]|].
  split; [split; [reflexivity | exact (H0 eq_refl)]|].
  split; [reflexivity | exact (H2 eq_refl)].
Defined.
